(** * GoScript toolchain host: a shallow embedding and its verified properties

    The development follows the JavaScript sources of the repository:

    - [Js]                  the host primitives the sources call (typed arrays,
                            [DataView], [TextDecoder], string methods,
                            [JSON.stringify], 32-bit integer arithmetic);
    - [VirtualFileSystem]   the in-memory filesystem of the demo site;
    - [VirtualFS]           the in-memory filesystem of the SDK (sdk/goscript.js);
    - [FSPolyfill]          the POSIX-shaped shim of script/fs-polyfill.js;
    - [SdkFSPolyfill]       the shim of the SDK;
    - [ToolchainLoader]     the pack parser (and the SDK's [_parseToolchainPack]);
    - [CacheManager]        the artifact cache and the source hash;
    - [CompilationManager]  the seven-stage build pipeline;
    - [GoScript]            the SDK driver with its [compiling] guard.

    Definitions come first, the theorems follow. *)

From Stdlib Require Import ZArith List Lia Bool.
From Stdlib.Strings Require Import Ascii String Byte.
From stdpp Require Import base option list gmap strings sorting.

Local Open Scope Z_scope.
#[local] Set Warnings "-register-all,-clear-no-such-hyp".

(* ===================================================================== *)
(** * Exceptions and results *)
(* ===================================================================== *)

(** Every [throw] site of the modelled sources, and the exceptions the host
    raises on their behalf. *)
Inductive exn : Type :=
| BadMagic                       (* Error('Invalid goscript.pack format: bad magic'),
                                    Error('Invalid toolchain pack format') in the SDK *)
| UnsupportedVersion (v : Z)     (* Error(`Unsupported pack version: ${version}`) *)
| FileNotFound (path : list Z)   (* Error(`File not found: ${normalized}`) *)
| EBADF                          (* Error("EBADF") *)
| ENOENT                         (* Error("ENOENT"), code "ENOENT" *)
| NotInitialized                 (* Error('GoScript not initialized. Call init() first.') *)
| AlreadyCompiling               (* Error('Compilation already in progress') *)
| NoGoFiles                      (* Error("No Go files specified for compilation") *)
| NoObjectFile                   (* Error("Compilation failed: main.o not created"),
                                    Error('Compiler failed to produce output') in the SDK *)
| NoLinkedBinary                 (* Error("Linking failed: main.wasm not created"),
                                    Error('Linker failed to produce output') in the SDK *)
| NoOutputGenerated              (* Error('Compilation failed: no output generated') *)
| InvalidWasm                    (* Error('Invalid WASM binary generated') *)
| RangeError                     (* host: typed-array or DataView access out of bounds *)
| SyntaxError                    (* host: JSON.parse on malformed text *)
| TypeError                      (* host: property access on null or undefined *)
| FetchFailed                    (* Error(`Failed to load goscript.pack: ${status}`),
                                    Error(`Failed to fetch compile.wasm: ${status}`) *)
| ForeignFailure.                (* host: WebAssembly.instantiate or Go.run rejected *)

Inductive result (A : Type) : Type :=
| Ok (a : A)
| Throw (e : exn).
Arguments Ok {A} a.
Arguments Throw {A} e.

Definition is_ok {A} (r : result A) : bool :=
  match r with Ok _ => true | Throw _ => false end.


#[global] Instance result_ret : MRet result := fun _ a => Ok a.
#[global] Instance result_bind : MBind result := fun _ _ f r =>
  match r with Ok a => f a | Throw e => Throw e end.
#[global] Instance result_fmap : FMap result := fun _ _ f r =>
  match r with Ok a => Ok (f a) | Throw e => Throw e end.

(** Code that mutates [S] and may throw: a thrown exception keeps the
    mutations made before it, as in JavaScript. *)
Definition M (S A : Type) : Type := S -> result A * S.

#[global] Instance M_ret {S} : MRet (M S) := fun _ a s => (Ok a, s).
#[global] Instance M_bind {S} : MBind (M S) := fun _ _ f m s =>
  match m s with
  | (Ok a, s') => f a s'
  | (Throw e, s') => (Throw e, s')
  end.

Definition throw {S A} (e : exn) : M S A := fun s => (Throw e, s).
Definition get {S} : M S S := fun s => (Ok s, s).
Definition modify {S} (f : S -> S) : M S unit := fun s => (Ok tt, f s).
Definition lift {S A} (r : result A) : M S A := fun s => (r, s).

(** [try { body } catch (e) { handler(e) }] *)
Definition try_catch {S A} (body : M S A) (handler : exn -> M S A) : M S A :=
  fun s => match body s with
           | (Ok a, s') => (Ok a, s')
           | (Throw e, s') => handler e s'
           end.

(* ===================================================================== *)
(** * Host primitives *)
(* ===================================================================== *)

Module Js.

(** ** Bytes and little-endian integers *)

Abbreviation bytes := (list byte).

#[global] Instance byte_eq_dec : EqDecision byte := Byte.byte_eq_dec.

Definition byte_to_Z (b : byte) : Z := Z.of_N (Byte.to_N b).

Definition byte_of_Z (z : Z) : byte :=
  match Byte.of_N (Z.to_N (z mod 256)) with Some b => b | None => x00 end.

(** [buf.byteLength], [arr.length] *)
Definition byteLength (buf : bytes) : Z := Z.of_nat (length buf).

(** The bytes [off, off+n) of [buf]; shorter when the range leaves [buf]. *)
Definition sub_bytes (buf : bytes) (off n : Z) : bytes :=
  take (Z.to_nat n) (drop (Z.to_nat off) buf).

(** [buf.slice(begin, end)] on an [ArrayBuffer]: both ends are clamped to
    the buffer, so an overlong range is silently cut short. *)
Definition ArrayBuffer_slice (buf : bytes) (begin end_ : Z) : bytes :=
  let len := byteLength buf in
  let first := Z.min (Z.max begin 0) len in
  let final := Z.min (Z.max end_ 0) len in
  sub_bytes buf first (Z.max (final - first) 0).

(** [new Uint8Array(buf, byteOffset, length)]: a view, or a [RangeError]
    when the range leaves the buffer. *)
Definition Uint8Array_view (buf : bytes) (byteOffset len : Z) : result bytes :=
  if (0 <=? byteOffset) && (0 <=? len) && (byteOffset + len <=? byteLength buf)
  then Ok (sub_bytes buf byteOffset len)
  else Throw RangeError.

(** Little-endian value of a byte sequence. *)
Fixpoint le_uint (bs : bytes) : Z :=
  match bs with
  | [] => 0
  | b :: bs' => byte_to_Z b + 256 * le_uint bs'
  end.

(** [view.getUintN(offset, true)] for N = 8 * width. *)
Definition DataView_get (width : Z) (buf : bytes) (offset : Z) : result Z :=
  if (0 <=? offset) && (offset + width <=? byteLength buf)
  then Ok (le_uint (sub_bytes buf offset width))
  else Throw RangeError.

Definition getUint16 := DataView_get 2.
Definition getUint32 := DataView_get 4.
Definition getBigUint64 := DataView_get 8.

(** The IEEE-754 double nearest to a non-negative integer (ties to even):
    the identity below 2^53. *)
Definition round_double (z : Z) : Z :=
  if z <? 2 ^ 53 then z
  else
    let e := Z.log2 z - 52 in
    let q := z / 2 ^ e in
    let r := z mod 2 ^ e in
    let half := 2 ^ (e - 1) in
    if r <? half then q * 2 ^ e
    else if half <? r then (q + 1) * 2 ^ e
    else if Z.even q then q * 2 ^ e
    else (q + 1) * 2 ^ e.

(** [Number(bigint)] *)
Definition Number_of_BigInt (z : Z) : Z := round_double z.

(** [a + b] on Numbers holding non-negative integers *)
Definition Number_add (a b : Z) : Z := round_double (a + b).

(** ** Strings: sequences of UTF-16 code units *)

Abbreviation jsstring := (list Z).

(** The code units of an ASCII literal. *)
Definition lit (s : string) : jsstring :=
  map (fun a => Z.of_N (N_of_ascii a)) (list_ascii_of_string s).
Arguments lit s%_string.

Definition slash : Z := 47.
Definition dot : Z := 46.

(** [s.startsWith(p)] *)
Fixpoint startsWith (s p : jsstring) : bool :=
  match p, s with
  | [], _ => true
  | _ :: _, [] => false
  | c :: p', d :: s' => (c =? d) && startsWith s' p'
  end.

(** [s.endsWith(p)] *)
Definition endsWith (s p : jsstring) : bool :=
  startsWith (rev s) (rev p).

(** [s.split(sep)] for a one-unit separator: never the empty array. *)
Fixpoint split (sep : Z) (s : jsstring) : list jsstring :=
  match s with
  | [] => [[]]
  | c :: s' =>
      if c =? sep then [] :: split sep s'
      else match split sep s' with
           | seg :: segs => (c :: seg) :: segs
           | [] => [[c]]
           end
  end.

(** [parts.join(sep)] *)
Fixpoint join (sep : Z) (parts : list jsstring) : jsstring :=
  match parts with
  | [] => []
  | [p] => p
  | p :: ps => p ++ sep :: join sep ps
  end.

(** [s.replace(/\/+/g, '/')]: every maximal run of slashes becomes one. *)
Fixpoint collapse_slashes (s : jsstring) : jsstring :=
  match s with
  | [] => []
  | c :: s' =>
      if c =? slash then
        match s' with
        | d :: _ => if d =? slash then collapse_slashes s'
                    else c :: collapse_slashes s'
        | [] => [c]
        end
      else c :: collapse_slashes s'
  end.

(** Truthiness of a string: non-empty. *)
Definition truthy (s : jsstring) : bool :=
  match s with [] => false | _ :: _ => true end.

Definition str_eqb (a b : jsstring) : bool := bool_decide (a = b).

(** White space and line terminators, as [String.prototype.trimEnd] strips
    them. *)
Definition is_white_space (c : Z) : bool :=
  (c =? 9) || (c =? 10) || (c =? 11) || (c =? 12) || (c =? 13) || (c =? 32)
  || (c =? 160) || (c =? 5760) || ((8192 <=? c) && (c <=? 8202))
  || (c =? 8232) || (c =? 8233) || (c =? 8239) || (c =? 8287)
  || (c =? 12288) || (c =? 65279).

(** [s.trimEnd()] *)
Fixpoint trimEnd (s : jsstring) : jsstring :=
  match s with
  | [] => []
  | c :: s' =>
      match trimEnd s' with
      | [] => if is_white_space c then [] else [c]
      | t => c :: t
      end
  end.

(** ** [TextDecoder] and [TextEncoder] (UTF-8) *)

Definition in_range (lo hi : Z) (b : byte) : bool :=
  (lo <=? byte_to_Z b) && (byte_to_Z b <=? hi).

Definition replacement : Z := 65533.

(** The code points of a byte sequence, as the WHATWG UTF-8 decoder
    produces them: an ill-formed sequence yields U+FFFD for its maximal
    valid prefix, and decoding resumes at the offending byte. *)
Fixpoint utf8_decode (bs : bytes) : list Z :=
  match bs with
  | [] => []
  | b :: r1 =>
      let x := byte_to_Z b in
      if x <? 128 then x :: utf8_decode r1
      else if (194 <=? x) && (x <=? 223) then
        match r1 with
        | c1 :: r2 =>
            if in_range 128 191 c1
            then ((x - 192) * 64 + (byte_to_Z c1 - 128)) :: utf8_decode r2
            else replacement :: utf8_decode r1
        | [] => [replacement]
        end
      else if (224 <=? x) && (x <=? 239) then
        match r1 with
        | c1 :: r2 =>
            if in_range (if x =? 224 then 160 else 128)
                        (if x =? 237 then 159 else 191) c1
            then
              match r2 with
              | c2 :: r3 =>
                  if in_range 128 191 c2
                  then ((x - 224) * 4096 + (byte_to_Z c1 - 128) * 64
                        + (byte_to_Z c2 - 128)) :: utf8_decode r3
                  else replacement :: utf8_decode r2
              | [] => [replacement]
              end
            else replacement :: utf8_decode r1
        | [] => [replacement]
        end
      else if (240 <=? x) && (x <=? 244) then
        match r1 with
        | c1 :: r2 =>
            if in_range (if x =? 240 then 144 else 128)
                        (if x =? 244 then 143 else 191) c1
            then
              match r2 with
              | c2 :: r3 =>
                  if in_range 128 191 c2
                  then
                    match r3 with
                    | c3 :: r4 =>
                        if in_range 128 191 c3
                        then ((x - 240) * 262144 + (byte_to_Z c1 - 128) * 4096
                              + (byte_to_Z c2 - 128) * 64
                              + (byte_to_Z c3 - 128)) :: utf8_decode r4
                        else replacement :: utf8_decode r3
                    | [] => [replacement]
                    end
                  else replacement :: utf8_decode r2
              | [] => [replacement]
              end
            else replacement :: utf8_decode r1
        | [] => [replacement]
        end
      else replacement :: utf8_decode r1
  end.

(** UTF-16 code units of a code point. *)
Definition code_units (cp : Z) : jsstring :=
  if cp <? 65536 then [cp]
  else [55296 + (cp - 65536) / 1024; 56320 + (cp - 65536) mod 1024].

(** A leading byte-order mark is dropped ([ignoreBOM] is false). *)
Definition strip_bom (cps : list Z) : list Z :=
  match cps with
  | c :: cps' => if c =? 65279 then cps' else cps
  | [] => []
  end.

(** [new TextDecoder().decode(bytes)] *)
Definition TextDecoder_decode (bs : bytes) : jsstring :=
  flat_map code_units (strip_bom (utf8_decode bs)).

Definition is_high_surrogate (c : Z) : bool := (55296 <=? c) && (c <=? 56319).
Definition is_low_surrogate (c : Z) : bool := (56320 <=? c) && (c <=? 57343).

(** The code points of a string; a lone surrogate reads as itself. *)
Fixpoint code_points (s : jsstring) : list Z :=
  match s with
  | [] => []
  | c :: s' =>
      if is_high_surrogate c then
        match s' with
        | d :: s'' =>
            if is_low_surrogate d
            then (65536 + (c - 55296) * 1024 + (d - 56320)) :: code_points s''
            else c :: code_points s'
        | [] => [c]
        end
      else c :: code_points s'
  end.

Definition utf8_encode_point (cp : Z) : bytes :=
  let cp := if (55296 <=? cp) && (cp <=? 57343) then replacement else cp in
  if cp <? 128 then [byte_of_Z cp]
  else if cp <? 2048 then
    [byte_of_Z (192 + cp / 64); byte_of_Z (128 + cp mod 64)]
  else if cp <? 65536 then
    [byte_of_Z (224 + cp / 4096); byte_of_Z (128 + (cp / 64) mod 64);
     byte_of_Z (128 + cp mod 64)]
  else
    [byte_of_Z (240 + cp / 262144); byte_of_Z (128 + (cp / 4096) mod 64);
     byte_of_Z (128 + (cp / 64) mod 64); byte_of_Z (128 + cp mod 64)].

(** [new TextEncoder().encode(s)] *)
Definition TextEncoder_encode (s : jsstring) : bytes :=
  flat_map utf8_encode_point (code_points s).

(** ** 32-bit integers and [Number.prototype.toString(radix)] *)

(** [ToInt32]: wrap into the signed 32-bit range. *)
Definition ToInt32 (z : Z) : Z := (z + 2 ^ 31) mod 2 ^ 32 - 2 ^ 31.

(** [a << n] *)
Definition shl (a n : Z) : Z := ToInt32 (ToInt32 a * 2 ^ (n mod 32)).

(** [a & b] *)
Definition band (a b : Z) : Z := Z.land (ToInt32 a) (ToInt32 b).

Definition digit_char (d : Z) : Z := if d <? 10 then 48 + d else 87 + d.

Fixpoint to_radix_aux (fuel : nat) (radix n : Z) (acc : jsstring) : jsstring :=
  match fuel with
  | O => acc
  | S fuel' =>
      let acc' := digit_char (n mod radix) :: acc in
      if n / radix =? 0 then acc' else to_radix_aux fuel' radix (n / radix) acc'
  end.

(** [n.toString(radix)] for a non-negative integer [n]. *)
Definition toString_radix (radix n : Z) : jsstring :=
  to_radix_aux (S (Z.to_nat (Z.log2 n))) radix n [].

(** ** String order and [Array.prototype.sort()] *)

(** [a <= b] on strings: lexicographic on code units. *)
Fixpoint str_leb (a b : jsstring) : bool :=
  match a, b with
  | [], _ => true
  | _ :: _, [] => false
  | x :: a', y :: b' =>
      if x <? y then true else if y <? x then false else str_leb a' b'
  end.

Definition str_le (a b : jsstring) : Prop := str_leb a b = true.

#[global] Instance str_le_dec a b : Decision (str_le a b).
Proof. unfold str_le. apply _. Defined.

(** [names.sort()] with the default comparator. *)
Definition sort (l : list jsstring) : list jsstring := merge_sort str_le l.

(** ** [JSON.stringify] on an object of strings, [JSON.parse] *)

Definition hex_digit (d : Z) : Z := if d <? 10 then 48 + d else 87 + d.

(** [\uXXXX] with lower-case digits *)
Definition unicode_escape (c : Z) : jsstring :=
  [92; 117; hex_digit (c / 4096 mod 16); hex_digit (c / 256 mod 16);
   hex_digit (c / 16 mod 16); hex_digit (c mod 16)].

Definition escape_unit (c : Z) : jsstring :=
  if c =? 8 then [92; 98]
  else if c =? 9 then [92; 116]
  else if c =? 10 then [92; 110]
  else if c =? 12 then [92; 102]
  else if c =? 13 then [92; 114]
  else if c =? 34 then [92; 34]
  else if c =? 92 then [92; 92]
  else if c <? 32 then unicode_escape c
  else [c].

Fixpoint quote_body (s : jsstring) : jsstring :=
  match s with
  | [] => []
  | c :: s' =>
      if is_high_surrogate c then
        match s' with
        | d :: s'' =>
            if is_low_surrogate d then c :: d :: quote_body s''
            else unicode_escape c ++ quote_body s'
        | [] => unicode_escape c
        end
      else if is_low_surrogate c then unicode_escape c ++ quote_body s'
      else escape_unit c ++ quote_body s'
  end.

(** [QuoteJSONString] *)
Definition JSON_quote (s : jsstring) : jsstring := 34 :: quote_body s ++ [34].

(** An object whose own enumerable properties hold strings, in the order
    [Object.keys] and [Object.entries] enumerate them. *)
Abbreviation strobj := (list (jsstring * jsstring)).

(** [Object.keys(o)] *)
Definition Object_keys (o : strobj) : list jsstring := o.*1.

(** [o[k]] *)
Fixpoint Object_get (o : strobj) (k : jsstring) : option jsstring :=
  match o with
  | [] => None
  | (k', v) :: o' => if str_eqb k' k then Some v else Object_get o' k
  end.

(** The members [JSON.stringify] emits for the property list [ks]: a key
    without a value is skipped, a repeated key is emitted once. *)
Fixpoint JSON_members (o : strobj) (ks seen : list jsstring) : list jsstring :=
  match ks with
  | [] => []
  | k :: ks' =>
      if bool_decide (k ∈ seen) then JSON_members o ks' seen
      else
        match Object_get o k with
        | Some v =>
            (JSON_quote k ++ 58 :: JSON_quote v) :: JSON_members o ks' (k :: seen)
        | None => JSON_members o ks' (k :: seen)
        end
  end.

(** [a.join(',')] on strings *)
Definition join_comma (parts : list jsstring) : jsstring := join 44 parts.

(** [JSON.stringify(o, ks)] with an array replacer [ks] *)
Definition JSON_stringify (o : strobj) (ks : list jsstring) : jsstring :=
  123 :: join_comma (JSON_members o ks []) ++ [125].

Inductive json : Type :=
| JNull
| JBool (b : bool)
| JNumber (text : jsstring)
| JString (s : jsstring)
| JArray (items : list json)
| JObject (members : list (jsstring * json)).

Fixpoint skip_ws (s : jsstring) : jsstring :=
  match s with
  | c :: s' =>
      if (c =? 32) || (c =? 9) || (c =? 10) || (c =? 13) then skip_ws s' else s
  | [] => []
  end.

Definition is_digit (c : Z) : bool := (48 <=? c) && (c <=? 57).

Definition hex_value (c : Z) : option Z :=
  if is_digit c then Some (c - 48)
  else if (97 <=? c) && (c <=? 102) then Some (c - 87)
  else if (65 <=? c) && (c <=? 70) then Some (c - 55)
  else None.

Definition simple_escape (c : Z) : option Z :=
  if c =? 34 then Some 34 else if c =? 92 then Some 92
  else if c =? 47 then Some 47 else if c =? 98 then Some 8
  else if c =? 102 then Some 12 else if c =? 110 then Some 10
  else if c =? 114 then Some 13 else if c =? 116 then Some 9
  else None.

(** The characters of a JSON string after its opening quote. *)
Fixpoint parse_string_body (s : jsstring) : option (jsstring * jsstring) :=
  match s with
  | [] => None
  | c :: r =>
      if c =? 34 then Some ([], r)
      else if c =? 92 then
        match r with
        | e :: r1 =>
            if e =? 117 then
              match r1 with
              | h1 :: h2 :: h3 :: h4 :: r2 =>
                  match hex_value h1, hex_value h2, hex_value h3, hex_value h4 with
                  | Some a, Some b, Some c', Some d =>
                      match parse_string_body r2 with
                      | Some (t, rest) =>
                          Some ((a * 4096 + b * 256 + c' * 16 + d) :: t, rest)
                      | None => None
                      end
                  | _, _, _, _ => None
                  end
              | _ => None
              end
            else
              match simple_escape e, parse_string_body r1 with
              | Some ch, Some (t, rest) => Some (ch :: t, rest)
              | _, _ => None
              end
        | [] => None
        end
      else if c <? 32 then None
      else
        match parse_string_body r with
        | Some (t, rest) => Some (c :: t, rest)
        | None => None
        end
  end.

Fixpoint span_digits (s : jsstring) : jsstring * jsstring :=
  match s with
  | c :: s' =>
      if is_digit c then let '(ds, r) := span_digits s' in (c :: ds, r)
      else ([], s)
  | [] => ([], [])
  end.

(** A JSON number, kept as its source text. *)
Definition parse_number (s : jsstring) : option (jsstring * jsstring) :=
  let '(sign, s1) :=
    match s with c :: r => if c =? 45 then ([c], r) else ([], s) | [] => ([], s) end in
  let int_part :=
    match s1 with
    | c :: r =>
        if c =? 48 then Some ([c], r)
        else if is_digit c then let '(ds, r') := span_digits r in Some (c :: ds, r')
        else None
    | [] => None
    end in
  match int_part with
  | None => None
  | Some (ip, s2) =>
      let frac :=
        match s2 with
        | c :: r =>
            if c =? 46 then
              let '(ds, r') := span_digits r in
              if truthy ds then Some (c :: ds, r') else None
            else Some ([], s2)
        | [] => Some ([], s2)
        end in
      match frac with
      | None => None
      | Some (fp, s3) =>
          let exponent :=
            match s3 with
            | c :: r =>
                if (c =? 101) || (c =? 69) then
                  let '(sg, r1) :=
                    match r with
                    | d :: r' => if (d =? 43) || (d =? 45) then ([d], r') else ([], r)
                    | [] => ([], r)
                    end in
                  let '(ds, r2) := span_digits r1 in
                  if truthy ds then Some (c :: sg ++ ds, r2) else None
                else Some ([], s3)
            | [] => Some ([], s3)
            end in
          match exponent with
          | None => None
          | Some (ep, s4) => Some (sign ++ ip ++ fp ++ ep, s4)
          end
      end
  end.

(** Elements after [[] up to the closing bracket; [pv] parses one value. *)
Fixpoint parse_elements (pv : jsstring -> option (json * jsstring))
    (n : nat) (s : jsstring) : option (list json * jsstring) :=
  match n with
  | O => None
  | S n' =>
      match pv s with
      | None => None
      | Some (v, r) =>
          match skip_ws r with
          | c :: r' =>
              if c =? 44 then
                match parse_elements pv n' r' with
                | Some (vs, rest) => Some (v :: vs, rest)
                | None => None
                end
              else if c =? 93 then Some ([v], r')
              else None
          | [] => None
          end
      end
  end.

(** Members after [{] up to the closing brace. *)
Fixpoint parse_members (pv : jsstring -> option (json * jsstring))
    (n : nat) (s : jsstring) : option (list (jsstring * json) * jsstring) :=
  match n with
  | O => None
  | S n' =>
      match skip_ws s with
      | q :: r =>
          if q =? 34 then
            match parse_string_body r with
            | None => None
            | Some (k, r1) =>
                match skip_ws r1 with
                | c :: r2 =>
                    if c =? 58 then
                      match pv r2 with
                      | None => None
                      | Some (v, r3) =>
                          match skip_ws r3 with
                          | d :: r4 =>
                              if d =? 44 then
                                match parse_members pv n' r4 with
                                | Some (ms, rest) => Some ((k, v) :: ms, rest)
                                | None => None
                                end
                              else if d =? 125 then Some ([(k, v)], r4)
                              else None
                          | [] => None
                          end
                      end
                    else None
                | [] => None
                end
            end
          else None
      | [] => None
      end
  end.

Fixpoint parse_value (fuel : nat) (s : jsstring) : option (json * jsstring) :=
  match fuel with
  | O => None
  | S fuel' =>
      match skip_ws s with
      | [] => None
      | c :: r =>
          if c =? 91 then
            match skip_ws r with
            | d :: r' =>
                if d =? 93 then Some (JArray [], r')
                else
                  match parse_elements (parse_value fuel') (length s) r with
                  | Some (vs, rest) => Some (JArray vs, rest)
                  | None => None
                  end
            | [] => None
            end
          else if c =? 123 then
            match skip_ws r with
            | d :: r' =>
                if d =? 125 then Some (JObject [], r')
                else
                  match parse_members (parse_value fuel') (length s) r with
                  | Some (ms, rest) => Some (JObject ms, rest)
                  | None => None
                  end
            | [] => None
            end
          else if c =? 34 then
            match parse_string_body r with
            | Some (t, rest) => Some (JString t, rest)
            | None => None
            end
          else if startsWith (c :: r) (lit "true") then Some (JBool true, drop 4 (c :: r))
          else if startsWith (c :: r) (lit "false") then Some (JBool false, drop 5 (c :: r))
          else if startsWith (c :: r) (lit "null") then Some (JNull, drop 4 (c :: r))
          else
            match parse_number (c :: r) with
            | Some (t, rest) => Some (JNumber t, rest)
            | None => None
            end
      end
  end.

(** [JSON.parse(text)] *)
Definition JSON_parse (text : jsstring) : result json :=
  match parse_value (S (length text)) text with
  | Some (v, rest) =>
      match skip_ws rest with
      | [] => Ok v
      | _ :: _ => Throw SyntaxError
      end
  | None => Throw SyntaxError
  end.

End Js.

Import Js.

(** What a file holds: text, a [Uint8Array], or an [ArrayBuffer]. *)
Inductive content : Type :=
| Str (s : jsstring)
| U8 (b : bytes)
| Buf (b : bytes).

(** [c.length]: [undefined] on an [ArrayBuffer]. *)
Definition content_length (c : content) : option Z :=
  match c with
  | Str s => Some (Z.of_nat (length s))
  | U8 b => Some (byteLength b)
  | Buf _ => None
  end.

(** [relative.split('/').filter(p => p)[0]], when there is one: what
    [listDir] adds for a path below the directory. *)
Definition first_part (relative : jsstring) : option jsstring :=
  head (List.filter truthy (split slash relative)).

(** What [fs.stat] and [fs.fstat] call back with, the clock fields left
    out: [size] is [undefined] ([None]) where the shim reads [.length] off
    an [ArrayBuffer]. *)
Record stats : Type := mkStats {
  isDirectory : bool;
  isFile : bool;
  st_size : option Z;
  st_mode : Z
}.

Definition file_stats (size : option Z) : stats := mkStats false true size 438.
Definition directory_stats : stats := mkStats true false (Some 0) 16895.

(* ===================================================================== *)
(** * VirtualFileSystem (the demo site's in-memory filesystem) *)
(* ===================================================================== *)

Module VirtualFileSystem.

Record t : Type := mk {
  files : gmap jsstring content;
  directories : gset jsstring;
  workingDirectory : jsstring
}.

(** [new VirtualFileSystem()] *)
Definition new : t := mk ∅ ∅ (lit "/").

Definition normalizePath (path : jsstring) : jsstring :=
  let path := if negb (startsWith path (lit "/")) then lit "/" ++ path else path in
  collapse_slashes path.

Definition getDirectory (filePath : jsstring) : jsstring :=
  let parts := split slash filePath in
  let parts := removelast parts in
  let joined := join slash parts in
  if truthy joined then joined else lit "/".

Definition ensureDirectoryExists (dirPath : jsstring) (fs : t) : t :=
  if negb (str_eqb dirPath (lit "/"))
  then mk (files fs) ({[dirPath]} ∪ directories fs) (workingDirectory fs)
  else fs.

Definition writeFile (path : jsstring) (c : content) (fs : t) : t :=
  let normalizedPath := normalizePath path in
  let fs := mk (<[normalizedPath := c]> (files fs)) (directories fs)
               (workingDirectory fs) in
  ensureDirectoryExists (getDirectory normalizedPath) fs.

Definition readFile (path : jsstring) (fs : t) : result content :=
  let normalizedPath := normalizePath path in
  match files fs !! normalizedPath with
  | Some c => Ok c
  | None => Throw (FileNotFound normalizedPath)
  end.

Definition exists_ (path : jsstring) (fs : t) : bool :=
  bool_decide (is_Some (files fs !! normalizePath path)).

Definition mkdir (path : jsstring) (fs : t) : t :=
  mk (files fs) ({[normalizePath path]} ∪ directories fs) (workingDirectory fs).

(** [loadGoSources(sourceFiles)]: the entries are written in enumeration
    order, then the standard directories are added. *)
Definition loadGoSources (sourceFiles : strobj) (fs : t) : t :=
  let fs := fold_left (fun fs kv => writeFile kv.1 (Str kv.2) fs) sourceFiles fs in
  mkdir (lit "/bin") (mkdir (lit "/pkg") (mkdir (lit "/src") fs)).

(** [getGoFiles().length] *)
Definition goFileCount (fs : t) : Z :=
  Z.of_nat (size (filter (fun kv => endsWith kv.1 (lit ".go") = true) (files fs))).

(** The sum [getStats] forms over [content.length]: [NaN] ([None]) as soon
    as one file holds an [ArrayBuffer]. *)
Definition totalSize (fs : t) : option Z :=
  map_fold (fun _ c acc =>
              match acc, content_length c with
              | Some n, Some k => Some (n + k)
              | _, _ => None
              end) (Some 0) (files fs).

Definition clear (fs : t) : t := mk ∅ ∅ (workingDirectory fs).

(** [listDir(path)]: the first path segment below the directory of every
    file and directory stored under it, without repetition, sorted.  The
    enumeration order of the two collections does not matter to the sorted
    result. *)
Definition listDir (path : jsstring) (fs : t) : list jsstring :=
  let normalizedPath := normalizePath path in
  let normalizedPath :=
    if negb (endsWith normalizedPath (lit "/")) then normalizedPath ++ lit "/"
    else normalizedPath in
  let from_files :=
    omap (fun filePath : jsstring =>
            if startsWith filePath normalizedPath
            then first_part (drop (length normalizedPath) filePath)
            else None)
         (map_to_list (files fs)).*1 in
  let from_directories :=
    omap (fun dirPath : jsstring =>
            let dirPathStr :=
              if negb (startsWith dirPath (lit "/")) then lit "/" ++ dirPath
              else dirPath in
            if startsWith dirPathStr normalizedPath
            then first_part (drop (length normalizedPath) dirPathStr)
            else None)
         (elements (directories fs)) in
  sort (remove_dups (from_files ++ from_directories)).

End VirtualFileSystem.

(* ===================================================================== *)
(** * VirtualFS (the SDK's in-memory filesystem, sdk/goscript.js) *)
(* ===================================================================== *)

Module VirtualFS.

Record t : Type := mk {
  files : gmap jsstring content;
  directories : gset jsstring;
  workingDirectory : jsstring
}.

(** [new VirtualFS()] *)
Definition new : t := mk ∅ {[lit "/"]} (lit "/").

(** The loop of [_normalize]: [..] pops, anything else is pushed. *)
Fixpoint resolve (parts resolved : list jsstring) : list jsstring :=
  match parts with
  | [] => resolved
  | part :: parts' =>
      if str_eqb part (lit "..") then resolve parts' (removelast resolved)
      else resolve parts' (resolved ++ [part])
  end.

Definition _normalize (path : jsstring) : jsstring :=
  let path := if negb (startsWith path (lit "/")) then lit "/" ++ path else path in
  let parts :=
    List.filter (fun p => truthy p && negb (str_eqb p (lit "."))) (split slash path) in
  lit "/" ++ join slash (resolve parts []).

Definition _dirname (path : jsstring) : jsstring :=
  let parts := removelast (split slash path) in
  let joined := join slash parts in
  if truthy joined then joined else lit "/".

(** [_ensureDir]: every ancestor is added; [fuel] bounds the recursion,
    one step per path segment. *)
Fixpoint _ensureDir (fuel : nat) (path : jsstring) (dirs : gset jsstring)
  : gset jsstring :=
  match fuel with
  | O => dirs
  | S fuel' =>
      if truthy path && negb (str_eqb path (lit "/"))
      then _ensureDir fuel' (_dirname path) ({[path]} ∪ dirs)
      else dirs
  end.

Definition writeFile (path : jsstring) (c : content) (fs : t) : t :=
  let normalized := _normalize path in
  mk (<[normalized := c]> (files fs))
     (_ensureDir (S (length normalized)) (_dirname normalized) (directories fs))
     (workingDirectory fs).

Definition readFile (path : jsstring) (fs : t) : result content :=
  let normalized := _normalize path in
  match files fs !! normalized with
  | Some c => Ok c
  | None => Throw (FileNotFound normalized)
  end.

Definition exists_ (path : jsstring) (fs : t) : bool :=
  bool_decide (is_Some (files fs !! _normalize path)).

Definition mkdir (path : jsstring) (fs : t) : t :=
  mk (files fs) ({[_normalize path]} ∪ directories fs) (workingDirectory fs).

Definition clear (fs : t) : t := mk ∅ {[lit "/"]} (workingDirectory fs).

(** [listDir(path)]: the first path segment below the directory of every
    file and directory stored under it, without repetition, sorted.  The
    enumeration order of the two collections does not matter to the sorted
    result. *)
Definition listDir (path : jsstring) (fs : t) : list jsstring :=
  let normalized := _normalize path in
  let normalized :=
    if negb (endsWith normalized (lit "/")) then normalized ++ lit "/"
    else normalized in
  let from_files :=
    omap (fun filePath : jsstring =>
            if startsWith filePath normalized
            then first_part (drop (length normalized) filePath)
            else None)
         (map_to_list (files fs)).*1 in
  let from_directories :=
    omap (fun dirPath : jsstring =>
            if startsWith dirPath normalized && negb (str_eqb dirPath normalized)
            then first_part (drop (length normalized) dirPath)
            else None)
         (elements (directories fs)) in
  sort (remove_dups (from_files ++ from_directories)).

(** [f.length || f.byteLength || 0] *)
Definition size_of (c : content) : Z :=
  match c with
  | Str s => Z.of_nat (length s)
  | U8 b => byteLength b
  | Buf b => byteLength b
  end.

End VirtualFS.

(* ===================================================================== *)
(** * FSPolyfill (script/fs-polyfill.js) *)
(* ===================================================================== *)

(** [arr.set(data, pos)] on a [Uint8Array]: in range or [RangeError]. *)
Definition Uint8Array_set (arr data : bytes) (pos : Z) : result bytes :=
  if (0 <=? pos) && (pos + byteLength data <=? byteLength arr)
  then Ok (take (Z.to_nat pos) arr ++ data
           ++ drop (Z.to_nat pos + length data) arr)
  else Throw RangeError.

(** The longest typed array the language allows: [2^53 - 1] elements. *)
Definition max_array_length : Z := 2 ^ 53 - 1.

(** [new Uint8Array(n)]: [n] zero bytes.  The call throws a RangeError for
    a negative [n], for an [n] above [2^53 - 1], and when the engine cannot
    allocate the array; [limit] is the longest array the engine can
    allocate at the time of the call.  The shims call it in [write], where
    the length comes from the position the caller asks for; in [writeSync]
    the new array is as long as two arrays that exist together, and its
    allocation is taken to succeed. *)
Definition Uint8Array_new (limit n : Z) : result bytes :=
  if (0 <=? n) && (n <=? max_array_length) && (n <=? limit)
  then Ok (replicate (Z.to_nat n) x00)
  else Throw RangeError.

(** [buf.subarray(begin, end)]: relative indices, clamped. *)
Definition subarray (buf : bytes) (begin end_ : Z) : bytes :=
  let len := byteLength buf in
  let clamp i := if i <? 0 then Z.max (len + i) 0 else Z.min i len in
  sub_bytes buf (clamp begin) (Z.max (clamp end_ - clamp begin) 0).

(** [O_CREAT] and [O_TRUNC], as the shim tests them. *)
Definition O_CREAT : Z := 64.
Definition O_TRUNC : Z := 512.

(** [flags & bit] is truthy *)
Definition has_flag (flags bit : Z) : bool := negb (Z.land flags bit =? 0).

(** [workingDirectory + (workingDirectory.endsWith('/') ? '' : '/') + path]
    for a relative [path]. *)
Definition resolve_cwd (cwd path : jsstring) : jsstring :=
  if negb (startsWith path (lit "/"))
  then cwd ++ (if endsWith cwd (lit "/") then [] else lit "/") ++ path
  else path.

Module FSPolyfill.

(** The content snapshot of a descriptor: [open] stores what the VFS holds
    unless that is text, so a snapshot is a [Uint8Array] or, for a file
    written as an [ArrayBuffer], that buffer.

    A snapshot is modelled by its bytes.  In the program the snapshot of a
    file stored as a [Uint8Array] is that very array: the filesystem entry
    and the descriptors opened on it share it until a [writeSync] or a
    growing [write] replaces it, and a [write] in place through one of them
    shows in the others.  The model follows the program in what a call does
    to the descriptor it goes through and to the file at that descriptor's
    path; it does not carry an in-place [write] over to the other holders
    of the array. *)
Inductive snapshot : Type :=
| SnapU8 (b : bytes)
| SnapBuf (b : bytes).

Definition snapshot_content (c : snapshot) : content :=
  match c with SnapU8 b => U8 b | SnapBuf b => Buf b end.

Record file : Type := mkFile {
  path : jsstring;
  flags : Z;
  fcontent : snapshot;
  position : Z
}.

Record t : Type := mk {
  vfs : VirtualFileSystem.t;
  fds : gmap Z file;
  nextFd : Z;
  (** whether [window.addConsoleOutput] is installed *)
  addConsoleOutput : bool;
  (** the texts handed to [window.addConsoleOutput], oldest first *)
  console_output : list jsstring;
  (** the texts handed to [console.log], oldest first *)
  console_log : list jsstring
}.

(** [new FSPolyfill(vfs)] *)
Definition new (fs : VirtualFileSystem.t) (capture : bool) : t :=
  mk fs ∅ 100 capture [] [].

Definition set_vfs (f : VirtualFileSystem.t -> VirtualFileSystem.t) (s : t) : t :=
  mk (f (vfs s)) (fds s) (nextFd s) (addConsoleOutput s) (console_output s)
     (console_log s).

Definition set_fd (fd : Z) (f : file) (s : t) : t :=
  mk (vfs s) (<[fd := f]> (fds s)) (nextFd s) (addConsoleOutput s)
     (console_output s) (console_log s).

(** The stdout/stderr branch shared by [writeSync] and [write]. *)
Definition emit (text : jsstring) (s : t) : t :=
  if addConsoleOutput s
  then mk (vfs s) (fds s) (nextFd s) (addConsoleOutput s)
          (console_output s ++ [trimEnd text]) (console_log s)
  else mk (vfs s) (fds s) (nextFd s) (addConsoleOutput s)
          (console_output s) (console_log s ++ [text]).

(** [fs.writeSync(fd, buf)]; [Throw] is a thrown exception. *)
Definition writeSync (fd : Z) (buf : bytes) : M t Z := fun s =>
  if (fd =? 1) || (fd =? 2) then
    (Ok (byteLength buf), emit (TextDecoder_decode buf) s)
  else
    match fds s !! fd with
    | None => (Throw EBADF, s)
    | Some f =>
        match fcontent f with
        | SnapU8 old =>
            let newContent := old ++ buf in
            let f' := mkFile (path f) (flags f) (SnapU8 newContent) (position f) in
            (Ok (byteLength buf),
             set_vfs (VirtualFileSystem.writeFile (path f) (U8 newContent))
                     (set_fd fd f' s))
        | SnapBuf _ =>
            (* [content.length] is undefined: the new array has length 0
               and [set(buf, undefined)] fits only an empty [buf] *)
            match buf with
            | [] =>
                let f' := mkFile (path f) (flags f) (SnapU8 []) (position f) in
                (Ok 0,
                 set_vfs (VirtualFileSystem.writeFile (path f) (U8 []))
                         (set_fd fd f' s))
            | _ :: _ => (Throw RangeError, s)
            end
        end
    end.

(** [fs.write(fd, buf, offset, length, position, callback)]; the result is
    what the callback receives.  [limit] is the longest array the engine can
    allocate when the call grows the snapshot. *)
Definition write (limit : Z) (fd : Z) (buf : bytes) (offset len : Z)
    (pos_arg : option Z) : M t Z := fun s =>
  if (fd =? 1) || (fd =? 2) then
    (Ok len, emit (TextDecoder_decode (subarray buf offset (offset + len))) s)
  else
    match fds s !! fd with
    | None => (Throw EBADF, s)
    | Some f =>
        let data := subarray buf offset (offset + len) in
        let pos := match pos_arg with Some p => p | None => position f end in
        match fcontent f with
        | SnapBuf _ => (Throw TypeError, s)
        | SnapU8 old =>
            let grown :=
              if byteLength old <? pos + len
              then (z ← Uint8Array_new limit (pos + len); Uint8Array_set z old 0)
              else Ok old in
            match grown with
            | Throw e => (Throw e, s)
            | Ok arr =>
                match Uint8Array_set arr data pos with
                | Throw e =>
                    (Throw e,
                     set_fd fd (mkFile (path f) (flags f) (SnapU8 arr) (position f)) s)
                | Ok arr' =>
                    let position' :=
                      match pos_arg with Some _ => position f | None => pos + len end in
                    let f' := mkFile (path f) (flags f) (SnapU8 arr') position' in
                    (Ok len,
                     set_vfs (VirtualFileSystem.writeFile (path f) (U8 arr'))
                             (set_fd fd f' s))
                end
            end
        end
    end.

(** [fs.open(path, flags, mode, callback)]; the result is what the callback
    receives. *)
Definition open (path : jsstring) (flags mode : Z) : M t Z := fun s =>
  let path := resolve_cwd (VirtualFileSystem.workingDirectory (vfs s)) path in
  let path := VirtualFileSystem.normalizePath path in
  let found :=
    if VirtualFileSystem.exists_ path (vfs s) then
      match VirtualFileSystem.readFile path (vfs s) with
      | Ok (Str text) => Ok (SnapU8 (TextEncoder_encode text))
      | Ok (U8 b) => Ok (SnapU8 b)
      | Ok (Buf b) => Ok (SnapBuf b)
      | Throw e => Throw e
      end
    else if negb (has_flag flags O_CREAT) then Throw ENOENT
    else Ok (SnapU8 []) in
  match found with
  | Throw e => (Throw e, s)
  | Ok c =>
      let c := if has_flag flags O_TRUNC then SnapU8 [] else c in
      let fd := nextFd s in
      (Ok fd,
       mk (vfs s) (<[fd := mkFile path flags c 0]> (fds s)) (nextFd s + 1)
          (addConsoleOutput s) (console_output s) (console_log s))
  end.

(** [fs.close(fd, callback)] *)
Definition close (fd : Z) : M t unit := fun s =>
  (Ok tt,
   mk (vfs s) (delete fd (fds s)) (nextFd s) (addConsoleOutput s)
      (console_output s) (console_log s)).

(** [fs.read(fd, buffer, offset, length, position, callback)]: the result
    is the count the callback receives, with [buffer] as the call leaves
    it. *)
Definition read (fd : Z) (buffer : bytes) (offset len : Z) (pos_arg : option Z)
  : M t (Z * bytes) := fun s =>
  match fds s !! fd with
  | None => (Throw EBADF, s)
  | Some f =>
      let pos := match pos_arg with Some p => p | None => position f end in
      match fcontent f with
      | SnapBuf _ =>
          (* [content.length] is undefined and an [ArrayBuffer] has no
             [subarray] *)
          (Throw TypeError, s)
      | SnapU8 content =>
          if byteLength content <=? pos then (Ok (0, buffer), s)
          else
            let end_ := Z.min (pos + len) (byteLength content) in
            let bytesRead := end_ - pos in
            match Uint8Array_set buffer (subarray content pos end_) offset with
            | Throw e => (Throw e, s)
            | Ok buffer' =>
                let s' :=
                  match pos_arg with
                  | Some _ => s
                  | None =>
                      set_fd fd (mkFile (path f) (flags f) (fcontent f)
                                        (position f + bytesRead)) s
                  end in
                (Ok (bytesRead, buffer'), s')
            end
      end
  end.

(** [fs.fstat(fd, callback)] *)
Definition fstat (fd : Z) : M t stats := fun s =>
  match fds s !! fd with
  | None => (Throw EBADF, s)
  | Some f =>
      (Ok (file_stats (match fcontent f with
                       | SnapU8 b => Some (byteLength b)
                       | SnapBuf _ => None
                       end)), s)
  end.

(** [fs.stat(path, callback)]; [fs.lstat] forwards to it. *)
Definition stat (path : jsstring) : M t stats := fun s =>
  let path := resolve_cwd (VirtualFileSystem.workingDirectory (vfs s)) path in
  let path := VirtualFileSystem.normalizePath path in
  if VirtualFileSystem.exists_ path (vfs s) then
    match VirtualFileSystem.readFile path (vfs s) with
    | Ok content => (Ok (file_stats (content_length content)), s)
    | Throw e => (Throw e, s)
    end
  else if bool_decide (path ∈ VirtualFileSystem.directories (vfs s))
          || str_eqb path (lit "/")
  then (Ok directory_stats, s)
  else (Throw ENOENT, s).

Definition lstat (path : jsstring) : M t stats := stat path.

(** [fs.mkdir(path, perm, callback)]: the path goes to [vfs.mkdir] as it
    is, the working directory not consulted. *)
Definition mkdir (path : jsstring) (perm : Z) : M t unit :=
  modify (set_vfs (VirtualFileSystem.mkdir path)).

(** [fs.readdir(path, callback)] *)
Definition readdir (path : jsstring) : M t (list jsstring) := fun s =>
  (Ok (VirtualFileSystem.listDir path (vfs s)), s).

(** [fs.unlink], [fs.rename] and [fs.rmdir] call back with success and do
    nothing. *)
Definition unlink (path : jsstring) : M t unit := mret tt.
Definition rename (from to : jsstring) : M t unit := mret tt.
Definition rmdir (path : jsstring) : M t unit := mret tt.

(** [process.cwd()] and [process.chdir(path)] *)
Definition cwd (s : t) : jsstring := VirtualFileSystem.workingDirectory (vfs s).

Definition chdir (path : jsstring) : M t unit :=
  modify (set_vfs (fun fs =>
    VirtualFileSystem.mk (VirtualFileSystem.files fs)
      (VirtualFileSystem.directories fs) path)).

End FSPolyfill.

(* ===================================================================== *)
(** * The SDK's FSPolyfill (sdk/goscript.js) *)
(* ===================================================================== *)

Module SdkFSPolyfill.

Record file : Type := mkFile {
  path : jsstring;
  flags : Z;
  fcontent : bytes;
  position : Z
}.

Record t : Type := mk {
  vfs : VirtualFS.t;
  fds : gmap Z file;
  nextFd : Z;
  (** whether [outputCallback] is non-null *)
  outputCallback : bool;
  (** the texts handed to [outputCallback], oldest first *)
  output : list jsstring
}.

(** [new FSPolyfill(vfs, outputCallback)] *)
Definition new (fs : VirtualFS.t) (callback : bool) : t := mk fs ∅ 100 callback [].

Definition set_vfs (f : VirtualFS.t -> VirtualFS.t) (s : t) : t :=
  mk (f (vfs s)) (fds s) (nextFd s) (outputCallback s) (output s).

Definition set_fd (fd : Z) (f : file) (s : t) : t :=
  mk (vfs s) (<[fd := f]> (fds s)) (nextFd s) (outputCallback s) (output s).

Definition emit (text : jsstring) (s : t) : t :=
  if outputCallback s
  then mk (vfs s) (fds s) (nextFd s) (outputCallback s) (output s ++ [text])
  else s.

(** [fs.writeSync(fd, buf)]; [Throw] is a thrown exception. *)
Definition writeSync (fd : Z) (buf : bytes) : M t Z := fun s =>
  if (fd =? 1) || (fd =? 2) then
    (Ok (byteLength buf), emit (TextDecoder_decode buf) s)
  else
    match fds s !! fd with
    | None => (Throw EBADF, s)
    | Some f =>
        let newContent := fcontent f ++ buf in
        let f' := mkFile (path f) (flags f) newContent (position f) in
        (Ok (byteLength buf),
         set_vfs (VirtualFS.writeFile (path f) (U8 newContent)) (set_fd fd f' s))
    end.

(** [fs.write(fd, buf, offset, length, position, callback)]; [limit] is
    the longest array the engine can allocate when the call grows the
    snapshot. *)
Definition write (limit : Z) (fd : Z) (buf : bytes) (offset len : Z)
    (pos_arg : option Z) : M t Z := fun s =>
  if (fd =? 1) || (fd =? 2) then
    (Ok len, emit (TextDecoder_decode (subarray buf offset (offset + len))) s)
  else
    match fds s !! fd with
    | None => (Throw EBADF, s)
    | Some f =>
        let data := subarray buf offset (offset + len) in
        let pos := match pos_arg with Some p => p | None => position f end in
        let old := fcontent f in
        let grown :=
          if byteLength old <? pos + len
          then (z ← Uint8Array_new limit (pos + len); Uint8Array_set z old 0)
          else Ok old in
        match grown with
        | Throw e => (Throw e, s)
        | Ok arr =>
            match Uint8Array_set arr data pos with
            | Throw e =>
                (Throw e, set_fd fd (mkFile (path f) (flags f) arr (position f)) s)
            | Ok arr' =>
                let position' :=
                  match pos_arg with Some _ => position f | None => pos + len end in
                let f' := mkFile (path f) (flags f) arr' position' in
                (Ok len,
                 set_vfs (VirtualFS.writeFile (path f) (U8 arr')) (set_fd fd f' s))
            end
        end
    end.

(** [fs.open(path, flags, mode, callback)].  The snapshot is
    [new Uint8Array(vfsContent)]: a copy of a stored [Uint8Array], and a
    view of a stored [ArrayBuffer].  It is modelled by its bytes in both
    cases, so an in-place [write] through a descriptor on an [ArrayBuffer]
    file is followed for that descriptor and for the file at its path, not
    for other views of the same buffer. *)
Definition open (path : jsstring) (flags mode : Z) : M t Z := fun s =>
  let path := resolve_cwd (VirtualFS.workingDirectory (vfs s)) path in
  let path := VirtualFS._normalize path in
  let found :=
    if VirtualFS.exists_ path (vfs s) then
      match VirtualFS.readFile path (vfs s) with
      | Ok (Str text) => Ok (TextEncoder_encode text)
      | Ok (U8 b) => Ok b
      | Ok (Buf b) => Ok b
      | Throw e => Throw e
      end
    else if negb (has_flag flags O_CREAT) then Throw ENOENT
    else Ok [] in
  match found with
  | Throw e => (Throw e, s)
  | Ok c =>
      let c := if has_flag flags O_TRUNC then [] else c in
      let fd := nextFd s in
      (Ok fd,
       mk (vfs s) (<[fd := mkFile path flags c 0]> (fds s)) (nextFd s + 1)
          (outputCallback s) (output s))
  end.

(** [fs.close(fd, callback)] *)
Definition close (fd : Z) : M t unit := fun s =>
  (Ok tt, mk (vfs s) (delete fd (fds s)) (nextFd s) (outputCallback s) (output s)).

(** [fs.read(fd, buffer, offset, length, position, callback)]: the result
    is the count the callback receives, with [buffer] as the call leaves
    it. *)
Definition read (fd : Z) (buffer : bytes) (offset len : Z) (pos_arg : option Z)
  : M t (Z * bytes) := fun s =>
  match fds s !! fd with
  | None => (Throw EBADF, s)
  | Some f =>
      let pos := match pos_arg with Some p => p | None => position f end in
      if byteLength (fcontent f) <=? pos then (Ok (0, buffer), s)
      else
        let end_ := Z.min (pos + len) (byteLength (fcontent f)) in
        let bytesRead := end_ - pos in
        match Uint8Array_set buffer (subarray (fcontent f) pos end_) offset with
        | Throw e => (Throw e, s)
        | Ok buffer' =>
            let s' :=
              match pos_arg with
              | Some _ => s
              | None =>
                  set_fd fd (mkFile (path f) (flags f) (fcontent f)
                                    (position f + bytesRead)) s
              end in
            (Ok (bytesRead, buffer'), s')
        end
  end.

(** [fs.fstat(fd, callback)] *)
Definition fstat (fd : Z) : M t stats := fun s =>
  match fds s !! fd with
  | None => (Throw EBADF, s)
  | Some f => (Ok (file_stats (Some (byteLength (fcontent f)))), s)
  end.

(** [fs.stat(path, callback)]; [fs.lstat] forwards to it. *)
Definition stat (path : jsstring) : M t stats := fun s =>
  let path := resolve_cwd (VirtualFS.workingDirectory (vfs s)) path in
  let path := VirtualFS._normalize path in
  if VirtualFS.exists_ path (vfs s) then
    match VirtualFS.readFile path (vfs s) with
    | Ok content => (Ok (file_stats (Some (VirtualFS.size_of content))), s)
    | Throw e => (Throw e, s)
    end
  else if bool_decide (path ∈ VirtualFS.directories (vfs s)) || str_eqb path (lit "/")
  then (Ok directory_stats, s)
  else (Throw ENOENT, s).

Definition lstat (path : jsstring) : M t stats := stat path.

(** [fs.mkdir(path, perm, callback)]: the path goes to [vfs.mkdir] as it
    is, the working directory not consulted. *)
Definition mkdir (path : jsstring) (perm : Z) : M t unit :=
  modify (set_vfs (VirtualFS.mkdir path)).

(** [fs.readdir(path, callback)] *)
Definition readdir (path : jsstring) : M t (list jsstring) := fun s =>
  (Ok (VirtualFS.listDir path (vfs s)), s).

(** [fs.unlink], [fs.rename], [fs.rmdir] and [fs.ftruncate] call back with
    success and do nothing. *)
Definition unlink (path : jsstring) : M t unit := mret tt.
Definition rename (from to : jsstring) : M t unit := mret tt.
Definition rmdir (path : jsstring) : M t unit := mret tt.
Definition ftruncate (fd len : Z) : M t unit := mret tt.

(** [process.cwd()] and [process.chdir(path)] *)
Definition cwd (s : t) : jsstring := VirtualFS.workingDirectory (vfs s).

Definition chdir (path : jsstring) : M t unit :=
  modify (set_vfs (fun fs =>
    VirtualFS.mk (VirtualFS.files fs) (VirtualFS.directories fs) path)).

End SdkFSPolyfill.

(* ===================================================================== *)
(** * ToolchainLoader (the pack parser) *)
(* ===================================================================== *)

(** A JavaScript [Map] keeps its keys in insertion order; [set] on a key
    that is present replaces the value in place. *)
Fixpoint Map_set {V} (k : jsstring) (v : V) (m : list (jsstring * V))
  : list (jsstring * V) :=
  match m with
  | [] => [(k, v)]
  | (k', v') :: m' =>
      if str_eqb k' k then (k, v) :: m' else (k', v') :: Map_set k v m'
  end.

Fixpoint Map_get {V} (k : jsstring) (m : list (jsstring * V)) : option V :=
  match m with
  | [] => None
  | (k', v) :: m' => if str_eqb k' k then Some v else Map_get k m'
  end.

(** An index entry [{ offset, size }]. *)
Record entry : Type := mkEntry { offset : Z; size : Z }.

(** The magic header. *)
Definition GOSCRIPT : jsstring := lit "GOSCRIPT".

(** The archive path [`/pkg/js_wasm/${name}.a`]. *)
Definition archive_path (name : jsstring) : jsstring :=
  lit "/pkg/js_wasm/" ++ name ++ lit ".a".

Module ToolchainLoader.

Record t : Type := mk {
  packData : option bytes;
  compilerWasm : option bytes;
  linkerWasm : option bytes;
  packageIndex : list (jsstring * entry);
  packageNames : json;
  loaded : bool;
  packageDataStart : Z
}.

(** [new ToolchainLoader()] *)
Definition new : t := mk None None None [] (JArray []) false 0.

Definition set_compilerWasm (b : bytes) (l : t) : t :=
  mk (packData l) (Some b) (linkerWasm l) (packageIndex l) (packageNames l)
     (loaded l) (packageDataStart l).

Definition set_linkerWasm (b : bytes) (l : t) : t :=
  mk (packData l) (compilerWasm l) (Some b) (packageIndex l) (packageNames l)
     (loaded l) (packageDataStart l).

Definition set_packageNames (v : json) (l : t) : t :=
  mk (packData l) (compilerWasm l) (linkerWasm l) (packageIndex l) v
     (loaded l) (packageDataStart l).

Definition set_packageDataStart (z : Z) (l : t) : t :=
  mk (packData l) (compilerWasm l) (linkerWasm l) (packageIndex l)
     (packageNames l) (loaded l) z.

Definition set_package (name : jsstring) (e : entry) (l : t) : t :=
  mk (packData l) (compilerWasm l) (linkerWasm l)
     (Map_set name e (packageIndex l)) (packageNames l) (loaded l)
     (packageDataStart l).

Definition set_loaded (l : t) : t :=
  mk (packData l) (compilerWasm l) (linkerWasm l) (packageIndex l)
     (packageNames l) true (packageDataStart l).

Definition set_packData (b : bytes) (l : t) : t :=
  mk (Some b) (compilerWasm l) (linkerWasm l) (packageIndex l)
     (packageNames l) (loaded l) (packageDataStart l).

(** The index loop of [parseToolchain]: [n] iterations from [indexPos]. *)
Fixpoint parse_index (buf : bytes) (dataStart : Z) (n : nat) (indexPos : Z)
  : M t unit :=
  match n with
  | O => mret tt
  | S n' =>
      nameLen ← lift (getUint16 buf indexPos);
      let indexPos := indexPos + 2 in
      nameBytes ← lift (Uint8Array_view buf indexPos nameLen);
      let name := TextDecoder_decode nameBytes in
      let indexPos := indexPos + nameLen in
      pkgOffset ← lift (Number_of_BigInt <$> getBigUint64 buf indexPos);
      let indexPos := indexPos + 8 in
      pkgSize ← lift (getUint32 buf indexPos);
      let indexPos := indexPos + 4 in
      modify (set_package name (mkEntry (Number_add dataStart pkgOffset) pkgSize));;
      parse_index buf dataStart n' indexPos
  end.

(** [parseToolchain()]; the fields assigned before an exception stay
    assigned. *)
Definition parseToolchain : M t unit :=
  l ← get;
  match packData l with
  | None => throw TypeError
  | Some buf =>
      let offset := 0 in
      magic ← lift (TextDecoder_decode <$> Uint8Array_view buf 0 8);
      if negb (str_eqb magic GOSCRIPT) then throw BadMagic else
      let offset := offset + 8 in
      version ← lift (getUint32 buf offset);
      if negb (version =? 2) then throw (UnsupportedVersion version) else
      let offset := offset + 4 in
      (* Section 1: compiler *)
      compilerSize ← lift (getUint32 buf offset);
      let offset := offset + 4 in
      modify (set_compilerWasm (ArrayBuffer_slice buf offset (offset + compilerSize)));;
      let offset := offset + compilerSize in
      (* Section 2: linker *)
      linkerSize ← lift (getUint32 buf offset);
      let offset := offset + 4 in
      modify (set_linkerWasm (ArrayBuffer_slice buf offset (offset + linkerSize)));;
      let offset := offset + linkerSize in
      (* Section 3: package names (JSON) *)
      indexSize ← lift (getUint32 buf offset);
      let offset := offset + 4 in
      indexBytes ← lift (Uint8Array_view buf offset indexSize);
      names ← lift (JSON_parse (TextDecoder_decode indexBytes));
      modify (set_packageNames names);;
      let offset := offset + indexSize in
      (* the log line reads [this.packageNames.length] *)
      match names with
      | JNull => throw TypeError
      | _ =>
          (* Section 4: packages *)
          packageCount ← lift (getUint32 buf offset);
          let offset := offset + 4 in
          indexOffset ← lift (Number_of_BigInt <$> getBigUint64 buf offset);
          let offset := offset + 8 in
          modify (set_packageDataStart offset);;
          parse_index buf offset (Z.to_nat packageCount) indexOffset
      end
  end.

Definition getCompilerWasm (l : t) : option bytes := compilerWasm l.
Definition getLinkerWasm (l : t) : option bytes := linkerWasm l.

(** [getPackage(name)]: [null], a view into the pack, or a [RangeError]. *)
Definition getPackage (packageName : jsstring) (l : t) : result (option bytes) :=
  match Map_get packageName (packageIndex l) with
  | None => Ok None
  | Some e =>
      match packData l with
      | Some buf => Some <$> Uint8Array_view buf (offset e) (size e)
      | None => Throw TypeError
      end
  end.

Definition hasPackage (packageName : jsstring) (l : t) : bool :=
  bool_decide (is_Some (Map_get packageName (packageIndex l))).

(** [loadAllPackagesIntoVFS(vfs)]: the archives written before a failing
    view stay written. *)
Fixpoint write_packages (buf : bytes) (index : list (jsstring * entry))
  : M VirtualFileSystem.t unit :=
  match index with
  | [] => mret tt
  | (name, e) :: index' =>
      data ← lift (Uint8Array_view buf (offset e) (size e));
      modify (VirtualFileSystem.writeFile (archive_path name) (U8 data));;
      write_packages buf index'
  end.

Definition loadAllPackagesIntoVFS (l : t) : M VirtualFileSystem.t unit :=
  match packData l with
  | Some buf => write_packages buf (packageIndex l)
  | None => match packageIndex l with [] => mret tt | _ :: _ => throw TypeError end
  end.

End ToolchainLoader.

(** The SDK's [_parseToolchainPack]: the same reads, returning a fresh
    object and logging nothing. *)
Module SdkPack.

Record t : Type := mk {
  packData : bytes;
  compilerWasm : bytes;
  linkerWasm : bytes;
  packageNames : json;
  packageIndex : list (jsstring * entry);
  packageDataStart : Z
}.

Fixpoint parse_index (buf : bytes) (dataStart : Z) (n : nat) (indexPos : Z)
    (index : list (jsstring * entry)) : result (list (jsstring * entry)) :=
  match n with
  | O => Ok index
  | S n' =>
      nameLen ← getUint16 buf indexPos;
      let indexPos := indexPos + 2 in
      nameBytes ← Uint8Array_view buf indexPos nameLen;
      let name := TextDecoder_decode nameBytes in
      let indexPos := indexPos + nameLen in
      pkgOffset ← Number_of_BigInt <$> getBigUint64 buf indexPos;
      let indexPos := indexPos + 8 in
      pkgSize ← getUint32 buf indexPos;
      let indexPos := indexPos + 4 in
      parse_index buf dataStart n' indexPos
        (Map_set name (mkEntry (Number_add dataStart pkgOffset) pkgSize) index)
  end.

Definition _parseToolchainPack (buf : bytes) : result t :=
  let offset := 0 in
  magic ← TextDecoder_decode <$> Uint8Array_view buf 0 8;
  if negb (str_eqb magic GOSCRIPT) then Throw BadMagic else
  let offset := offset + 8 in
  version ← getUint32 buf offset;
  if negb (version =? 2) then Throw (UnsupportedVersion version) else
  let offset := offset + 4 in
  compilerSize ← getUint32 buf offset;
  let offset := offset + 4 in
  let compilerWasm := ArrayBuffer_slice buf offset (offset + compilerSize) in
  let offset := offset + compilerSize in
  linkerSize ← getUint32 buf offset;
  let offset := offset + 4 in
  let linkerWasm := ArrayBuffer_slice buf offset (offset + linkerSize) in
  let offset := offset + linkerSize in
  indexSize ← getUint32 buf offset;
  let offset := offset + 4 in
  indexBytes ← Uint8Array_view buf offset indexSize;
  packageNames ← JSON_parse (TextDecoder_decode indexBytes);
  let offset := offset + indexSize in
  packageCount ← getUint32 buf offset;
  let offset := offset + 4 in
  indexOffset ← Number_of_BigInt <$> getBigUint64 buf offset;
  let offset := offset + 8 in
  let packageDataStart := offset in
  packageIndex ← parse_index buf packageDataStart (Z.to_nat packageCount)
                   indexOffset [];
  Ok (mk buf compilerWasm linkerWasm packageNames packageIndex packageDataStart).

(** [_loadPackagesIntoVFS()] *)
Fixpoint write_packages (buf : bytes) (index : list (jsstring * entry))
  : M VirtualFS.t unit :=
  match index with
  | [] => mret tt
  | (name, e) :: index' =>
      data ← lift (Uint8Array_view buf (offset e) (size e));
      modify (VirtualFS.writeFile (archive_path name) (U8 data));;
      write_packages buf index'
  end.

Definition _loadPackagesIntoVFS (p : t) : M VirtualFS.t unit :=
  write_packages (packData p) (packageIndex p).

End SdkPack.

(* ===================================================================== *)
(** * CacheManager (src/core/cache-manager.js) *)
(* ===================================================================== *)

(** What [generateMetadata] records. *)
Record metadata : Type := mkMetadata {
  compilationTime : Z;
  sourceFiles : Z;
  totalSize : option Z
}.

Module CacheManager.

(** A record of the [compiledWasm] object store. *)
Record cacheEntry : Type := mkEntry {
  key : jsstring;
  sourceHash : jsstring;
  wasmBinary : bytes;
  meta : metadata;
  timestamp : Z;
  size : Z
}.

(** What [getCachedWasm] resolves with on a hit. *)
Record cached : Type := mkCached {
  cached_wasmBinary : bytes;
  cached_metadata : metadata;
  cached_timestamp : Z
}.

Record t : Type := mk {
  ready : bool;
  (** the [compiledWasm] object store, keyed by [key] *)
  compiledWasm : gmap jsstring cacheEntry
}.

Definition new : t := mk false ∅.

(** [init()]: opens the database. *)
Definition init (c : t) : t := mk true (compiledWasm c).

Definition wasm_key (sourceHash : jsstring) : jsstring := lit "wasm_" ++ sourceHash.

(** [cacheCompiledWasm(sourceHash, wasmBinary, metadata)]: [store.put]
    replaces the record under the same key. *)
Definition cacheCompiledWasm (sourceHash : jsstring) (wasmBinary : bytes)
    (m : metadata) (now : Z) (c : t) : t :=
  let c := if ready c then c else init c in
  let cacheEntry :=
    mkEntry (wasm_key sourceHash) sourceHash wasmBinary m now (byteLength wasmBinary) in
  mk (ready c) (<[key cacheEntry := cacheEntry]> (compiledWasm c)).

(** [getCachedWasm(sourceHash)] *)
Definition getCachedWasm (sourceHash : jsstring) (c : t) : option cached * t :=
  let c := if ready c then c else init c in
  match compiledWasm c !! wasm_key sourceHash with
  | Some result => (Some (mkCached (wasmBinary result) (meta result) (timestamp result)), c)
  | None => (None, c)
  end.

(** The loop body of [simpleHash]:
    [hash = ((hash << 5) - hash) + char; hash = hash & hash]. *)
Definition hash_step (hash char : Z) : Z :=
  let hash := (shl hash 5 - hash) + char in
  band hash hash.

(** [simpleHash(str)] *)
Definition simpleHash (str : jsstring) : jsstring :=
  let hash := fold_left hash_step str 0 in
  toString_radix 36 (Z.abs hash).

(** [generateSourceHash(sourceFiles)] *)
Definition generateSourceHash (sourceFiles : strobj) : jsstring :=
  let content := JSON_stringify sourceFiles (sort (Object_keys sourceFiles)) in
  simpleHash content.

End CacheManager.

(* ===================================================================== *)
(** * CompilationManager (the seven-stage pipeline) *)
(* ===================================================================== *)

(** The eight bytes a WebAssembly binary starts with. *)
Definition wasm_magic : bytes := [x00; x61; x73; x6d].
Definition wasm_version : bytes := [x01; x00; x00; x00].

(** [view[i] === v] *)
Definition index_is (view : bytes) (i : nat) (v : Z) : bool :=
  match view !! i with
  | Some x => byte_to_Z x =? v
  | None => false
  end.

Module CompilationManager.

Inductive status : Type := Idle | Compiling | Completed | Errored | Cancelled.

(** What the manager emits through its callbacks, and the foreign modules
    it instantiates and runs. *)
Inductive event : Type :=
| Progress (percentage : Z) (label : string)
| StageUpdate (stage : Z) (label : string)
| ErrorEvent (e : exn)
| CompleteEvent (wasmBinary : bytes) (m : metadata)
| Instantiate (module : bytes) (argv : list jsstring).

(** The page the manager runs in. *)
Record host : Type := mkHost {
  (** [window.ToolchainLoader] is defined *)
  has_ToolchainLoader : bool;
  (** the body of [fetch('static/goscript.pack')], [None] when not ok *)
  fetch_pack : option bytes;
  (** the bodies of [fetch('static/bin/compile.wasm')] and [link.wasm] *)
  fetch_compile_wasm : option bytes;
  fetch_link_wasm : option bytes;
  (** what [loadStdLib] leaves in the filesystem; it catches every failure *)
  loadStdLib : VirtualFileSystem.t -> VirtualFileSystem.t;
  (** [WebAssembly.instantiate(module, go.importObject)] followed by
      [go.run(instance)] with [go.argv = argv]: what the foreign module
      does to the filesystem through the shim, or a rejection *)
  go_run : bytes -> list jsstring -> M VirtualFileSystem.t unit;
  (** the bytes [Math.random] yields for [generateMockWasm] *)
  mock_random : bytes;
  (** the text [JSON.stringify(generateBuildConfig(), null, 2)] *)
  build_config : VirtualFileSystem.t -> jsstring;
  (** [Date.now()] *)
  now : Z
}.

Record t : Type := mk {
  vfs : VirtualFileSystem.t;
  cacheManager : CacheManager.t;
  compilerLoaded : bool;
  state : status;
  compileWasmBytes : option bytes;
  linkWasmBytes : option bytes;
  filesToCompile : strobj;
  (** everything emitted so far, oldest first *)
  events : list event;
  (** the pack stored under the pack's URL in the [toolchain] store *)
  packStore : option bytes
}.

(** [new CompilationManager()] followed by [init(vfs, cacheManager)] *)
Definition new (fs : VirtualFileSystem.t) (c : CacheManager.t) : t :=
  mk fs c false Idle None None [] [] None.

Definition set_vfs (f : VirtualFileSystem.t -> VirtualFileSystem.t) (s : t) : t :=
  mk (f (vfs s)) (cacheManager s) (compilerLoaded s) (state s) (compileWasmBytes s)
     (linkWasmBytes s) (filesToCompile s) (events s) (packStore s).

Definition set_cache (f : CacheManager.t -> CacheManager.t) (s : t) : t :=
  mk (vfs s) (f (cacheManager s)) (compilerLoaded s) (state s) (compileWasmBytes s)
     (linkWasmBytes s) (filesToCompile s) (events s) (packStore s).

Definition set_compilerLoaded (s : t) : t :=
  mk (vfs s) (cacheManager s) true (state s) (compileWasmBytes s)
     (linkWasmBytes s) (filesToCompile s) (events s) (packStore s).

Definition set_state (st : status) (s : t) : t :=
  mk (vfs s) (cacheManager s) (compilerLoaded s) st (compileWasmBytes s)
     (linkWasmBytes s) (filesToCompile s) (events s) (packStore s).

Definition set_compileWasmBytes (b : option bytes) (s : t) : t :=
  mk (vfs s) (cacheManager s) (compilerLoaded s) (state s) b
     (linkWasmBytes s) (filesToCompile s) (events s) (packStore s).

Definition set_linkWasmBytes (b : option bytes) (s : t) : t :=
  mk (vfs s) (cacheManager s) (compilerLoaded s) (state s) (compileWasmBytes s)
     b (filesToCompile s) (events s) (packStore s).

Definition set_filesToCompile (o : strobj) (s : t) : t :=
  mk (vfs s) (cacheManager s) (compilerLoaded s) (state s) (compileWasmBytes s)
     (linkWasmBytes s) o (events s) (packStore s).

Definition set_packStore (b : bytes) (s : t) : t :=
  mk (vfs s) (cacheManager s) (compilerLoaded s) (state s) (compileWasmBytes s)
     (linkWasmBytes s) (filesToCompile s) (events s) (Some b).

Definition emit (ev : event) : M t unit := modify (fun s =>
  mk (vfs s) (cacheManager s) (compilerLoaded s) (state s) (compileWasmBytes s)
     (linkWasmBytes s) (filesToCompile s) (events s ++ [ev]) (packStore s)).

Definition emitProgress (percentage : Z) (label : string) : M t unit :=
  emit (Progress percentage label).
Definition emitStageUpdate (stage : Z) (label : string) : M t unit :=
  emit (StageUpdate stage label).
Definition emitError (e : exn) : M t unit := emit (ErrorEvent e).
Definition emitComplete (wasmBinary : bytes) (m : metadata) : M t unit :=
  emit (CompleteEvent wasmBinary m).

(** Run filesystem code on [this.vfs]. *)
Definition on_vfs {A} (m : M VirtualFileSystem.t A) : M t A := fun s =>
  let '(r, fs) := m (vfs s) in (r, set_vfs (fun _ => fs) s).

(** [ToolchainLoader.load(url)]: the stored pack if there is one, else the
    fetched pack, which is stored; then [parseToolchain]. *)
Definition load (h : host) : M t ToolchainLoader.t :=
  s ← get;
  packData ←
    match packStore s with
    | Some cached => mret cached
    | None =>
        match fetch_pack h with
        | None => throw FetchFailed
        | Some buf => modify (set_packStore buf);; mret buf
        end
    end;
  let '(r, l) :=
    ToolchainLoader.parseToolchain
      (ToolchainLoader.set_packData packData ToolchainLoader.new) in
  match r with
  | Throw e => throw e
  | Ok _ => mret (ToolchainLoader.set_loaded l)
  end.

(** [loadCompilerSeparately()]: both branches end with the compiler marked
    as loaded. *)
Definition loadCompilerSeparately (h : host) : M t unit :=
  try_catch
    (match fetch_compile_wasm h with
     | None => throw FetchFailed
     | Some c =>
         modify (set_compileWasmBytes (Some c));;
         match fetch_link_wasm h with
         | None => throw FetchFailed
         | Some l =>
             modify (set_linkWasmBytes (Some l));;
             modify (set_vfs (loadStdLib h));;
             modify set_compilerLoaded
         end
     end)
    (fun _ => modify set_compilerLoaded).

(** [loadCompiler()] *)
Definition loadCompiler (h : host) : M t unit :=
  try_catch
    (if has_ToolchainLoader h then
       l ← load h;
       modify (set_compileWasmBytes (ToolchainLoader.getCompilerWasm l));;
       modify (set_linkWasmBytes (ToolchainLoader.getLinkerWasm l));;
       on_vfs (ToolchainLoader.loadAllPackagesIntoVFS l);;
       modify set_compilerLoaded
     else loadCompilerSeparately h)
    (fun _ => loadCompilerSeparately h).

(** [setupBuildEnvironment()] *)
Definition setupBuildEnvironment (h : host) : M t unit :=
  modify (set_vfs (VirtualFileSystem.mkdir (lit "/tmp")));;
  modify (set_vfs (VirtualFileSystem.mkdir (lit "/build")));;
  modify (set_vfs (VirtualFileSystem.mkdir (lit "/output")));;
  modify (set_vfs (fun fs =>
    VirtualFileSystem.writeFile (lit "/build/config.json") (Str (build_config h fs)) fs)).

(** [generateMetadata()] *)
Definition generateMetadata (h : host) (s : t) : metadata :=
  mkMetadata (now h) (VirtualFileSystem.goFileCount (vfs s))
             (VirtualFileSystem.totalSize (vfs s)).

(** [generateMockWasm()]: the header and 2048 random bytes. *)
Definition generateMockWasm (h : host) : bytes :=
  wasm_magic ++ wasm_version ++ resize 2048 x00 (mock_random h).

(** [validateWasmBinary(wasmBinary)] *)
Definition validateWasmBinary (wasmBinary : bytes) : bool :=
  if byteLength wasmBinary <? 8 then false
  else index_is wasmBinary 0 0 && index_is wasmBinary 1 97
       && index_is wasmBinary 2 115 && index_is wasmBinary 3 109.

(** The staging loop of [runGoCompiler]. *)
Definition stage_temp_files (files : strobj) (fs : VirtualFileSystem.t)
  : VirtualFileSystem.t :=
  fold_left (fun fs kv => VirtualFileSystem.writeFile (lit "/tmp/" ++ kv.1) (Str kv.2) fs)
            files fs.

Definition compile_argv (tempFiles : list jsstring) : list jsstring :=
  [lit "compile"; lit "-o"; lit "/tmp/main.o"; lit "-p"; lit "main"; lit "-complete"]
  ++ tempFiles.

Definition link_argv : list jsstring :=
  [lit "link"; lit "-o"; lit "/tmp/main.wasm"; lit "-L"; lit "/pkg/js_wasm";
   lit "/tmp/main.o"].

(** [runGoCompiler()]: the result is [wasm.buffer], which is [undefined]
    ([None]) unless the linked file holds a [Uint8Array]. *)
Definition runGoCompiler (h : host) (compiler linker : bytes) : M t (option bytes) :=
  s ← get;
  let files := filesToCompile s in
  if bool_decide (Object_keys files = []) then throw NoGoFiles else
  modify (set_vfs (stage_temp_files files));;
  let tempFiles := (fun kv : jsstring * jsstring => lit "/tmp/" ++ kv.1) <$> files in
  emit (Instantiate compiler (compile_argv tempFiles));;
  on_vfs (go_run h compiler (compile_argv tempFiles));;
  s ← get;
  if negb (VirtualFileSystem.exists_ (lit "/tmp/main.o") (vfs s)) then throw NoObjectFile else
  emit (Instantiate linker link_argv);;
  on_vfs (go_run h linker link_argv);;
  s ← get;
  if negb (VirtualFileSystem.exists_ (lit "/tmp/main.wasm") (vfs s)) then throw NoLinkedBinary else
  wasm ← lift (VirtualFileSystem.readFile (lit "/tmp/main.wasm") (vfs s));
  mret (match wasm with U8 b => Some b | _ => None end).

(** [compileToWasm()]: the real toolchain when both modules are loaded,
    the mock binary when they are not or when the real run fails. *)
Definition compileToWasm (h : host) : M t bytes :=
  s ← get;
  match compileWasmBytes s, linkWasmBytes s with
  | Some compiler, Some linker =>
      try_catch
        (wasmBinary ← runGoCompiler h compiler linker;
         (* the log line reads [wasmBinary.byteLength] *)
         match wasmBinary with
         | Some b => mret b
         | None => throw TypeError
         end)
        (fun _ => mret (generateMockWasm h))
  | _, _ => mret (generateMockWasm h)
  end.

(** [prepareBinary(wasmBinary)] *)
Definition prepareBinary (wasmBinary : bytes) : M t unit :=
  if negb (validateWasmBinary wasmBinary) then throw InvalidWasm else
  modify (set_vfs (VirtualFileSystem.writeFile (lit "/output/main.wasm") (Buf wasmBinary))).

(** Stages 3 to 7, after a cache miss. *)
Definition build (h : host) (sourceFiles : strobj) (sourceHash : jsstring) : M t bytes :=
  emitStageUpdate 2 "complete";;
  emitProgress 25 "CACHE_CHECKED";;
  emitStageUpdate 3 "active";;
  modify (set_vfs (VirtualFileSystem.loadGoSources sourceFiles));;
  emitStageUpdate 3 "complete";;
  emitProgress 40 "SOURCES_LOADED";;
  emitStageUpdate 4 "active";;
  setupBuildEnvironment h;;
  emitStageUpdate 4 "complete";;
  emitProgress 55 "VFS_READY";;
  emitStageUpdate 5 "active";;
  wasmBinary ← compileToWasm h;
  emitStageUpdate 5 "complete";;
  emitProgress 80 "WASM_COMPILED";;
  emitStageUpdate 6 "active";;
  s ← get;
  let metadata := generateMetadata h s in
  modify (set_cache (CacheManager.cacheCompiledWasm sourceHash wasmBinary metadata (now h)));;
  emitStageUpdate 6 "complete";;
  emitProgress 95 "BINARY_CACHED";;
  emitStageUpdate 7 "active";;
  prepareBinary wasmBinary;;
  emitStageUpdate 7 "complete";;
  emitProgress 100 "READY_FOR_EXECUTION";;
  modify (set_state Completed);;
  emitComplete wasmBinary metadata;;
  mret wasmBinary.

(** [compile(sourceFiles)] *)
Definition compile (h : host) (sourceFiles : strobj) : M t bytes :=
  try_catch
    (modify (set_state Compiling);;
     emitProgress 0 "COMPILATION_START";;
     modify (set_filesToCompile sourceFiles);;
     emitStageUpdate 1 "active";;
     loadCompiler h;;
     emitStageUpdate 1 "complete";;
     emitProgress 15 "COMPILER_READY";;
     emitStageUpdate 2 "active";;
     let sourceHash := CacheManager.generateSourceHash sourceFiles in
     cachedWasm ← (fun s =>
       let '(r, c) := CacheManager.getCachedWasm sourceHash (cacheManager s) in
       (Ok r, set_cache (fun _ => c) s));
     match cachedWasm with
     | Some c =>
         emitStageUpdate 2 "complete";;
         emitProgress 100 "CACHED_BINARY_LOADED";;
         modify (set_state Completed);;
         emitComplete (CacheManager.cached_wasmBinary c) (CacheManager.cached_metadata c);;
         mret (CacheManager.cached_wasmBinary c)
     | None => build h sourceFiles sourceHash
     end)
    (fun error =>
       modify (set_state Errored);;
       emitError error;;
       throw error).

(** [getStatus()] and [cancel()] *)
Definition getStatus (s : t) : status := state s.

Definition cancel (s : t) : t :=
  match state s with
  | Compiling => set_state Cancelled s
  | _ => s
  end.

End CompilationManager.

(* ===================================================================== *)
(** * GoScript (the SDK driver, sdk/goscript.js) *)
(* ===================================================================== *)

Module GoScript.

(** [compile(source)] takes the text of [main.go] or an object of files. *)
Inductive source : Type :=
| Text (code : jsstring)
| Files (files : strobj).

Inductive event : Type :=
| Progress (percentage : Z) (message : string)
| ErrorLog (e : exn)
| Instantiate (module : bytes) (argv : list jsstring).

(** The object [compile] resolves with. *)
Inductive CompileResult : Type :=
| Success (wasm : content) (sourceFiles : Z)
| Failure (error : exn).

Record host : Type := mkHost {
  (** [WebAssembly.instantiate(module, go.importObject)] followed by
      [go.run(instance)] with [go.argv = argv], the shim patched in *)
  go_run : bytes -> list jsstring -> M VirtualFS.t unit
}.

Record t : Type := mk {
  initialized : bool;
  compilerReady : bool;
  compiling : bool;
  vfs : VirtualFS.t;
  compilerWasm : bytes;
  linkerWasm : bytes;
  (** progress reports, error reports and foreign runs, oldest first *)
  events : list event
}.

Definition set_compiling (b : bool) (s : t) : t :=
  mk (initialized s) (compilerReady s) b (vfs s) (compilerWasm s) (linkerWasm s)
     (events s).

Definition set_vfs (f : VirtualFS.t -> VirtualFS.t) (s : t) : t :=
  mk (initialized s) (compilerReady s) (compiling s) (f (vfs s)) (compilerWasm s)
     (linkerWasm s) (events s).

Definition emit (ev : event) : M t unit := modify (fun s =>
  mk (initialized s) (compilerReady s) (compiling s) (vfs s) (compilerWasm s)
     (linkerWasm s) (events s ++ [ev])).

Definition _progress (percentage : Z) (message : string) : M t unit :=
  emit (Progress percentage message).

Definition on_vfs {A} (m : M VirtualFS.t A) : M t A := fun s =>
  let '(r, fs) := m (vfs s) in (r, set_vfs (fun _ => fs) s).

Definition tempDir : jsstring := lit "/tmp/build".

Definition compile_argv (filePaths : list jsstring) : list jsstring :=
  [lit "compile"; lit "-o"; lit "/tmp/build/main.o"; lit "-p"; lit "main";
   lit "-complete"] ++ filePaths.

Definition link_argv : list jsstring :=
  [lit "link"; lit "-o"; lit "/tmp/build/main.wasm"; lit "-L"; lit "/pkg/js_wasm";
   lit "/tmp/build/main.o"].

(** [_runCompiler(filePaths)] *)
Definition _runCompiler (h : host) (filePaths : list jsstring) : M t unit :=
  s ← get;
  emit (Instantiate (compilerWasm s) (compile_argv filePaths));;
  on_vfs (go_run h (compilerWasm s) (compile_argv filePaths));;
  s ← get;
  if negb (VirtualFS.exists_ (lit "/tmp/build/main.o") (vfs s))
  then throw NoObjectFile else mret tt.

(** [_runLinker()] *)
Definition _runLinker (h : host) : M t unit :=
  s ← get;
  emit (Instantiate (linkerWasm s) link_argv);;
  on_vfs (go_run h (linkerWasm s) link_argv);;
  s ← get;
  if negb (VirtualFS.exists_ (lit "/tmp/build/main.wasm") (vfs s))
  then throw NoLinkedBinary else mret tt.

(** The [try] block of [compile]. *)
Definition compile_body (h : host) (src : source) : M t CompileResult :=
  let sourceFiles :=
    match src with
    | Text code => [(lit "main.go", code)]
    | Files files => files
    end in
  _progress 0 "Starting compilation...";;
  _progress 10 "Preparing source files...";;
  modify (set_vfs (VirtualFS.mkdir tempDir));;
  modify (set_vfs (fun fs =>
    fold_left (fun fs kv => VirtualFS.writeFile (tempDir ++ lit "/" ++ kv.1) (Str kv.2) fs)
              sourceFiles fs));;
  let filePaths :=
    (fun kv : jsstring * jsstring => tempDir ++ lit "/" ++ kv.1) <$> sourceFiles in
  _progress 30 "Compiling Go to object file...";;
  _runCompiler h filePaths;;
  _progress 60 "Linking...";;
  _runLinker h;;
  _progress 90 "Reading output...";;
  let wasmPath := tempDir ++ lit "/main.wasm" in
  s ← get;
  if negb (VirtualFS.exists_ wasmPath (vfs s)) then throw NoOutputGenerated else
  wasmData ← lift (VirtualFS.readFile wasmPath (vfs s));
  let wasmBuffer := match wasmData with U8 b => Buf b | other => other end in
  _progress 100 "Compilation complete";;
  mret (Success wasmBuffer (Z.of_nat (length (Object_keys sourceFiles)))).

(** [compile(source)]: [Throw] is a rejected promise; a failure inside the
    [try] block resolves with [Failure]; [finally] clears the flag. *)
Definition compile (h : host) (src : source) : M t CompileResult := fun s =>
  if negb (initialized s) then (Throw NotInitialized, s)
  else if compiling s then (Throw AlreadyCompiling, s)
  else
    let s := set_compiling true s in
    let '(r, s) :=
      try_catch (compile_body h src)
                (fun error => emit (ErrorLog error);; mret (Failure error)) s in
    (r, set_compiling false s).

End GoScript.

(* ===================================================================== *)
(** * Specification vocabulary *)
(* ===================================================================== *)

(** A segment of a normalized path: not empty, not [.], not [..], and free
    of separators. *)
Definition clean_segment (seg : jsstring) : Prop :=
  seg <> [] /\ seg <> lit "." /\ seg <> lit ".." /\ slash ∉ seg.

Fixpoint double_slash (s : jsstring) : bool :=
  match s with
  | c :: s' =>
      match s' with
      | d :: _ => (c =? slash) && (d =? slash) || double_slash s'
      | [] => false
      end
  | [] => false
  end.

(** Resolving the segments of a path, one after the other: an empty
    segment and [.] are skipped, [..] drops the segment kept last, if there
    is one, and any other segment is kept. *)
Definition resolve_step (resolved : list jsstring) (seg : jsstring) : list jsstring :=
  if str_eqb seg [] || str_eqb seg (lit ".") then resolved
  else if str_eqb seg (lit "..") then removelast resolved
  else resolved ++ [seg].

Definition dot_resolved (segs : list jsstring) : list jsstring :=
  fold_left resolve_step segs [].

(** Collapsing the separators of a path, on its segments: the empty
    segments are dropped, except the last one, which stands for a trailing
    separator; every other segment is kept, [.] and [..] included. *)
Fixpoint collapsed (segs : list jsstring) : list jsstring :=
  match segs with
  | [] => [[]]
  | [seg] => [seg]
  | seg :: rest => if truthy seg then seg :: collapsed rest else collapsed rest
  end.

(** Descriptors are handed out from 100 upwards and never reused. *)
Definition legacy_wf (s : FSPolyfill.t) : Prop :=
  100 <= FSPolyfill.nextFd s /\
  forall fd f, FSPolyfill.fds s !! fd = Some f -> 100 <= fd < FSPolyfill.nextFd s.

Definition sdk_wf (s : SdkFSPolyfill.t) : Prop :=
  100 <= SdkFSPolyfill.nextFd s /\
  forall fd f, SdkFSPolyfill.fds s !! fd = Some f -> 100 <= fd < SdkFSPolyfill.nextFd s.


Definition sdk_target (s : SdkFSPolyfill.t) (p : jsstring) : jsstring :=
  VirtualFS._normalize (resolve_cwd (VirtualFS.workingDirectory (SdkFSPolyfill.vfs s)) p).


(** The canonical form as the specification words it (section 4.4): the
    files sorted by path, each length-prefixed, then the content bytes.  The
    encoding [prefix] of a length is left open there. *)
Definition length_prefixed_form (prefix : Z -> jsstring) (o : strobj) : jsstring :=
  flat_map (fun k =>
              let v := default [] (Object_get o k) in
              prefix (Z.of_nat (length k)) ++ k ++ prefix (Z.of_nat (length v)) ++ v)
           (sort (Object_keys o)).

(** The member [JSON.stringify] writes for the property [k] of [o]. *)
Definition JSON_member (o : strobj) (k : jsstring) : jsstring :=
  JSON_quote k ++ 58 :: JSON_quote (default [] (Object_get o k)).

(** The magic bytes: ASCII [GOSCRIPT]. *)
Definition magic_bytes : bytes := [x47; x4f; x53; x43; x52; x49; x50; x54].

(** ** The pack format (section 6.1 of the specification) *)

(** The [w] bytes at [pos] lie inside [pack] and hold [v], little-endian. *)
Definition field (w : Z) (pack : bytes) (pos v : Z) : Prop :=
  0 <= pos /\ pos + w <= byteLength pack /\ le_uint (sub_bytes pack pos w) = v.

(** An index entry: [(u16 nameLen, name, u64 dataOffset, u32 dataSize)]. *)
Record index_entry : Type := mkIndexEntry {
  e_name : bytes;
  e_offset : Z;
  e_size : Z
}.

(** The entries that stand, one after the other, at [pos]. *)
Inductive index_at (pack : bytes) : Z -> list index_entry -> Prop :=
| index_at_nil pos : index_at pack pos []
| index_at_cons pos nameLen e es :
    field 2 pack pos nameLen ->
    pos + 2 + nameLen <= byteLength pack ->
    e_name e = sub_bytes pack (pos + 2) nameLen ->
    field 8 pack (pos + 2 + nameLen) (e_offset e) ->
    field 4 pack (pos + 2 + nameLen + 8) (e_size e) ->
    index_at pack (pos + 2 + nameLen + 8 + 4) es ->
    index_at pack pos (e :: es).

(** What the header and the index of a pack declare. *)
Record pack_layout : Type := mkLayout {
  L1 : Z;                       (* compiler blob length *)
  L2 : Z;                       (* linker blob length *)
  L3 : Z;                       (* package-name JSON length *)
  names : list json;            (* the JSON array of package names *)
  Ix : Z;                       (* index offset *)
  entries : list index_entry    (* the index *)
}.

(** Where the package data region starts. *)
Definition data_start (ly : pack_layout) : Z := 36 + L1 ly + L2 ly + L3 ly.

(** A well-formed pack: magic and version as required, the three
    length-prefixed sections and the index inside the buffer, the names a
    JSON array. *)
Definition well_formed_pack (pack : bytes) (ly : pack_layout) : Prop :=
  byteLength pack < 2 ^ 53
  /\ take 8 pack = magic_bytes
  /\ field 4 pack 8 2
  /\ field 4 pack 12 (L1 ly)
  /\ 16 + L1 ly <= byteLength pack
  /\ field 4 pack (16 + L1 ly) (L2 ly)
  /\ 20 + L1 ly + L2 ly <= byteLength pack
  /\ field 4 pack (20 + L1 ly + L2 ly) (L3 ly)
  /\ 24 + L1 ly + L2 ly + L3 ly <= byteLength pack
  /\ JSON_parse (TextDecoder_decode (sub_bytes pack (24 + L1 ly + L2 ly) (L3 ly)))
     = Ok (JArray (names ly))
  /\ field 4 pack (24 + L1 ly + L2 ly + L3 ly) (Z.of_nat (length (entries ly)))
  /\ field 8 pack (28 + L1 ly + L2 ly + L3 ly) (Ix ly)
  /\ index_at pack (Ix ly) (entries ly).

(** The archive range of an index entry lies inside the pack. *)
Definition archive_inside (pack : bytes) (ly : pack_layout) (e : index_entry) : Prop :=
  data_start ly + e_offset e + e_size e <= byteLength pack.

(** A valid pack: well-formed, and every archive range inside the pack. *)
Definition valid_pack (pack : bytes) (ly : pack_layout) : Prop :=
  well_formed_pack pack ly /\ Forall (archive_inside pack ly) (entries ly).

(** The name an index entry is filed under. *)
Definition entry_name (e : index_entry) : jsstring := TextDecoder_decode (e_name e).

(** The archive range an index entry declares. *)
Definition declared_archive (pack : bytes) (ly : pack_layout) (e : index_entry) : bytes :=
  sub_bytes pack (data_start ly + e_offset e) (e_size e).

(** The entry at position [i] is the last one filed under its name. *)
Definition last_of_its_name (es : list index_entry) (i : nat) (e : index_entry) : Prop :=
  es !! i = Some e
  /\ forall j e', (i < j)%nat -> es !! j = Some e' -> entry_name e' <> entry_name e.

(** ** Sample packs *)

(** The [w]-byte little-endian encoding of [z]. *)
Fixpoint le_bytes (w : nat) (z : Z) : bytes :=
  match w with
  | O => []
  | S w' => byte_of_Z z :: le_bytes w' (z / 256)
  end.

(** An index entry: name, data offset, data size. *)
Definition index_bytes (name : bytes) (off size : Z) : bytes :=
  le_bytes 2 (byteLength name) ++ name ++ le_bytes 8 off ++ le_bytes 4 size.

(** A pack with a three-byte compiler, a two-byte linker, the names [[]],
    and one package [fmt] whose index entry declares [size] bytes at data
    offset 1 of a four-byte data region. *)
Definition sample_pack_with (size : Z) : bytes :=
  magic_bytes ++ le_bytes 4 2
  ++ le_bytes 4 3 ++ [x01; x02; x03]
  ++ le_bytes 4 2 ++ [x04; x05]
  ++ le_bytes 4 2 ++ [x5b; x5d]
  ++ le_bytes 4 1 ++ le_bytes 8 47
  ++ [x0a; x0b; x0c; x0d]
  ++ index_bytes [x66; x6d; x74] 1 size.

Definition sample_pack : bytes := sample_pack_with 2.

Definition sample_layout_with (size : Z) : pack_layout :=
  mkLayout 3 2 2 [] 47 [mkIndexEntry [x66; x6d; x74] 1 size].

Definition sample_layout : pack_layout := sample_layout_with 2.

(** The twelve header bytes alone: right magic, version 2, nothing else. *)
Definition header_only_pack : bytes := magic_bytes ++ le_bytes 4 2.

(** ** The parsers, step by step *)

(** The part of [_parseToolchainPack] that follows the header check, with
    its offsets written out. *)
Definition sdk_sections (buf : bytes) : result SdkPack.t :=
  compilerSize ← getUint32 buf 12;
  linkerSize ← getUint32 buf (16 + compilerSize);
  indexSize ← getUint32 buf (20 + compilerSize + linkerSize);
  indexBytes ← Uint8Array_view buf (24 + compilerSize + linkerSize) indexSize;
  packageNames ← JSON_parse (TextDecoder_decode indexBytes);
  packageCount ← getUint32 buf (24 + compilerSize + linkerSize + indexSize);
  indexOffset ← Number_of_BigInt <$>
    getBigUint64 buf (28 + compilerSize + linkerSize + indexSize);
  packageIndex ← SdkPack.parse_index buf (36 + compilerSize + linkerSize + indexSize)
    (Z.to_nat packageCount) indexOffset [];
  Ok (SdkPack.mk buf
        (ArrayBuffer_slice buf 16 (16 + compilerSize))
        (ArrayBuffer_slice buf (20 + compilerSize) (20 + compilerSize + linkerSize))
        packageNames packageIndex (36 + compilerSize + linkerSize + indexSize)).

(** [parseToolchain] on a fresh loader holding [buf]: its outcome. *)
Definition loader_parse (buf : bytes) : result unit :=
  (ToolchainLoader.parseToolchain
     (ToolchainLoader.set_packData buf ToolchainLoader.new)).1.

(** ** The pipeline *)

(** What loading the compiler leaves alone: the artifact cache, the events
    emitted, the status and the files to compile. *)
Definition same_run (s s' : CompilationManager.t) : Prop :=
  CompilationManager.cacheManager s' = CompilationManager.cacheManager s
  /\ CompilationManager.events s' = CompilationManager.events s
  /\ CompilationManager.state s' = CompilationManager.state s
  /\ CompilationManager.filesToCompile s' = CompilationManager.filesToCompile s.

(** What a [compile] that finds its binary in the cache emits. *)
Definition hit_events (wasm : bytes) (m : metadata) : list CompilationManager.event :=
  [CompilationManager.Progress 0 "COMPILATION_START";
   CompilationManager.StageUpdate 1 "active";
   CompilationManager.StageUpdate 1 "complete";
   CompilationManager.Progress 15 "COMPILER_READY";
   CompilationManager.StageUpdate 2 "active";
   CompilationManager.StageUpdate 2 "complete";
   CompilationManager.Progress 100 "CACHED_BINARY_LOADED";
   CompilationManager.CompleteEvent wasm m].

(** ** Sample pages *)


(** A page whose compiler module writes an empty object file and whose
    linker module writes [out]. *)
Definition toolchain_host (out : bytes) : CompilationManager.host :=
  CompilationManager.mkHost false None (Some [x01]) (Some [x02]) (fun fs => fs)
    (fun module _ =>
       if bool_decide (module = [x01])
       then modify (VirtualFileSystem.writeFile (lit "/tmp/main.o") (U8 []))
       else modify (VirtualFileSystem.writeFile (lit "/tmp/main.wasm") (U8 out)))
    [] (fun _ => lit "{}") 0.

Definition main_go : strobj := [(lit "main.go", lit "package main")].

Definition fresh_manager : CompilationManager.t :=
  CompilationManager.new VirtualFileSystem.new CacheManager.new.

(** The SDK counterpart of [toolchain_host]. *)
Definition sdk_toolchain_host (out : bytes) : GoScript.host :=
  GoScript.mkHost
    (fun module _ =>
       if bool_decide (module = [x01])
       then modify (VirtualFS.writeFile (lit "/tmp/build/main.o") (U8 []))
       else modify (VirtualFS.writeFile (lit "/tmp/build/main.wasm") (U8 out))).

(** An initialized SDK driver, idle or in the middle of a compilation. *)
Definition sdk_driver (compiling : bool) : GoScript.t :=
  GoScript.mk true true compiling VirtualFS.new [x01] [x02] [].

(** The WebAssembly magic followed by version 2. *)
Definition wasm_v2 : bytes := wasm_magic ++ [x02; x00; x00; x00].

(** Eight bytes that are no WebAssembly binary. *)
Definition junk : bytes := [x6a; x75; x6e; x6b; x6a; x75; x6e; x6b].

(** The eight-byte WebAssembly header alone. *)
Definition wasm_v1 : bytes := wasm_magic ++ wasm_version.

(** A compilation manager whose status says a compilation is running. *)
Definition busy_manager : CompilationManager.t :=
  CompilationManager.set_state CompilationManager.Compiling fresh_manager.

(** ** Directories *)

(** The proper ancestors, the root apart, of the path made of [segs]. *)
Definition ancestor_dirs (segs : list jsstring) : list jsstring :=
  (fun k => lit "/" ++ join slash (take k segs)) <$> seq 1 (length segs - 1).

(** ** Descriptors *)

(** The content a positional write leaves: the old bytes, zero-filled up to
    [pos] when they end before it, then [data] over the bytes it covers, then
    the old bytes past it. *)
Definition written_at (old data : bytes) (pos : Z) : bytes :=
  take (Z.to_nat pos)
       (old ++ replicate (Z.to_nat (pos + byteLength data - byteLength old)) x00)
  ++ data ++ drop (Z.to_nat (pos + byteLength data)) old.

(** An SDK shim with one descriptor, 100, open on the new file [/f]. *)
Definition sdk_one_open : SdkFSPolyfill.t :=
  (SdkFSPolyfill.open (lit "/f") 64 0 (SdkFSPolyfill.new VirtualFS.new true)).2.

(** The bytes [open] snapshots for a stored content: text is encoded as
    UTF-8. *)
Definition content_bytes (c : content) : bytes :=
  match c with
  | Str text => TextEncoder_encode text
  | U8 b => b
  | Buf b => b
  end.

(** An SDK shim over a filesystem that holds the text [hi] at [/f]. *)
Definition sdk_with_file : SdkFSPolyfill.t :=
  SdkFSPolyfill.new (VirtualFS.writeFile (lit "/f") (Str (lit "hi")) VirtualFS.new) true.

(** A call on the SDK's shim, and the shim after a sequence of calls. *)
Inductive sdk_call : Type :=
| CallOpen (path : jsstring) (flags mode : Z)
| CallClose (fd : Z)
| CallWriteSync (fd : Z) (buf : bytes)
| CallWrite (limit fd : Z) (buf : bytes) (offset len : Z) (position : option Z)
| CallRead (fd : Z) (buffer : bytes) (offset len : Z) (position : option Z)
| CallMkdir (path : jsstring) (perm : Z)
| CallChdir (path : jsstring)
| CallUnlink (path : jsstring)
| CallRename (from to : jsstring)
| CallRmdir (path : jsstring)
| CallFtruncate (fd len : Z).

Definition sdk_after (call : sdk_call) (s : SdkFSPolyfill.t) : SdkFSPolyfill.t :=
  match call with
  | CallOpen path flags mode => (SdkFSPolyfill.open path flags mode s).2
  | CallClose fd => (SdkFSPolyfill.close fd s).2
  | CallWriteSync fd buf => (SdkFSPolyfill.writeSync fd buf s).2
  | CallWrite limit fd buf offset len position =>
      (SdkFSPolyfill.write limit fd buf offset len position s).2
  | CallRead fd buffer offset len position =>
      (SdkFSPolyfill.read fd buffer offset len position s).2
  | CallMkdir path perm => (SdkFSPolyfill.mkdir path perm s).2
  | CallChdir path => (SdkFSPolyfill.chdir path s).2
  | CallUnlink path => (SdkFSPolyfill.unlink path s).2
  | CallRename from to => (SdkFSPolyfill.rename from to s).2
  | CallRmdir path => (SdkFSPolyfill.rmdir path s).2
  | CallFtruncate fd len => (SdkFSPolyfill.ftruncate fd len s).2
  end.

Definition sdk_run (calls : list sdk_call) (s : SdkFSPolyfill.t) : SdkFSPolyfill.t :=
  fold_left (fun s call => sdk_after call s) calls s.

(** ** Loading the packages *)

(** The range of an index entry lies inside the pack. *)
Definition view_ok (buf : bytes) (e : entry) : Prop :=
  0 <= offset e /\ 0 <= size e /\ offset e + size e <= byteLength buf.

(** The filesystem after writing the archives of [index], in order. *)
Definition sdk_archives_written (buf : bytes) (index : list (jsstring * entry))
    (fs : VirtualFS.t) : VirtualFS.t :=
  fold_left (fun fs ne =>
               VirtualFS.writeFile (archive_path ne.1)
                 (U8 (sub_bytes buf (offset ne.2) (size ne.2))) fs)
            index fs.

Definition legacy_archives_written (buf : bytes) (index : list (jsstring * entry))
    (fs : VirtualFileSystem.t) : VirtualFileSystem.t :=
  fold_left (fun fs ne =>
               VirtualFileSystem.writeFile (archive_path ne.1)
                 (U8 (sub_bytes buf (offset ne.2) (size ne.2))) fs)
            index fs.

(** ** Sample pages, continued *)

(** A page with the loader class and a server that answers with [pack]. *)
Definition pack_host (pack : bytes) : CompilationManager.host :=
  CompilationManager.mkHost true (Some pack) None None (fun fs => fs)
    (fun _ _ => mret tt) [] (fun _ => lit "{}") 0.

(** A page whose server answers nothing. *)
Definition offline_host : CompilationManager.host :=
  CompilationManager.mkHost true None None None (fun fs => fs)
    (fun _ _ => mret tt) [] (fun _ => lit "{}") 0.

(** An SDK page whose foreign modules return without writing anything. *)
Definition silent_sdk_host : GoScript.host := GoScript.mkHost (fun _ _ => mret tt).

(** The SDK driver after one successful build of [package main]. *)
Definition sdk_after_build : GoScript.t :=
  (GoScript.compile (sdk_toolchain_host wasm_v1) (GoScript.Text (lit "package main"))
     (sdk_driver false)).2.

(** ** The source hash *)

(** Two texts the loop of [simpleHash] cannot tell apart, from whatever
    value it has reached. *)
Definition same_hash (s1 s2 : jsstring) : Prop :=
  forall h, fold_left CacheManager.hash_step s1 h = fold_left CacheManager.hash_step s2 h.

(** A project in which the file [name] has the text [text]. *)
Definition with_source (before after : strobj) (name text : jsstring) : strobj :=
  before ++ (name, text) :: after.

(** ** The two parsers side by side *)

(** The loader with its package index replaced by [idx]. *)
Definition with_index (idx : list (jsstring * entry)) (l : ToolchainLoader.t)
  : ToolchainLoader.t :=
  ToolchainLoader.mk (ToolchainLoader.packData l) (ToolchainLoader.compilerWasm l)
    (ToolchainLoader.linkerWasm l) idx (ToolchainLoader.packageNames l)
    (ToolchainLoader.loaded l) (ToolchainLoader.packageDataStart l).

(** The loader a successful [parseToolchain] leaves behind, in terms of the
    object the SDK's parser returns. *)
Definition loaded_from (p : SdkPack.t) : ToolchainLoader.t :=
  ToolchainLoader.mk (Some (SdkPack.packData p)) (Some (SdkPack.compilerWasm p))
    (Some (SdkPack.linkerWasm p)) (SdkPack.packageIndex p) (SdkPack.packageNames p)
    false (SdkPack.packageDataStart p).

(** The parsed package names are [null]. *)
Definition is_null (v : json) : bool :=
  match v with JNull => true | _ => false end.

(** The entry [parseToolchain] files for an index entry. *)
Definition filed (ds : Z) (e : index_entry) : entry :=
  mkEntry (Number_add ds (Number_of_BigInt (e_offset e))) (e_size e).

(** The index after filing the entries [es], in order, on top of [idx]. *)
Definition file_all (ds : Z) (es : list index_entry) (idx : list (jsstring * entry))
  : list (jsstring * entry) :=
  fold_left (fun m e => Map_set (entry_name e) (filed ds e) m) es idx.

(* ===================================================================== *)
(** * Properties *)
(* ===================================================================== *)

(** ** Strings *)

Lemma str_eqb_eq (a b : jsstring) : str_eqb a b = true <-> a = b.
Proof. unfold str_eqb. apply bool_decide_eq_true. Qed.

Lemma str_eqb_neq (a b : jsstring) : str_eqb a b = false <-> a <> b.
Proof. unfold str_eqb. apply bool_decide_eq_false. Qed.

Lemma split_no_sep sep s : Forall (fun seg => sep ∉ seg) (split sep s).
Proof.
  induction s as [|c s IH]; simpl.
  - repeat constructor. apply not_elem_of_nil.
  - destruct (Z.eqb_spec c sep) as [->|Hne].
    + constructor; [apply not_elem_of_nil|exact IH].
    + destruct (split sep s) as [|seg segs]; simpl.
      * repeat constructor. rewrite list_elem_of_singleton. congruence.
      * inversion IH; subst. constructor; [|assumption].
        rewrite elem_of_cons. intros [?|?]; congruence.
Qed.

Lemma Forall_removelast {A} (P : A -> Prop) l : Forall P l -> Forall P (removelast l).
Proof.
  induction 1 as [|x l Hx Hl IH]; simpl; [constructor|].
  destruct l; [constructor|]. constructor; assumption.
Qed.

Lemma resolve_clean parts resolved :
  Forall (fun p => p <> [] /\ p <> lit "." /\ slash ∉ p) parts ->
  Forall clean_segment resolved ->
  Forall clean_segment (VirtualFS.resolve parts resolved).
Proof.
  revert resolved. induction parts as [|part parts IH]; intros resolved Hp Hr; simpl.
  - exact Hr.
  - inversion Hp as [|? ? (Hne & Hdot & Hsl) Hp']; subst.
    destruct (str_eqb part (lit "..")) eqn:E.
    + apply IH; [assumption|]. by apply Forall_removelast.
    + apply IH; [assumption|]. apply Forall_app; split; [assumption|].
      constructor; [|constructor]. apply str_eqb_neq in E. by repeat split.
Qed.

Lemma normalize_clean path :
  exists segs,
    VirtualFS._normalize path = lit "/" ++ join slash segs /\ Forall clean_segment segs.
Proof.
  unfold VirtualFS._normalize. eexists; split; [reflexivity|].
  apply resolve_clean; [|constructor].
  apply Forall_forall. intros p Hin. apply list_elem_of_In, filter_In in Hin as [Hin Hf].
  apply andb_true_iff in Hf as [Ht Hd]. apply negb_true_iff, str_eqb_neq in Hd.
  pose proof (split_no_sep slash
    (if negb (startsWith path (lit "/")) then lit "/" ++ path else path)) as Hs.
  rewrite Forall_forall in Hs. repeat split; [|assumption|].
  - destruct p; [discriminate|congruence].
  - apply Hs. by apply list_elem_of_In.
Qed.

(** ** Adjacent separators *)

Lemma double_slash_app a b : double_slash (a ++ lit "//" ++ b) = true.
Proof.
  induction a as [|c a IH]; [reflexivity|].
  cbn [app double_slash]. destruct (a ++ lit "//" ++ b) eqn:E.
  - destruct a; discriminate.
  - rewrite IH. apply orb_true_r.
Qed.

Lemma collapse_head s : head (collapse_slashes s) = head s.
Proof.
  induction s as [|c s IH]; [reflexivity|]. simpl.
  destruct (Z.eqb_spec c slash) as [->|?]; [|reflexivity].
  destruct s as [|d s]; [reflexivity|].
  destruct (Z.eqb_spec d slash) as [->|?]; [|reflexivity].
  rewrite IH. reflexivity.
Qed.

Lemma collapse_no_double s : double_slash (collapse_slashes s) = false.
Proof.
  induction s as [|c s IH]; [reflexivity|]. simpl.
  destruct (Z.eqb_spec c slash) as [->|Hc].
  - destruct s as [|d s]; [reflexivity|].
    destruct (Z.eqb_spec d slash) as [->|Hd]; [exact IH|].
    cbn [double_slash]. pose proof (collapse_head (d :: s)) as Hh.
    destruct (collapse_slashes (d :: s)) as [|e t] eqn:E; [reflexivity|].
    simpl in Hh. injection Hh as ->. rewrite IH.
    destruct (Z.eqb_spec d slash); [contradiction|]. by rewrite andb_false_r.
  - cbn [double_slash]. destruct (collapse_slashes s) as [|e t] eqn:E; [reflexivity|].
    rewrite IH. destruct (Z.eqb_spec c slash); [contradiction|]. reflexivity.
Qed.

Lemma startsWith_slash s :
  startsWith s (lit "/") = match s with c :: _ => 47 =? c | [] => false end.
Proof.
  change (lit "/") with [47]. destruct s as [|c s]; [reflexivity|].
  cbn [startsWith]. destruct s; apply andb_true_r.
Qed.

Lemma normalizePath_absolute path :
  startsWith (VirtualFileSystem.normalizePath path) (lit "/") = true.
Proof.
  unfold VirtualFileSystem.normalizePath. rewrite !startsWith_slash.
  set (p := if negb _ then _ else _).
  assert (Hp : head p = Some 47).
  { subst p. destruct path as [|c path]; [reflexivity|].
    destruct (Z.eqb_spec 47 c) as [<-|?]; reflexivity. }
  rewrite <- collapse_head in Hp.
  destruct (collapse_slashes p); [discriminate|]. injection Hp as ->. reflexivity.
Qed.

Lemma normalizePath_no_double path a b :
  VirtualFileSystem.normalizePath path <> a ++ lit "//" ++ b.
Proof.
  intros H. pose proof (collapse_no_double
    (if negb (startsWith path (lit "/")) then lit "/" ++ path else path)) as Hn.
  unfold VirtualFileSystem.normalizePath in H. rewrite H in Hn.
  rewrite double_slash_app in Hn. discriminate.
Qed.

(** ** Write, then read *)

Lemma legacy_files_writeFile p c fs :
  VirtualFileSystem.files (VirtualFileSystem.writeFile p c fs)
  = <[VirtualFileSystem.normalizePath p := c]> (VirtualFileSystem.files fs).
Proof.
  unfold VirtualFileSystem.writeFile, VirtualFileSystem.ensureDirectoryExists.
  by destruct (negb _).
Qed.

Lemma legacy_write_read p1 p2 c fs :
  VirtualFileSystem.normalizePath p1 = VirtualFileSystem.normalizePath p2 ->
  VirtualFileSystem.readFile p2 (VirtualFileSystem.writeFile p1 c fs) = Ok c.
Proof.
  intros H. unfold VirtualFileSystem.readFile.
  rewrite legacy_files_writeFile, H, lookup_insert_eq. reflexivity.
Qed.

Lemma sdk_write_read p1 p2 c fs :
  VirtualFS._normalize p1 = VirtualFS._normalize p2 ->
  VirtualFS.readFile p2 (VirtualFS.writeFile p1 c fs) = Ok c.
Proof.
  intros H. unfold VirtualFS.readFile, VirtualFS.writeFile. simpl.
  rewrite H, lookup_insert_eq. reflexivity.
Qed.

(** ** The shims *)




Lemma file_fd_test fd : fd <> 1 -> fd <> 2 -> (fd =? 1) || (fd =? 2) = false.
Proof. intros. apply orb_false_iff. split; by apply Z.eqb_neq. Qed.


Lemma sdk_wf_new fs callback : sdk_wf (SdkFSPolyfill.new fs callback).
Proof. split; [simpl; lia|]. intros fd f H. simpl in H. by rewrite lookup_empty in H. Qed.

Lemma legacy_wf_open p flags mode s :
  legacy_wf s -> legacy_wf (FSPolyfill.open p flags mode s).2.
Proof.
  intros [Hn Hf]. unfold FSPolyfill.open.
  destruct (if VirtualFileSystem.exists_ _ _ then _ else _); simpl; [|by split].
  split; simpl; [lia|]. intros fd f. rewrite lookup_insert. case_decide.
  - intros _. subst. lia.
  - intros H'. apply Hf in H'. lia.
Qed.

Lemma legacy_wf_close fd s : legacy_wf s -> legacy_wf (FSPolyfill.close fd s).2.
Proof.
  intros [Hn Hf]. split; [exact Hn|]. simpl. intros fd' f H.
  apply lookup_delete_Some in H as [_ H]. eauto.
Qed.

Lemma legacy_wf_writeSync fd buf s :
  legacy_wf s -> legacy_wf (FSPolyfill.writeSync fd buf s).2.
Proof.
  intros [Hn Hf]. unfold FSPolyfill.writeSync.
  destruct ((fd =? 1) || (fd =? 2)).
  { unfold FSPolyfill.emit. destruct (FSPolyfill.addConsoleOutput s); by split. }
  destruct (FSPolyfill.fds s !! fd) as [f|] eqn:E; [|by split].
  assert (Hset : forall f' g, legacy_wf (FSPolyfill.set_vfs g (FSPolyfill.set_fd fd f' s))).
  { intros f' g. split; [exact Hn|]. simpl. intros fd' f''. rewrite lookup_insert.
    case_decide; [subst; intros _; eauto|apply Hf]. }
  destruct (FSPolyfill.fcontent f); [apply Hset|].
  destruct buf; [apply Hset|by split].
Qed.

Lemma legacy_wf_write limit fd buf offset len pos s :
  legacy_wf s -> legacy_wf (FSPolyfill.write limit fd buf offset len pos s).2.
Proof.
  intros [Hn Hf]. unfold FSPolyfill.write.
  destruct ((fd =? 1) || (fd =? 2)).
  { unfold FSPolyfill.emit. destruct (FSPolyfill.addConsoleOutput s); by split. }
  destruct (FSPolyfill.fds s !! fd) as [f|] eqn:E; [|by split].
  assert (Hset : forall f', legacy_wf (FSPolyfill.set_fd fd f' s)).
  { intros f'. split; [exact Hn|]. simpl. intros fd' f''. rewrite lookup_insert.
    case_decide; [subst; intros _; eauto|apply Hf]. }
  destruct (FSPolyfill.fcontent f); [|by split].
  destruct (if byteLength b <? _ then _ else _); [|by split].
  destruct (Uint8Array_set _ _ _); simpl; [|apply Hset].
  destruct (Hset (FSPolyfill.mkFile (FSPolyfill.path f) (FSPolyfill.flags f)
                     (FSPolyfill.SnapU8 a0)
                     match pos with Some _ => FSPolyfill.position f
                                  | None => match pos with Some p => p | None => FSPolyfill.position f end + len end))
    as [H1 H2].
  split; assumption.
Qed.

Lemma sdk_wf_open p flags mode s : sdk_wf s -> sdk_wf (SdkFSPolyfill.open p flags mode s).2.
Proof.
  intros [Hn Hf]. unfold SdkFSPolyfill.open.
  destruct (if VirtualFS.exists_ _ _ then _ else _); simpl; [|by split].
  split; simpl; [lia|]. intros fd f. rewrite lookup_insert. case_decide.
  - intros _. subst. lia.
  - intros H'. apply Hf in H'. lia.
Qed.

Lemma sdk_wf_close fd s : sdk_wf s -> sdk_wf (SdkFSPolyfill.close fd s).2.
Proof.
  intros [Hn Hf]. split; [exact Hn|]. simpl. intros fd' f H.
  apply lookup_delete_Some in H as [_ H]. eauto.
Qed.

Lemma sdk_wf_writeSync fd buf s : sdk_wf s -> sdk_wf (SdkFSPolyfill.writeSync fd buf s).2.
Proof.
  intros [Hn Hf]. unfold SdkFSPolyfill.writeSync.
  destruct ((fd =? 1) || (fd =? 2)).
  { unfold SdkFSPolyfill.emit. destruct (SdkFSPolyfill.outputCallback s); by split. }
  destruct (SdkFSPolyfill.fds s !! fd) as [f|] eqn:E; [|by split].
  split; [exact Hn|]. simpl. intros fd' f''. rewrite lookup_insert.
  case_decide; [subst; intros _; eauto|apply Hf].
Qed.

Lemma sdk_wf_write limit fd buf offset len pos s :
  sdk_wf s -> sdk_wf (SdkFSPolyfill.write limit fd buf offset len pos s).2.
Proof.
  intros [Hn Hf]. unfold SdkFSPolyfill.write.
  destruct ((fd =? 1) || (fd =? 2)).
  { unfold SdkFSPolyfill.emit. destruct (SdkFSPolyfill.outputCallback s); by split. }
  destruct (SdkFSPolyfill.fds s !! fd) as [f|] eqn:E; [|by split].
  assert (Hset : forall f', sdk_wf (SdkFSPolyfill.set_fd fd f' s)).
  { intros f'. split; [exact Hn|]. simpl. intros fd' f''. rewrite lookup_insert.
    case_decide; [subst; intros _; eauto|apply Hf]. }
  destruct (if byteLength _ <? _ then _ else _); [|by split].
  destruct (Uint8Array_set _ _ _); simpl; [|apply Hset].
  split; [exact Hn|]. simpl. intros fd' f''. rewrite lookup_insert.
  case_decide; [subst; intros _; eauto|apply Hf].
Qed.

(** *** writeSync *)



Lemma sdk_writeSync_file fd buf s f :
  fd <> 1 -> fd <> 2 -> SdkFSPolyfill.fds s !! fd = Some f ->
  exists s',
    SdkFSPolyfill.writeSync fd buf s = (Ok (byteLength buf), s')
    /\ SdkFSPolyfill.fds s' !! fd
       = Some (SdkFSPolyfill.mkFile (SdkFSPolyfill.path f) (SdkFSPolyfill.flags f)
                 (SdkFSPolyfill.fcontent f ++ buf) (SdkFSPolyfill.position f))
    /\ SdkFSPolyfill.vfs s'
       = VirtualFS.writeFile (SdkFSPolyfill.path f)
           (U8 (SdkFSPolyfill.fcontent f ++ buf)) (SdkFSPolyfill.vfs s)
    /\ VirtualFS.readFile (SdkFSPolyfill.path f) (SdkFSPolyfill.vfs s')
       = Ok (U8 (SdkFSPolyfill.fcontent f ++ buf))
    /\ SdkFSPolyfill.output s' = SdkFSPolyfill.output s.
Proof.
  intros H1 H2 Hf. unfold SdkFSPolyfill.writeSync.
  rewrite file_fd_test, Hf by assumption. eexists. split; [reflexivity|].
  simpl. rewrite lookup_insert_eq. repeat split.
  unfold VirtualFS.readFile, VirtualFS.writeFile. simpl. by rewrite lookup_insert_eq.
Qed.


Lemma sdk_writeSync_badfd fd buf s :
  fd <> 1 -> fd <> 2 -> SdkFSPolyfill.fds s !! fd = None ->
  SdkFSPolyfill.writeSync fd buf s = (Throw EBADF, s).
Proof.
  intros H1 H2 Hf. unfold SdkFSPolyfill.writeSync. by rewrite file_fd_test, Hf.
Qed.


(** *** open *)




Lemma sdk_fresh s : sdk_wf s -> SdkFSPolyfill.fds s !! SdkFSPolyfill.nextFd s = None.
Proof.
  intros [_ Hf]. destruct (SdkFSPolyfill.fds s !! SdkFSPolyfill.nextFd s) eqn:E; [|reflexivity].
  apply Hf in E. lia.
Qed.



(** ** The source hash *)

Lemma str_leb_total a b : str_leb a b = true \/ str_leb b a = true.
Proof.
  revert b. induction a as [|x a IH]; intros [|y b]; simpl; auto.
  destruct (Z.ltb_spec x y), (Z.ltb_spec y x); auto; lia.
Qed.

Lemma str_leb_trans a b c : str_leb a b = true -> str_leb b c = true -> str_leb a c = true.
Proof.
  revert b c. induction a as [|x a IH]; intros [|y b] [|z c]; simpl; auto; try discriminate.
  destruct (Z.ltb_spec x y), (Z.ltb_spec y x), (Z.ltb_spec y z), (Z.ltb_spec z y),
    (Z.ltb_spec x z), (Z.ltb_spec z x); try discriminate; try lia; auto.
  apply IH.
Qed.

Lemma str_leb_antisym a b : str_leb a b = true -> str_leb b a = true -> a = b.
Proof.
  revert b. induction a as [|x a IH]; intros [|y b]; simpl; auto; try discriminate.
  destruct (Z.ltb_spec x y), (Z.ltb_spec y x); try discriminate; try lia.
  intros H1 H2. assert (x = y) by lia. subst. f_equal. by apply IH.
Qed.

#[local] Instance str_le_total : Total str_le.
Proof. intros a b. apply str_leb_total. Qed.

#[local] Instance str_le_trans : Transitive str_le.
Proof. intros a b c. apply str_leb_trans. Qed.

#[local] Instance str_le_antisym : AntiSymm (=) str_le.
Proof. intros a b. apply str_leb_antisym. Qed.

(** Sorting forgets the order the keys came in. *)
Lemma sort_perm (l1 l2 : list jsstring) : l1 ≡ₚ l2 -> sort l1 = sort l2.
Proof.
  intros H. unfold sort. apply (Sorted_unique str_le).
  - apply Sorted_merge_sort, _.
  - apply Sorted_merge_sort, _.
  - by rewrite !merge_sort_Permutation.
Qed.

Lemma Object_get_Some (o : strobj) k v :
  NoDup (Object_keys o) -> (k, v) ∈ o -> Object_get o k = Some v.
Proof.
  unfold Object_keys. induction o as [|[k' v'] o IH]; simpl; intros Hnd Hin.
  - by apply elem_of_nil in Hin.
  - apply NoDup_cons in Hnd as [Hk Hnd]. apply elem_of_cons in Hin as [[= -> ->]|Hin].
    + unfold str_eqb. by rewrite bool_decide_eq_true_2.
    + destruct (str_eqb k' k) eqn:E.
      * apply str_eqb_eq in E. subst k'. exfalso. apply Hk.
        apply list_elem_of_fmap. by exists (k, v).
      * by apply IH.
Qed.

Lemma Object_get_None (o : strobj) k : k ∉ Object_keys o -> Object_get o k = None.
Proof.
  unfold Object_keys. induction o as [|[k' v'] o IH]; simpl; intros Hk; [reflexivity|].
  apply not_elem_of_cons in Hk as [Hne Hk].
  destruct (str_eqb k' k) eqn:E; [apply str_eqb_eq in E; congruence|by apply IH].
Qed.

Lemma Object_get_elem (o : strobj) k v : Object_get o k = Some v -> (k, v) ∈ o.
Proof.
  induction o as [|[k' v'] o IH]; simpl; [discriminate|].
  destruct (str_eqb k' k) eqn:E.
  - apply str_eqb_eq in E. intros [= ->]. subst. apply elem_of_cons. by left.
  - intros H. apply elem_of_cons. right. by apply IH.
Qed.

(** Property access sees the properties, not their order. *)
Lemma Object_get_perm (o1 o2 : strobj) k :
  NoDup (Object_keys o1) -> o1 ≡ₚ o2 -> Object_get o1 k = Object_get o2 k.
Proof.
  intros Hnd Hp.
  assert (Hnd2 : NoDup (Object_keys o2)).
  { unfold Object_keys in *. by rewrite <- Hp. }
  destruct (Object_get o1 k) as [v|] eqn:E1.
  - symmetry. apply Object_get_Some; [assumption|].
    rewrite <- Hp. by apply Object_get_elem.
  - destruct (Object_get o2 k) as [v|] eqn:E2; [|reflexivity].
    apply Object_get_elem in E2. rewrite <- Hp in E2.
    apply Object_get_Some in E2; [congruence|assumption].
Qed.

Lemma JSON_members_perm (o1 o2 : strobj) ks seen :
  NoDup (Object_keys o1) -> o1 ≡ₚ o2 -> JSON_members o1 ks seen = JSON_members o2 ks seen.
Proof.
  intros Hnd Hp. revert seen. induction ks as [|k ks IH]; intros seen; simpl; [reflexivity|].
  rewrite (Object_get_perm o1 o2 k Hnd Hp).
  destruct (bool_decide _); [apply IH|]. destruct (Object_get o2 k); by rewrite IH.
Qed.

Lemma source_hash_perm (o1 o2 : strobj) :
  NoDup (Object_keys o1) -> o1 ≡ₚ o2 ->
  JSON_stringify o1 (sort (Object_keys o1)) = JSON_stringify o2 (sort (Object_keys o2)).
Proof.
  intros Hnd Hp. unfold JSON_stringify.
  rewrite (sort_perm (Object_keys o1) (Object_keys o2)).
  - by rewrite (JSON_members_perm o1 o2).
  - unfold Object_keys. by rewrite Hp.
Qed.

(** Every member of the JSON text carries its quoted key and value. *)
Lemma sorted_keys_sorted (o : strobj) : Sorted str_le (sort (Object_keys o)).
Proof. apply Sorted_merge_sort, _. Qed.

Lemma JSON_members_nodup (o : strobj) ks seen :
  NoDup ks -> (forall k, k ∈ ks -> k ∉ seen) ->
  (forall k, k ∈ ks -> k ∈ Object_keys o) ->
  NoDup (Object_keys o) ->
  JSON_members o ks seen = JSON_member o <$> ks.
Proof.
  intros Hnd. revert seen. induction Hnd as [|k ks Hk Hnd IH]; intros seen Hseen Hkeys Hno;
    [reflexivity|]. simpl.
  rewrite bool_decide_eq_false_2 by (apply Hseen, elem_of_cons; by left).
  assert (Hin : k ∈ Object_keys o) by (apply Hkeys, elem_of_cons; by left).
  apply list_elem_of_fmap in Hin as ([k' v] & -> & Hin). simpl.
  unfold JSON_member at 1. rewrite (Object_get_Some o k' v Hno Hin). simpl. f_equal.
  apply IH; [|by intros; apply Hkeys, elem_of_cons; right|assumption].
  intros k Hin'. rewrite not_elem_of_cons. split.
  - intros ->. contradiction.
  - apply Hseen, elem_of_cons. by right.
Qed.

Lemma canonical_form (o : strobj) :
  NoDup (Object_keys o) ->
  JSON_stringify o (sort (Object_keys o))
  = 123 :: join_comma (JSON_member o <$> sort (Object_keys o)) ++ [125].
Proof.
  intros Hnd. unfold JSON_stringify. f_equal. f_equal. f_equal.
  assert (Hp : sort (Object_keys o) ≡ₚ Object_keys o) by apply merge_sort_Permutation.
  apply JSON_members_nodup; [by rewrite Hp| |by intros k; rewrite Hp|assumption].
  intros k _. apply not_elem_of_nil.
Qed.

(** C9 (as amended).  [generateSourceHash] does not depend on the order in
    which the files were inserted: two objects holding the same
    path-to-content pairs hash alike.  What is hashed is the JSON text
    [{"path":"content",...}], the members in ascending order of their paths
    (code-unit order), paths and contents JSON-quoted, not length-prefixed. *)
Theorem source_hash_deterministic (o1 o2 : strobj) :
  NoDup (Object_keys o1) ->
  o1 ≡ₚ o2 ->
  CacheManager.generateSourceHash o1 = CacheManager.generateSourceHash o2
  /\ CacheManager.generateSourceHash o1
     = CacheManager.simpleHash
         (123 :: join_comma (JSON_member o1 <$> sort (Object_keys o1)) ++ [125])
  /\ Sorted str_le (sort (Object_keys o1))
  /\ sort (Object_keys o1) ≡ₚ Object_keys o1.
Proof.
  intros Hnd Hp. unfold CacheManager.generateSourceHash. repeat split.
  - by rewrite (source_hash_perm o1 o2).
  - by rewrite canonical_form.
  - apply sorted_keys_sorted.
  - apply merge_sort_Permutation.
Qed.

Lemma source_hash_deterministic_witness :
  CacheManager.generateSourceHash [(lit "main.go", lit "package main"); (lit "a.go", lit "package a")]
  = CacheManager.generateSourceHash [(lit "a.go", lit "package a"); (lit "main.go", lit "package main")].
Proof.
  apply (source_hash_deterministic
           [(lit "main.go", lit "package main"); (lit "a.go", lit "package a")]
           [(lit "a.go", lit "package a"); (lit "main.go", lit "package main")]).
  - apply (bool_decide_unpack _). vm_compute. reflexivity.
  - apply perm_swap.
Defined.

(** C9, as stated, fails in its description of the canonical form: for the
    single file [a] holding [b] the hashed text is [{"a":"b"}], which is not
    a length-prefixed form under any encoding of lengths (such a form ends
    with the content bytes). *)
Lemma source_hash_deterministic_counterexample :
  JSON_stringify [(lit "a", lit "b")] (sort (Object_keys [(lit "a", lit "b")]))
  = [123; 34; 97; 34; 58; 34; 98; 34; 125]
  /\ ~ (exists prefix : Z -> jsstring,
          JSON_stringify [(lit "a", lit "b")] (sort (Object_keys [(lit "a", lit "b")]))
          = length_prefixed_form prefix [(lit "a", lit "b")]).
Proof.
  split; [vm_compute; reflexivity|].
  intros [prefix H]. apply (f_equal (@last Z)) in H. revert H.
  change (JSON_stringify _ _) with [123; 34; 97; 34; 58; 34; 98; 34; 125].
  change (length_prefixed_form prefix [(lit "a", lit "b")])
    with ((prefix 1 ++ [97] ++ prefix 1 ++ [98]) ++ []).
  rewrite app_nil_r, !app_assoc, last_snoc. discriminate.
Qed.

(** ** Bytes *)

Lemma byte_to_Z_range b : 0 <= byte_to_Z b < 256.
Proof.
  unfold byte_to_Z. pose proof (Byte.to_N_bounded b). lia.
Qed.

Lemma byte_to_Z_inj b1 b2 : byte_to_Z b1 = byte_to_Z b2 -> b1 = b2.
Proof.
  unfold byte_to_Z. intros H. apply N2Z.inj in H.
  pose proof (Byte.of_to_N b1) as H1. rewrite H, Byte.of_to_N in H1. congruence.
Qed.

Lemma fmap_byte_to_Z_inj (l1 l2 : bytes) :
  byte_to_Z <$> l1 = byte_to_Z <$> l2 -> l1 = l2.
Proof.
  revert l2. induction l1 as [|b l1 IH]; intros [|c l2]; simpl; try discriminate; auto.
  intros [= H1 H2]. f_equal; [by apply byte_to_Z_inj|by apply IH].
Qed.

Lemma byteLength_nonneg buf : 0 <= byteLength buf.
Proof. unfold byteLength. lia. Qed.

Lemma sub_bytes_length buf off n :
  0 <= off -> 0 <= n -> off + n <= byteLength buf ->
  byteLength (sub_bytes buf off n) = n.
Proof.
  unfold byteLength, sub_bytes. intros. rewrite length_take, length_drop. lia.
Qed.

Lemma le_uint_nonneg bs : 0 <= le_uint bs.
Proof.
  induction bs as [|b bs IH]; simpl; [lia|]. pose proof (byte_to_Z_range b). lia.
Qed.

Lemma le_uint_bound bs : le_uint bs < 256 ^ byteLength bs.
Proof.
  unfold byteLength. induction bs as [|b bs IH]; [simpl; lia|].
  cbn [le_uint length]. rewrite Nat2Z.inj_succ, Z.pow_succ_r by lia.
  pose proof (byte_to_Z_range b). lia.
Qed.

Lemma round_double_small z : z < 2 ^ 53 -> round_double z = z.
Proof.
  intros H. unfold round_double. destruct (Z.ltb_spec z (2 ^ 53)); [reflexivity|lia].
Qed.

(** ** The decoder on ASCII *)

Lemma in_range_spec lo hi b : in_range lo hi b = true <-> lo <= byte_to_Z b <= hi.
Proof. unfold in_range. rewrite andb_true_iff, !Z.leb_le. reflexivity. Qed.

Ltac head_not_ascii :=
  match goal with
  | H : Forall _ (_ :: _) |- _ =>
      apply Forall_cons in H as [? _]; unfold replacement in *; exfalso; lia
  end.

(** A decoded text made of ASCII alone comes from those very bytes. *)
Lemma utf8_decode_ascii_n (n : nat) (bs : bytes) :
  (length bs <= n)%nat ->
  Forall (fun c => c < 128) (utf8_decode bs) ->
  utf8_decode bs = byte_to_Z <$> bs.
Proof.
  revert bs. induction n as [|n IH]; intros bs Hlen Hall.
  { destruct bs; [reflexivity|simpl in Hlen; lia]. }
  destruct bs as [|b r1]; [reflexivity|].
  cbn [utf8_decode] in *. cbv zeta in *. simpl in Hlen.
  pose proof (byte_to_Z_range b) as Hb.
  destruct (Z.ltb_spec (byte_to_Z b) 128) as [Hlt|Hge].
  { apply Forall_cons in Hall as [_ Hall]. cbn [fmap list_fmap]. f_equal.
    apply IH; [lia|assumption]. }
  exfalso.
  destruct ((194 <=? byte_to_Z b) && (byte_to_Z b <=? 223)) eqn:E2.
  { apply andb_true_iff in E2 as [E2a E2b]. apply Z.leb_le in E2a, E2b.
    destruct r1 as [|c1 r2]; [head_not_ascii|].
    destruct (in_range 128 191 c1) eqn:R1; [|head_not_ascii].
    apply in_range_spec in R1. apply Forall_cons in Hall as [? _]. lia. }
  destruct ((224 <=? byte_to_Z b) && (byte_to_Z b <=? 239)) eqn:E3.
  { apply andb_true_iff in E3 as [E3a E3b]. apply Z.leb_le in E3a, E3b.
    destruct r1 as [|c1 r2]; [head_not_ascii|].
    destruct (in_range _ _ c1) eqn:R1; [|head_not_ascii].
    destruct r2 as [|c2 r3]; [head_not_ascii|].
    destruct (in_range 128 191 c2) eqn:R2; [|head_not_ascii].
    apply in_range_spec in R1, R2. apply Forall_cons in Hall as [Hh _].
    destruct (Z.eqb_spec (byte_to_Z b) 224); lia. }
  destruct ((240 <=? byte_to_Z b) && (byte_to_Z b <=? 244)) eqn:E4.
  { apply andb_true_iff in E4 as [E4a E4b]. apply Z.leb_le in E4a, E4b.
    destruct r1 as [|c1 r2]; [head_not_ascii|].
    destruct (in_range _ _ c1) eqn:R1; [|head_not_ascii].
    destruct r2 as [|c2 r3]; [head_not_ascii|].
    destruct (in_range 128 191 c2) eqn:R2; [|head_not_ascii].
    destruct r3 as [|c3 r4]; [head_not_ascii|].
    destruct (in_range 128 191 c3) eqn:R3; [|head_not_ascii].
    apply in_range_spec in R1, R2, R3. apply Forall_cons in Hall as [Hh _].
    destruct (Z.eqb_spec (byte_to_Z b) 240); lia. }
  head_not_ascii.
Qed.

Lemma utf8_decode_ascii (bs : bytes) :
  Forall (fun c => c < 128) (utf8_decode bs) -> utf8_decode bs = byte_to_Z <$> bs.
Proof. apply (utf8_decode_ascii_n (length bs)). lia. Qed.

(** The decoder yields at most one code point per byte. *)
Lemma utf8_decode_length_n (n : nat) (bs : bytes) :
  (length bs <= n)%nat -> (length (utf8_decode bs) <= length bs)%nat.
Proof.
  revert bs. induction n as [|n IH]; intros bs Hlen.
  { destruct bs; [simpl; lia|simpl in Hlen; lia]. }
  destruct bs as [|b r1]; [simpl; lia|].
  cbn [utf8_decode]. cbv zeta. simpl in Hlen.
  assert (H1 : (length (utf8_decode r1) <= length r1)%nat) by (apply IH; lia).
  destruct (_ <? 128); [simpl; lia|].
  destruct (_ && _).
  { destruct r1 as [|c1 r2]; [simpl; lia|]. simpl in Hlen.
    assert (H2 : (length (utf8_decode r2) <= length r2)%nat) by (apply IH; lia).
    destruct (in_range _ _ c1); simpl in *; lia. }
  destruct (_ && _).
  { destruct r1 as [|c1 r2]; [simpl; lia|]. simpl in Hlen.
    assert (H2 : (length (utf8_decode r2) <= length r2)%nat) by (apply IH; lia).
    destruct (in_range _ _ c1); [|simpl in *; lia].
    destruct r2 as [|c2 r3]; [simpl; lia|]. simpl in Hlen.
    assert (H3 : (length (utf8_decode r3) <= length r3)%nat) by (apply IH; lia).
    destruct (in_range _ _ c2); simpl in *; lia. }
  destruct (_ && _).
  { destruct r1 as [|c1 r2]; [simpl; lia|]. simpl in Hlen.
    assert (H2 : (length (utf8_decode r2) <= length r2)%nat) by (apply IH; lia).
    destruct (in_range _ _ c1); [|simpl in *; lia].
    destruct r2 as [|c2 r3]; [simpl; lia|]. simpl in Hlen.
    assert (H3 : (length (utf8_decode r3) <= length r3)%nat) by (apply IH; lia).
    destruct (in_range _ _ c2); [|simpl in *; lia].
    destruct r3 as [|c3 r4]; [simpl; lia|]. simpl in Hlen.
    assert (H4 : (length (utf8_decode r4) <= length r4)%nat) by (apply IH; lia).
    destruct (in_range _ _ c3); simpl in *; lia. }
  simpl; lia.
Qed.

Lemma utf8_decode_length (bs : bytes) : (length (utf8_decode bs) <= length bs)%nat.
Proof. by apply (utf8_decode_length_n (length bs)). Qed.

Lemma code_units_ascii (cps : list Z) :
  Forall (fun c => c < 128) (flat_map code_units cps) -> flat_map code_units cps = cps.
Proof.
  induction cps as [|c cps IH]; [reflexivity|]. cbn [flat_map]. unfold code_units at 1 3.
  destruct (Z.ltb_spec c 65536) as [Hlt|Hge]; cbn [app]; intros H.
  - apply Forall_cons in H as [_ Ht]. f_equal. by apply IH.
  - apply Forall_cons in H as [Hh _]. exfalso.
    assert (0 <= (c - 65536) / 1024) by (apply Z.div_pos; lia). lia.
Qed.

(** Eight bytes decode to [GOSCRIPT] exactly when they are its ASCII codes. *)
Lemma decode_magic (bs : bytes) :
  length bs = 8%nat -> (TextDecoder_decode bs = GOSCRIPT <-> bs = magic_bytes).
Proof.
  intros Hlen. split; [|intros ->; reflexivity].
  unfold TextDecoder_decode. intros H.
  assert (Hascii : Forall (fun c => c < 128) GOSCRIPT).
  { vm_compute. repeat constructor. }
  assert (Hall : Forall (fun c => c < 128) (flat_map code_units (strip_bom (utf8_decode bs))))
    by (by rewrite H).
  rewrite (code_units_ascii _ Hall) in H.
  pose proof (utf8_decode_length bs) as Hl.
  destruct (utf8_decode bs) as [|c cps] eqn:E; [discriminate|].
  unfold strip_bom in H. destruct (Z.eqb_spec c 65279) as [->|Hc].
  - subst cps. simpl in Hl. lia.
  - assert (Hd : utf8_decode bs = byte_to_Z <$> bs).
    { apply utf8_decode_ascii. by rewrite E, H. }
    apply fmap_byte_to_Z_inj. by rewrite <- Hd, E, H.
Qed.

(** ** The two pack parsers agree *)

Ltac unfold_monad :=
  unfold mbind, mret, M_bind, M_ret, result_bind, result_ret, fmap, result_fmap,
    lift, get, modify, throw in *.

(** Every bounds-checked read fails with a RangeError, the JSON parser with a
    SyntaxError. *)
Lemma DataView_get_throw w buf pos e : DataView_get w buf pos = Throw e -> e = RangeError.
Proof. unfold DataView_get. destruct (_ && _); congruence. Qed.

Lemma view_throw buf off n e : Uint8Array_view buf off n = Throw e -> e = RangeError.
Proof. unfold Uint8Array_view. destruct (_ && _); congruence. Qed.


Lemma sdk_parse_index_throw buf ds n pos idx e :
  SdkPack.parse_index buf ds n pos idx = Throw e -> e = RangeError.
Proof.
  revert pos idx. induction n as [|n IH]; intros pos idx; [discriminate|].
  cbn [SdkPack.parse_index]. unfold getUint16, getUint32, getBigUint64. unfold_monad.
  destruct (DataView_get 2 buf pos) eqn:E1; [|intros [= <-]; eapply DataView_get_throw, E1].
  destruct (Uint8Array_view _ _ _) eqn:E2; [|intros [= <-]; eapply view_throw, E2].
  destruct (DataView_get 8 _ _) eqn:E3; [|intros [= <-]; eapply DataView_get_throw, E3].
  destruct (DataView_get 4 _ _) eqn:E4; [|intros [= <-]; eapply DataView_get_throw, E4].
  apply IH.
Qed.

(** Case analysis on the next bounds-checked read, the failing case closed
    by [tac]. *)
Ltac next_read tac :=
  match goal with
  | |- context [DataView_get ?w ?b ?o] =>
      destruct (DataView_get w b o) eqn:?; [|solve [tac]]
  | |- context [Uint8Array_view ?b ?o ?n] =>
      destruct (Uint8Array_view b o n) eqn:?; [|solve [tac]]
  | |- context [JSON_parse ?t] =>
      destruct (JSON_parse t) eqn:?; [|solve [tac]]
  end.

Lemma parse_index_agree buf ds n pos l :
  match SdkPack.parse_index buf ds n pos (ToolchainLoader.packageIndex l) with
  | Ok idx => ToolchainLoader.parse_index buf ds n pos l = (Ok tt, with_index idx l)
  | Throw e => (ToolchainLoader.parse_index buf ds n pos l).1 = Throw e
  end.
Proof.
  revert pos l. induction n as [|n IH]; intros pos l.
  - simpl. by destruct l.
  - cbn [SdkPack.parse_index ToolchainLoader.parse_index].
    unfold getUint16, getUint32, getBigUint64. unfold_monad.
    repeat next_read ltac:(simpl; reflexivity).
    exact (IH _ (ToolchainLoader.set_package _ _ l)).
Qed.

(** [parseToolchain] and [_parseToolchainPack] read the same fields and fail
    together; they part only on a package-name section holding [null], where
    the loader's log line throws. *)
Lemma parse_agree buf :
  match SdkPack._parseToolchainPack buf with
  | Ok p =>
      if is_null (SdkPack.packageNames p)
      then (ToolchainLoader.parseToolchain
              (ToolchainLoader.set_packData buf ToolchainLoader.new)).1 = Throw TypeError
      else ToolchainLoader.parseToolchain
             (ToolchainLoader.set_packData buf ToolchainLoader.new)
           = (Ok tt, loaded_from p)
  | Throw e =>
      (ToolchainLoader.parseToolchain
         (ToolchainLoader.set_packData buf ToolchainLoader.new)).1 = Throw e
      \/ ((ToolchainLoader.parseToolchain
             (ToolchainLoader.set_packData buf ToolchainLoader.new)).1 = Throw TypeError
          /\ e = RangeError)
  end.
Proof.
  unfold SdkPack._parseToolchainPack, ToolchainLoader.parseToolchain.
  unfold getUint32, getBigUint64. unfold_monad.
  cbn [ToolchainLoader.packData ToolchainLoader.set_packData ToolchainLoader.new].
  next_read ltac:(simpl; auto).
  destruct (negb (str_eqb (TextDecoder_decode a) GOSCRIPT)); [by left|].
  next_read ltac:(simpl; auto).
  destruct (negb (a0 =? 2)); [by left|].
  repeat next_read ltac:(simpl; auto).
  match goal with j : json |- _ => destruct j end; simpl.
  all: repeat next_read ltac:(simpl; eauto using DataView_get_throw, view_throw).
  all: match goal with
       | |- context [ToolchainLoader.parse_index ?b ?d ?n ?p ?l] =>
           pose proof (parse_index_agree b d n p l) as Hidx; simpl in Hidx
       | |- _ => idtac
       end.
  all: destruct (SdkPack.parse_index _ _ _ _ _) eqn:Hsdk; simpl;
       try reflexivity; eauto using sdk_parse_index_throw;
       try (rewrite Hidx; reflexivity); try (rewrite Hidx; auto).
Qed.

(** ** A valid pack parses to its declared ranges *)

Lemma field_get w pack pos v : field w pack pos v -> DataView_get w pack pos = Ok v.
Proof.
  intros (H0 & H1 & <-). unfold DataView_get.
  destruct (Z.leb_spec 0 pos); [|lia].
  destruct (Z.leb_spec (pos + w) (byteLength pack)); [reflexivity|lia].
Qed.

Lemma field_range w pack pos v : 0 <= w -> field w pack pos v -> 0 <= v < 256 ^ w.
Proof.
  intros Hw (H0 & H1 & <-). split; [apply le_uint_nonneg|].
  pose proof (le_uint_bound (sub_bytes pack pos w)) as Hb.
  rewrite sub_bytes_length in Hb; lia.
Qed.

Lemma view_in_range pack off n :
  0 <= off -> 0 <= n -> off + n <= byteLength pack ->
  Uint8Array_view pack off n = Ok (sub_bytes pack off n).
Proof.
  intros. unfold Uint8Array_view.
  destruct (Z.leb_spec 0 off); [|lia]. destruct (Z.leb_spec 0 n); [|lia].
  destruct (Z.leb_spec (off + n) (byteLength pack)); [reflexivity|lia].
Qed.

Lemma view_out_of_range pack off n :
  byteLength pack < off + n -> Uint8Array_view pack off n = Throw RangeError.
Proof.
  intros. unfold Uint8Array_view.
  destruct (Z.leb_spec (off + n) (byteLength pack)); [lia|]. by rewrite andb_false_r.
Qed.

Lemma slice_in_range pack off n :
  0 <= off -> 0 <= n -> off + n <= byteLength pack ->
  ArrayBuffer_slice pack off (off + n) = sub_bytes pack off n.
Proof.
  intros. unfold ArrayBuffer_slice. f_equal; lia.
Qed.

Lemma Map_get_set {V} k k' (v : V) m :
  Map_get k (Map_set k' v m) = if str_eqb k' k then Some v else Map_get k m.
Proof.
  induction m as [|[k0 v0] m IH]; simpl.
  - reflexivity.
  - destruct (str_eqb k0 k') eqn:E; simpl.
    + apply str_eqb_eq in E. subst k0. by destruct (str_eqb k' k).
    + destruct (str_eqb k0 k) eqn:E2; [|exact IH].
      destruct (str_eqb k' k) eqn:E3; [|reflexivity].
      apply str_eqb_eq in E2, E3. apply str_eqb_neq in E. congruence.
Qed.

Lemma file_all_cons ds e es idx :
  file_all ds (e :: es) idx = file_all ds es (Map_set (entry_name e) (filed ds e) idx).
Proof. reflexivity. Qed.

Lemma parse_index_spec pack ds pos es :
  index_at pack pos es ->
  forall idx, SdkPack.parse_index pack ds (length es) pos idx = Ok (file_all ds es idx).
Proof.
  induction 1 as [|pos nameLen e es Hlen Hfit Hname Hoff Hsize _ IH]; intros idx;
    [reflexivity|].
  cbn [length SdkPack.parse_index]. unfold getUint16, getBigUint64, getUint32.
  rewrite (field_get _ _ _ _ Hlen). cbn [mbind result_bind].
  pose proof (field_range 2 _ _ _ ltac:(lia) Hlen) as Rn.
  destruct Hlen as (Hp & _ & _).
  rewrite view_in_range by lia. cbn [mbind result_bind].
  rewrite (field_get _ _ _ _ Hoff). cbn [mbind result_bind fmap result_fmap].
  rewrite (field_get _ _ _ _ Hsize). cbn [mbind result_bind].
  rewrite IH, file_all_cons. unfold filed, entry_name. by rewrite Hname.
Qed.

Lemma file_all_other ds es idx k :
  (forall e, e ∈ es -> entry_name e <> k) ->
  Map_get k (file_all ds es idx) = Map_get k idx.
Proof.
  revert idx. induction es as [|e es IH]; intros idx Hne; [reflexivity|].
  rewrite file_all_cons.
  rewrite IH by (intros; apply Hne, elem_of_cons; by right).
  rewrite Map_get_set. destruct (str_eqb _ _) eqn:E; [|reflexivity].
  apply str_eqb_eq in E. exfalso. eapply Hne; [|exact E]. apply elem_of_cons. by left.
Qed.

(** [Map.set] keeps the last entry filed under a name. *)
Lemma file_all_last ds es idx i e :
  last_of_its_name es i e ->
  Map_get (entry_name e) (file_all ds es idx) = Some (filed ds e).
Proof.
  intros [Hi Hlast]. revert idx i Hi Hlast.
  induction es as [|e0 es IH]; intros idx i Hi Hlast; [by rewrite lookup_nil in Hi|].
  rewrite file_all_cons.
  destruct i as [|i].
  - injection Hi as ->. rewrite file_all_other.
    + rewrite Map_get_set. unfold str_eqb. by rewrite bool_decide_eq_true_2.
    + intros e' Hin. apply list_elem_of_lookup in Hin as [j Hj].
      apply (Hlast (S j)); [lia|exact Hj].
  - apply (IH _ i); [exact Hi|]. intros j e' Hlt Hj. apply (Hlast (S j)); [lia|exact Hj].
Qed.

Lemma take8_view pack :
  take 8 pack = magic_bytes -> Uint8Array_view pack 0 8 = Ok magic_bytes.
Proof.
  intros H. assert (8 <= byteLength pack).
  { unfold byteLength. apply (f_equal length) in H. rewrite length_take in H.
    change (length magic_bytes) with 8%nat in H. lia. }
  rewrite view_in_range by lia. change (sub_bytes pack 0 8) with (take 8 pack). by rewrite H.
Qed.

(** What the SDK's parser returns on a valid pack. *)
Lemma sdk_parse_well_formed pack ly :
  well_formed_pack pack ly ->
  SdkPack._parseToolchainPack pack
  = Ok (SdkPack.mk pack (sub_bytes pack 16 (L1 ly)) (sub_bytes pack (20 + L1 ly) (L2 ly))
          (JArray (names ly)) (file_all (data_start ly) (entries ly) []) (data_start ly)).
Proof.
  intros (Hlen & Hmagic & Hver & H1 & F1 & H2 & F2 & H3 & F3 & Hjson & Hn & Hix & Hidx).
  pose proof (field_range 4 _ _ _ ltac:(lia) H1) as R1.
  pose proof (field_range 4 _ _ _ ltac:(lia) H2) as R2.
  pose proof (field_range 4 _ _ _ ltac:(lia) H3) as R3.
  pose proof (field_range 8 _ _ _ ltac:(lia) Hix) as Rix.
  unfold SdkPack._parseToolchainPack, getUint32, getBigUint64.
  rewrite (take8_view _ Hmagic). cbn [fmap result_fmap mbind result_bind].
  change (TextDecoder_decode magic_bytes) with GOSCRIPT.
  unfold str_eqb at 1. rewrite bool_decide_eq_true_2 by reflexivity. cbn [negb].
  change (0 + 8) with 8. rewrite (field_get _ _ _ _ Hver). cbn [mbind result_bind].
  change (negb (2 =? 2)) with false. cbv iota.
  change (8 + 4) with 12. rewrite (field_get _ _ _ _ H1). cbn [mbind result_bind].
  replace (12 + 4) with 16 by lia. rewrite (field_get _ _ _ _ H2). cbn [mbind result_bind].
  replace (16 + L1 ly + 4 + L2 ly) with (20 + L1 ly + L2 ly) by lia.
  rewrite (field_get _ _ _ _ H3). cbn [mbind result_bind].
  replace (20 + L1 ly + L2 ly + 4) with (24 + L1 ly + L2 ly) by lia.
  rewrite view_in_range by lia. cbn [mbind result_bind]. rewrite Hjson.
  cbn [mbind result_bind].
  replace (24 + L1 ly + L2 ly + L3 ly) with (24 + L1 ly + L2 ly + L3 ly) by lia.
  rewrite (field_get _ _ _ _ Hn). cbn [mbind result_bind].
  replace (24 + L1 ly + L2 ly + L3 ly + 4) with (28 + L1 ly + L2 ly + L3 ly) by lia.
  rewrite (field_get _ _ _ _ Hix). cbn [mbind result_bind fmap result_fmap].
  rewrite Nat2Z.id.
  replace (28 + L1 ly + L2 ly + L3 ly + 8) with (data_start ly) by (unfold data_start; lia).
  assert (Hsmall : Ix ly < 2 ^ 53 \/ entries ly = []).
  { destruct Hidx as [|pos nameLen e es (_ & Hle & _) _ _ _ _ _]; [by right|left]. lia. }
  assert (Hparse : SdkPack.parse_index pack (data_start ly) (length (entries ly))
                     (Number_of_BigInt (Ix ly)) []
                   = Ok (file_all (data_start ly) (entries ly) [])).
  { destruct Hsmall as [Hs|Hs].
    - unfold Number_of_BigInt. rewrite round_double_small by exact Hs.
      by apply parse_index_spec.
    - rewrite Hs. reflexivity. }
  rewrite Hparse. cbn [mbind result_bind].
  replace (16 + L1 ly + 4) with (20 + L1 ly) by lia.
  rewrite !slice_in_range by lia. reflexivity.
Qed.

Lemma loader_parse_well_formed pack ly :
  well_formed_pack pack ly ->
  ToolchainLoader.parseToolchain (ToolchainLoader.set_packData pack ToolchainLoader.new)
  = (Ok tt,
     ToolchainLoader.mk (Some pack) (Some (sub_bytes pack 16 (L1 ly)))
       (Some (sub_bytes pack (20 + L1 ly) (L2 ly)))
       (file_all (data_start ly) (entries ly) []) (JArray (names ly)) false
       (data_start ly)).
Proof.
  intros H. pose proof (parse_agree pack) as Ha.
  rewrite (sdk_parse_well_formed pack ly H) in Ha. exact Ha.
Qed.

Lemma index_at_ranges pack pos es :
  index_at pack pos es -> Forall (fun e => 0 <= e_offset e /\ 0 <= e_size e) es.
Proof.
  induction 1 as [|pos nameLen e es _ _ _ Hoff Hsize _ IH]; constructor; [|exact IH].
  pose proof (field_range 8 _ _ _ ltac:(lia) Hoff).
  pose proof (field_range 4 _ _ _ ltac:(lia) Hsize). lia.
Qed.

(** On a valid pack the offsets are small enough to be exact as Numbers. *)
Lemma filed_exact pack ly e :
  well_formed_pack pack ly -> e ∈ entries ly -> archive_inside pack ly e ->
  filed (data_start ly) e = mkEntry (data_start ly + e_offset e) (e_size e)
  /\ 0 <= data_start ly + e_offset e /\ 0 <= e_size e.
Proof.
  intros Hwf Hin Hr.
  destruct Hwf as (Hlen & _ & _ & H1 & _ & H2 & _ & H3 & _ & _ & _ & _ & Hidx).
  pose proof (field_range 4 _ _ _ ltac:(lia) H1).
  pose proof (field_range 4 _ _ _ ltac:(lia) H2).
  pose proof (field_range 4 _ _ _ ltac:(lia) H3).
  pose proof (index_at_ranges _ _ _ Hidx) as Hrs. rewrite Forall_forall in Hrs.
  destruct (Hrs e Hin) as [Ho Hs]. unfold archive_inside, data_start in *.
  unfold filed, Number_add, Number_of_BigInt.
  rewrite !round_double_small by (try rewrite round_double_small; lia).
  repeat split; lia.
Qed.

Lemma sample_well_formed size :
  0 <= size < 2 ^ 32 -> le_uint (le_bytes 4 size) = size ->
  well_formed_pack (sample_pack_with size) (sample_layout_with size).
Proof.
  intros Hs Hle. unfold well_formed_pack, field.
  change (byteLength (sample_pack_with size)) with 64.
  repeat (split; [first [lia | reflexivity | by vm_compute]|]).
  cbn [Ix entries sample_layout_with].
  assert (Hl : byteLength (sample_pack_with size) = 64) by reflexivity.
  apply index_at_cons with (nameLen := 3); unfold field; rewrite ?Hl.
  - split; [lia|split; [lia|reflexivity]].
  - lia.
  - reflexivity.
  - split; [lia|split; [lia|reflexivity]].
  - split; [lia|split; [lia|exact Hle]].
  - apply index_at_nil.
Qed.

Lemma sample_valid : valid_pack sample_pack sample_layout.
Proof.
  split; [apply sample_well_formed; [lia|reflexivity]|].
  repeat constructor. vm_compute. discriminate.
Qed.

(** C2.  For every valid pack, parsing succeeds and the loader's
    [getCompilerWasm()], [getLinkerWasm()] and [getPackage(n)] return exactly
    the byte ranges the header and the index declare ([n] names the last
    index entry filed under that name, since [Map.set] replaces); the SDK's
    [_parseToolchainPack] returns the same blobs and an index whose entries
    view the same ranges. *)
Theorem pack_round_trip (pack : bytes) (ly : pack_layout) :
  valid_pack pack ly ->
  (exists l,
      ToolchainLoader.parseToolchain
        (ToolchainLoader.set_packData pack ToolchainLoader.new) = (Ok tt, l)
      /\ ToolchainLoader.getCompilerWasm l = Some (sub_bytes pack 16 (L1 ly))
      /\ ToolchainLoader.getLinkerWasm l = Some (sub_bytes pack (20 + L1 ly) (L2 ly))
      /\ forall i e, last_of_its_name (entries ly) i e ->
           ToolchainLoader.getPackage (entry_name e) l
           = Ok (Some (declared_archive pack ly e)))
  /\ (exists p,
         SdkPack._parseToolchainPack pack = Ok p
         /\ SdkPack.compilerWasm p = sub_bytes pack 16 (L1 ly)
         /\ SdkPack.linkerWasm p = sub_bytes pack (20 + L1 ly) (L2 ly)
         /\ forall i e, last_of_its_name (entries ly) i e ->
              exists en,
                Map_get (entry_name e) (SdkPack.packageIndex p) = Some en
                /\ Uint8Array_view (SdkPack.packData p) (offset en) (size en)
                   = Ok (declared_archive pack ly e))
  /\ byteLength (sub_bytes pack 16 (L1 ly)) = L1 ly
  /\ byteLength (sub_bytes pack (20 + L1 ly) (L2 ly)) = L2 ly
  /\ Forall (fun e => byteLength (declared_archive pack ly e) = e_size e) (entries ly).
Proof.
  intros [Hwf Hin].
  assert (Harchive : forall i e, last_of_its_name (entries ly) i e ->
            Map_get (entry_name e) (file_all (data_start ly) (entries ly) [])
            = Some (mkEntry (data_start ly + e_offset e) (e_size e))
            /\ Uint8Array_view pack (data_start ly + e_offset e) (e_size e)
               = Ok (declared_archive pack ly e)).
  { intros i e Hlast. rewrite (file_all_last _ _ _ i e Hlast).
    assert (He : e ∈ entries ly) by (eapply list_elem_of_lookup_2, Hlast).
    rewrite Forall_forall in Hin.
    destruct (filed_exact pack ly e Hwf He (Hin e He)) as (-> & Ho & Hs).
    split; [reflexivity|]. apply view_in_range; [lia|lia|apply Hin, He]. }
  split; [|split; [|split; [|split]]].
  - eexists. split; [apply (loader_parse_well_formed pack ly Hwf)|].
    split; [reflexivity|]. split; [reflexivity|].
    intros i e Hlast. destruct (Harchive i e Hlast) as [Hget Hview].
    unfold ToolchainLoader.getPackage. cbn [ToolchainLoader.packageIndex ToolchainLoader.packData].
    rewrite Hget. cbn [offset size]. by rewrite Hview.
  - eexists. split; [apply (sdk_parse_well_formed pack ly Hwf)|].
    split; [reflexivity|]. split; [reflexivity|].
    intros i e Hlast. destruct (Harchive i e Hlast) as [Hget Hview].
    eexists. split; [exact Hget|exact Hview].
  - destruct Hwf as (_ & _ & _ & H1 & F1 & _).
    pose proof (field_range 4 _ _ _ ltac:(lia) H1). apply sub_bytes_length; lia.
  - destruct Hwf as (_ & _ & _ & H1 & F1 & H2 & F2 & _).
    pose proof (field_range 4 _ _ _ ltac:(lia) H1).
    pose proof (field_range 4 _ _ _ ltac:(lia) H2). apply sub_bytes_length; lia.
  - apply Forall_forall. intros e He. rewrite Forall_forall in Hin.
    destruct (filed_exact pack ly e Hwf He (Hin e He)) as (_ & Ho & Hs).
    apply sub_bytes_length; [lia|lia|apply Hin, He].
Qed.

Lemma pack_round_trip_witness :
  exists l,
    ToolchainLoader.parseToolchain
      (ToolchainLoader.set_packData sample_pack ToolchainLoader.new) = (Ok tt, l)
    /\ ToolchainLoader.getCompilerWasm l = Some [x01; x02; x03]
    /\ ToolchainLoader.getLinkerWasm l = Some [x04; x05]
    /\ ToolchainLoader.getPackage (lit "fmt") l = Ok (Some [x0b; x0c]).
Proof.
  destruct (pack_round_trip sample_pack sample_layout sample_valid)
    as ((l & Hparse & Hc & Hl & Hp) & _).
  exists l. split; [exact Hparse|]. split; [exact Hc|]. split; [exact Hl|].
  apply (Hp 0%nat (mkIndexEntry [x66; x6d; x74] 1 2)).
  split; [reflexivity|]. intros j e' Hj Hl'. destruct j; [lia|]. discriminate.
Defined.

(** ** The header check *)

Lemma view_magic buf :
  Uint8Array_view buf 0 8
  = if 8 <=? byteLength buf then Ok (take 8 buf) else Throw RangeError.
Proof.
  unfold Uint8Array_view. change (0 + 8) with 8.
  destruct (8 <=? byteLength buf); reflexivity.
Qed.

Lemma take8_length buf : 8 <= byteLength buf -> length (take 8 buf) = 8%nat.
Proof. unfold byteLength. rewrite length_take. lia. Qed.

Lemma magic_test buf :
  8 <= byteLength buf ->
  negb (str_eqb (TextDecoder_decode (take 8 buf)) GOSCRIPT)
  = negb (bool_decide (take 8 buf = magic_bytes)).
Proof.
  intros H. f_equal. unfold str_eqb. apply bool_decide_ext.
  apply decode_magic, take8_length, H.
Qed.

(** [_parseToolchainPack]: the header check, then the sections. *)
Lemma sdk_parse_unfold buf :
  SdkPack._parseToolchainPack buf
  = if 8 <=? byteLength buf then
      if bool_decide (take 8 buf = magic_bytes) then
        match getUint32 buf 8 with
        | Ok version =>
            if version =? 2 then sdk_sections buf
            else Throw (UnsupportedVersion version)
        | Throw e => Throw e
        end
      else Throw BadMagic
    else Throw RangeError.
Proof.
  unfold SdkPack._parseToolchainPack, sdk_sections. rewrite view_magic.
  destruct (Z.leb_spec 8 (byteLength buf)) as [Hlen|Hlen]; [|reflexivity].
  cbn [fmap result_fmap mbind result_bind]. rewrite magic_test by exact Hlen.
  destruct (bool_decide _); [|reflexivity]. cbn [negb].
  change (0 + 8) with 8. destruct (getUint32 buf 8) as [version|e]; [|reflexivity].
  cbn [mbind result_bind]. destruct (version =? 2); [|reflexivity]. cbn [negb].
  change (8 + 4) with 12. destruct (getUint32 buf 12) as [compilerSize|]; [|reflexivity].
  cbn [mbind result_bind].
  replace (12 + 4 + compilerSize) with (16 + compilerSize) by lia.
  replace (12 + 4) with 16 by lia.
  destruct (getUint32 buf (16 + compilerSize)) as [linkerSize|]; [|reflexivity].
  cbn [mbind result_bind].
  replace (16 + compilerSize + 4 + linkerSize) with (20 + compilerSize + linkerSize) by lia.
  replace (16 + compilerSize + 4) with (20 + compilerSize) by lia.
  destruct (getUint32 buf _) as [indexSize|]; [|reflexivity].
  cbn [mbind result_bind].
  replace (20 + compilerSize + linkerSize + 4) with (24 + compilerSize + linkerSize) by lia.
  destruct (Uint8Array_view _ _ _) as [indexBytes|]; [|reflexivity].
  cbn [mbind result_bind].
  destruct (JSON_parse _) as [packageNames|]; [|reflexivity].
  cbn [mbind result_bind].
  destruct (getUint32 buf _) as [packageCount|]; [|reflexivity].
  cbn [mbind result_bind].
  replace (24 + compilerSize + linkerSize + indexSize + 4)
    with (28 + compilerSize + linkerSize + indexSize) by lia.
  destruct (getBigUint64 buf _) as [indexOffset|]; [|reflexivity].
  cbn [mbind result_bind fmap result_fmap].
  replace (28 + compilerSize + linkerSize + indexSize + 8)
    with (36 + compilerSize + linkerSize + indexSize) by lia.
  reflexivity.
Qed.










(** ** Bounds: sections and package ranges *)

Lemma DataView_get_out w buf pos :
  byteLength buf < pos + w -> DataView_get w buf pos = Throw RangeError.
Proof.
  intros H. unfold DataView_get.
  destruct (Z.leb_spec (pos + w) (byteLength buf)); [lia|].
  by rewrite andb_false_r.
Qed.

Lemma magic_length buf : take 8 buf = magic_bytes -> 8 <= byteLength buf.
Proof.
  intros Hm. apply (f_equal length) in Hm. rewrite length_take in Hm.
  change (length magic_bytes) with 8%nat in Hm. unfold byteLength. lia.
Qed.

Lemma sdk_parse_header_ok buf :
  take 8 buf = magic_bytes -> getUint32 buf 8 = Ok 2 ->
  SdkPack._parseToolchainPack buf = sdk_sections buf.
Proof.
  intros Hm Hv. rewrite sdk_parse_unfold, Hv.
  destruct (Z.leb_spec 8 (byteLength buf)); [|apply magic_length in Hm; lia].
  by rewrite bool_decide_true.
Qed.

(** The loader's parser past a right header. *)
Ltac enter_loader buf Hm Hv :=
  unfold loader_parse, ToolchainLoader.parseToolchain; unfold_monad;
  cbn [ToolchainLoader.packData ToolchainLoader.set_packData ToolchainLoader.new];
  rewrite view_magic;
  destruct (Z.leb_spec 8 (byteLength buf)); [|apply magic_length in Hm; lia];
  rewrite magic_test by assumption; rewrite bool_decide_true by exact Hm;
  cbn [negb]; change (0 + 8) with 8; rewrite Hv; cbn [Z.eqb Pos.eqb negb];
  change (8 + 4) with 12.

Lemma compiler_overrun buf l1 :
  take 8 buf = magic_bytes -> getUint32 buf 8 = Ok 2 ->
  getUint32 buf 12 = Ok l1 -> byteLength buf < 16 + l1 ->
  SdkPack._parseToolchainPack buf = Throw RangeError
  /\ loader_parse buf = Throw RangeError.
Proof.
  intros Hm Hv H1 Hlen.
  assert (H2 : getUint32 buf (16 + l1) = Throw RangeError)
    by (apply DataView_get_out; lia).
  split.
  - rewrite sdk_parse_header_ok by assumption. unfold sdk_sections.
    rewrite H1. cbn [mbind result_bind]. by rewrite H2.
  - enter_loader buf Hm Hv. rewrite H1.
    change (12 + 4) with 16. by rewrite H2.
Qed.

Lemma linker_overrun buf l1 l2 :
  take 8 buf = magic_bytes -> getUint32 buf 8 = Ok 2 ->
  getUint32 buf 12 = Ok l1 -> getUint32 buf (16 + l1) = Ok l2 ->
  byteLength buf < 20 + l1 + l2 ->
  SdkPack._parseToolchainPack buf = Throw RangeError
  /\ loader_parse buf = Throw RangeError.
Proof.
  intros Hm Hv H1 H2 Hlen.
  assert (H3 : getUint32 buf (20 + l1 + l2) = Throw RangeError)
    by (apply DataView_get_out; lia).
  split.
  - rewrite sdk_parse_header_ok by assumption. unfold sdk_sections.
    rewrite H1. cbn [mbind result_bind]. rewrite H2. cbn [mbind result_bind].
    by rewrite H3.
  - enter_loader buf Hm Hv. rewrite H1.
    change (12 + 4) with 16. rewrite H2.
    replace (16 + l1 + 4 + l2) with (20 + l1 + l2) by lia. by rewrite H3.
Qed.

Lemma names_overrun buf l1 l2 l3 :
  take 8 buf = magic_bytes -> getUint32 buf 8 = Ok 2 ->
  getUint32 buf 12 = Ok l1 -> getUint32 buf (16 + l1) = Ok l2 ->
  getUint32 buf (20 + l1 + l2) = Ok l3 ->
  byteLength buf < 24 + l1 + l2 + l3 ->
  SdkPack._parseToolchainPack buf = Throw RangeError
  /\ loader_parse buf = Throw RangeError.
Proof.
  intros Hm Hv H1 H2 H3 Hlen.
  assert (H4 : Uint8Array_view buf (24 + l1 + l2) l3 = Throw RangeError)
    by (apply view_out_of_range; lia).
  split.
  - rewrite sdk_parse_header_ok by assumption. unfold sdk_sections.
    rewrite H1. cbn [mbind result_bind]. rewrite H2. cbn [mbind result_bind].
    rewrite H3. cbn [mbind result_bind]. by rewrite H4.
  - enter_loader buf Hm Hv. rewrite H1.
    change (12 + 4) with 16. rewrite H2.
    replace (16 + l1 + 4 + l2) with (20 + l1 + l2) by lia. rewrite H3.
    replace (20 + l1 + l2 + 4) with (24 + l1 + l2) by lia. by rewrite H4.
Qed.

(** The loader left by a failed compiler-section read holds the clamped
    slice. *)
Lemma compiler_overrun_state buf l1 :
  take 8 buf = magic_bytes -> getUint32 buf 8 = Ok 2 ->
  getUint32 buf 12 = Ok l1 -> byteLength buf < 16 + l1 ->
  ToolchainLoader.compilerWasm
    (ToolchainLoader.parseToolchain
       (ToolchainLoader.set_packData buf ToolchainLoader.new)).2
  = Some (ArrayBuffer_slice buf 16 (16 + l1)).
Proof.
  intros Hm Hv H1 Hlen.
  assert (H2 : getUint32 buf (16 + l1) = Throw RangeError)
    by (apply DataView_get_out; lia).
  enter_loader buf Hm Hv. rewrite H1. change (12 + 4) with 16. by rewrite H2.
Qed.

Lemma getPackage_view name l buf en :
  ToolchainLoader.packData l = Some buf ->
  Map_get name (ToolchainLoader.packageIndex l) = Some en ->
  ToolchainLoader.getPackage name l
  = if bool_decide (0 <= offset en /\ 0 <= size en /\ offset en + size en <= byteLength buf)
    then Ok (Some (sub_bytes buf (offset en) (size en)))
    else Throw RangeError.
Proof.
  intros Hb Hn. unfold ToolchainLoader.getPackage. rewrite Hn, Hb.
  unfold Uint8Array_view.
  destruct (Z.leb_spec 0 (offset en)), (Z.leb_spec 0 (size en)),
    (Z.leb_spec (offset en + size en) (byteLength buf)); cbn [andb];
    case_bool_decide; try reflexivity; lia.
Qed.

(** C4 (amended).  Past a right header, a compiler, linker or package-name
    section whose declared length runs past the end of the buffer makes both
    parsers fail, with the RangeError of the next bounds-checked read (the
    loader has by then stored the clamped compiler slice).  The ranges of the
    package index entries are not looked at while parsing: every well-formed
    pack parses, wherever its entries point.  They are checked when an
    archive is taken: [getPackage] returns the view of exactly the declared
    range when that range lies inside the pack, and throws a RangeError
    otherwise; no view is ever shorter than its declared size. *)
Theorem pack_bounds_checks (buf : bytes) :
  (forall l1,
      take 8 buf = magic_bytes -> getUint32 buf 8 = Ok 2 ->
      getUint32 buf 12 = Ok l1 ->
      (byteLength buf < 16 + l1 ->
       SdkPack._parseToolchainPack buf = Throw RangeError
       /\ loader_parse buf = Throw RangeError
       /\ ToolchainLoader.compilerWasm
            (ToolchainLoader.parseToolchain
               (ToolchainLoader.set_packData buf ToolchainLoader.new)).2
          = Some (ArrayBuffer_slice buf 16 (16 + l1)))
      /\ forall l2,
          getUint32 buf (16 + l1) = Ok l2 ->
          (byteLength buf < 20 + l1 + l2 ->
           SdkPack._parseToolchainPack buf = Throw RangeError
           /\ loader_parse buf = Throw RangeError)
          /\ forall l3,
              getUint32 buf (20 + l1 + l2) = Ok l3 ->
              byteLength buf < 24 + l1 + l2 + l3 ->
              SdkPack._parseToolchainPack buf = Throw RangeError
              /\ loader_parse buf = Throw RangeError)
  /\ (forall ly,
        well_formed_pack buf ly ->
        is_ok (SdkPack._parseToolchainPack buf)
        /\ exists l,
            ToolchainLoader.parseToolchain
              (ToolchainLoader.set_packData buf ToolchainLoader.new) = (Ok tt, l)
            /\ ToolchainLoader.packData l = Some buf
            /\ forall i e, last_of_its_name (entries ly) i e ->
                 Map_get (entry_name e) (ToolchainLoader.packageIndex l)
                 = Some (filed (data_start ly) e))
  /\ (forall l name en,
        ToolchainLoader.packData l = Some buf ->
        Map_get name (ToolchainLoader.packageIndex l) = Some en ->
        ToolchainLoader.getPackage name l
        = if bool_decide (0 <= offset en /\ 0 <= size en
                          /\ offset en + size en <= byteLength buf)
          then Ok (Some (sub_bytes buf (offset en) (size en)))
          else Throw RangeError)
  /\ (forall off n,
        0 <= off -> 0 <= n -> off + n <= byteLength buf ->
        byteLength (sub_bytes buf off n) = n).
Proof.
  split_and!.
  - intros l1 Hm Hv H1. split.
    + intros Hlen. destruct (compiler_overrun buf l1 Hm Hv H1 Hlen) as [Hs Hl].
      split_and!; [exact Hs|exact Hl|by apply compiler_overrun_state].
    + intros l2 H2. split; [by apply (linker_overrun buf l1 l2)|].
      intros l3 H3 Hlen. by apply (names_overrun buf l1 l2 l3).
  - intros ly Hwf. split; [by rewrite (sdk_parse_well_formed buf ly Hwf)|].
    eexists. split; [exact (loader_parse_well_formed buf ly Hwf)|].
    split; [reflexivity|]. intros i e He. cbn [ToolchainLoader.packageIndex].
    by apply file_all_last with i.
  - intros l name en Hb Hn. by apply getPackage_view.
  - intros off n H0 Hn Hlen. by apply sub_bytes_length.
Qed.

(** A pack whose one index entry declares 200 bytes at data offset 1 of a
    64-byte buffer: parsing succeeds in both parsers, the entry is filed as
    it stands, and the failure comes only when the archive is asked for. *)
Lemma pack_bounds_checks_counterexample :
  byteLength (sample_pack_with 200) = 64
  /\ (exists p, SdkPack._parseToolchainPack (sample_pack_with 200) = Ok p
        /\ Map_get (lit "fmt") (SdkPack.packageIndex p) = Some (mkEntry 44 200))
  /\ (exists l,
        ToolchainLoader.parseToolchain
          (ToolchainLoader.set_packData (sample_pack_with 200) ToolchainLoader.new)
        = (Ok tt, l)
        /\ Map_get (lit "fmt") (ToolchainLoader.packageIndex l) = Some (mkEntry 44 200)
        /\ ToolchainLoader.getPackage (lit "fmt") l = Throw RangeError).
Proof.
  split; [reflexivity|]. split.
  - eexists. split; vm_compute; reflexivity.
  - eexists. split; [vm_compute; reflexivity|]. split; vm_compute; reflexivity.
Qed.

(** ** The compilation pipeline *)

Lemma same_run_trans s1 s2 s3 : same_run s1 s2 -> same_run s2 s3 -> same_run s1 s3.
Proof. unfold same_run. intros (? & ? & ? & ?) (? & ? & ? & ?). split_and!; congruence. Qed.

Lemma loadCompilerSeparately_frame h s :
  exists s', CompilationManager.loadCompilerSeparately h s = (Ok tt, s')
    /\ same_run s s'.
Proof.
  unfold CompilationManager.loadCompilerSeparately, try_catch. unfold_monad.
  destruct (CompilationManager.fetch_compile_wasm h) as [c|];
    [destruct (CompilationManager.fetch_link_wasm h) as [l|]|];
    cbn; eexists; (split; [reflexivity|]); by destruct s.
Qed.

Lemma loadCompiler_frame h s :
  exists s', CompilationManager.loadCompiler h s = (Ok tt, s') /\ same_run s s'.
Proof.
  unfold CompilationManager.loadCompiler, try_catch.
  destruct (CompilationManager.has_ToolchainLoader h).
  2: { destruct (loadCompilerSeparately_frame h s) as (s' & -> & Hf). by exists s'. }
  match goal with
  | |- context [match ?m s with _ => _ end] =>
      assert (Hm : (exists s', m s = (Ok tt, s') /\ same_run s s')
                   \/ (exists e s', m s = (Throw e, s') /\ same_run s s'))
  end.
  { unfold CompilationManager.load, CompilationManager.on_vfs. unfold_monad.
    cbn [CompilationManager.packStore].
    destruct (CompilationManager.packStore s) as [cached|] eqn:Hp.
    - destruct (ToolchainLoader.parseToolchain _) as [[[]|e] l].
      + destruct (ToolchainLoader.loadAllPackagesIntoVFS _ _) as [[[]|e] fs];
          [left|right; exists e]; eexists; (split; [reflexivity|]); by destruct s.
      + right. exists e. eexists. split; [reflexivity|]. by destruct s.
    - destruct (CompilationManager.fetch_pack h) as [buf|].
      + destruct (ToolchainLoader.parseToolchain _) as [[[]|e] l].
        * destruct (ToolchainLoader.loadAllPackagesIntoVFS _ _) as [[[]|e] fs];
            [left|right; exists e]; eexists; (split; [reflexivity|]); by destruct s.
        * right. exists e. eexists. split; [reflexivity|]. by destruct s.
      + right. eexists. eexists. split; [reflexivity|]. by destruct s. }
  destruct Hm as [(s' & -> & Hf)|(e & s' & -> & Hf)]; [by exists s'|].
  destruct (loadCompilerSeparately_frame h s') as (s'' & -> & Hf').
  exists s''. split; [reflexivity|]. by apply same_run_trans with s'.
Qed.

(** ** Cache hit *)

(** The events of a [compile] that finds its binary in the cache. *)
Lemma compile_hit h files s en :
  CacheManager.compiledWasm (CompilationManager.cacheManager s)
    !! CacheManager.wasm_key (CacheManager.generateSourceHash files) = Some en ->
  exists s',
    CompilationManager.compile h files s = (Ok (CacheManager.wasmBinary en), s')
    /\ CompilationManager.events s'
       = CompilationManager.events s ++ hit_events (CacheManager.wasmBinary en) (CacheManager.meta en)
    /\ CacheManager.compiledWasm (CompilationManager.cacheManager s')
       = CacheManager.compiledWasm (CompilationManager.cacheManager s)
    /\ CompilationManager.state s' = CompilationManager.Completed.
Proof.
  intros Hen. unfold CompilationManager.compile, try_catch.
  unfold CompilationManager.emitProgress, CompilationManager.emitStageUpdate,
    CompilationManager.emitComplete, CompilationManager.emit.
  unfold_monad.
  match goal with
  | |- context [CompilationManager.loadCompiler h ?s0] =>
      destruct (loadCompiler_frame h s0) as (s1 & -> & Hc & He & Hs & Hf)
  end.
  cbn in Hc, He. unfold CacheManager.getCachedWasm.
  cbn [CompilationManager.cacheManager CompilationManager.events].
  rewrite Hc.
  assert (Hl : CacheManager.compiledWasm
                 (if CacheManager.ready (CompilationManager.cacheManager s)
                  then CompilationManager.cacheManager s
                  else CacheManager.init (CompilationManager.cacheManager s))
               = CacheManager.compiledWasm (CompilationManager.cacheManager s))
    by (by destruct (CacheManager.ready _)).
  rewrite Hl, Hen. cbn. eexists. split; [reflexivity|]. cbn.
  rewrite He, Hl. split_and!; try reflexivity.
  unfold hit_events. by rewrite <- !app_assoc.
Qed.

Lemma ready_store c :
  CacheManager.compiledWasm (if CacheManager.ready c then c else CacheManager.init c)
  = CacheManager.compiledWasm c.
Proof. by destruct (CacheManager.ready c). Qed.

(** Running the pipeline's own steps on an explicit state record. *)
Ltac run_manager :=
  cbv [CompilationManager.emitProgress CompilationManager.emitStageUpdate
       CompilationManager.emitComplete CompilationManager.emitError
       CompilationManager.emit
       CompilationManager.set_vfs CompilationManager.set_cache
       CompilationManager.set_state CompilationManager.set_filesToCompile
       CompilationManager.vfs CompilationManager.cacheManager
       CompilationManager.compilerLoaded CompilationManager.state
       CompilationManager.compileWasmBytes CompilationManager.linkWasmBytes
       CompilationManager.filesToCompile CompilationManager.events
       CompilationManager.packStore
       modify get throw mbind mret M_bind M_ret try_catch].

(** Stages 3 to 7 return only validated bytes, which they leave in the
    cache. *)
Lemma build_ok h files hash s w s1 :
  CompilationManager.build h files hash s = (Ok w, s1) ->
  CompilationManager.validateWasmBinary w = true
  /\ exists en,
      CacheManager.compiledWasm (CompilationManager.cacheManager s1)
        !! CacheManager.wasm_key hash = Some en
      /\ CacheManager.wasmBinary en = w.
Proof.
  destruct s as [fs c cl st cw lw ftc evs ps].
  unfold CompilationManager.build, CompilationManager.setupBuildEnvironment. run_manager.
  destruct (CompilationManager.compileToWasm h _) as [[w'|e] [fs3 c3 cl3 st3 cw3 lw3 ftc3 evs3 ps3]];
    [|discriminate].
  unfold CompilationManager.prepareBinary. run_manager.
  destruct (CompilationManager.validateWasmBinary w') eqn:Hv; cbn [negb]; [|discriminate].
  intros [= <- <-]. split; [exact Hv|]. run_manager.
  unfold CacheManager.cacheCompiledWasm.
  cbn [CacheManager.compiledWasm CacheManager.key].
  eexists. split; [apply lookup_insert_eq|reflexivity].
Qed.

(** A [compile] that returns took its bytes from the cache or, after a
    miss, validated them and left them in the cache. *)
Lemma compile_ok_inv h files s wasm s1 :
  CompilationManager.compile h files s = (Ok wasm, s1) ->
  (exists en,
      CacheManager.compiledWasm (CompilationManager.cacheManager s1)
        !! CacheManager.wasm_key (CacheManager.generateSourceHash files) = Some en
      /\ CacheManager.wasmBinary en = wasm)
  /\ ((exists en,
         CacheManager.compiledWasm (CompilationManager.cacheManager s)
           !! CacheManager.wasm_key (CacheManager.generateSourceHash files) = Some en
         /\ CacheManager.wasmBinary en = wasm)
      \/ (CacheManager.compiledWasm (CompilationManager.cacheManager s)
            !! CacheManager.wasm_key (CacheManager.generateSourceHash files) = None
          /\ CompilationManager.validateWasmBinary wasm = true)).
Proof.
  intros Hc.
  destruct (CacheManager.compiledWasm (CompilationManager.cacheManager s)
              !! CacheManager.wasm_key (CacheManager.generateSourceHash files))
    as [en|] eqn:Hk.
  - destruct (compile_hit h files s en Hk) as (s' & Hr & _ & Hst & _).
    rewrite Hr in Hc. injection Hc as <- <-.
    split; [|left]; exists en; split; try reflexivity. by rewrite Hst.
  - revert Hc Hk. destruct s as [fs c cl st cw lw ftc evs ps].
    unfold CompilationManager.compile. run_manager. intros Hc Hk. revert Hc.
    match goal with
    | |- context [CompilationManager.loadCompiler h ?s0] =>
        destruct (loadCompiler_frame h s0) as (s2 & -> & Hcm & _)
    end.
    destruct s2 as [fs2 c2 cl2 st2 cw2 lw2 ftc2 evs2 ps2].
    cbv [CompilationManager.cacheManager] in Hcm. subst c2.
    run_manager. unfold CacheManager.getCachedWasm. cbv zeta.
    rewrite ready_store, Hk.
    match goal with
    | |- context [CompilationManager.build h files ?hash ?s0] =>
        destruct (CompilationManager.build h files hash s0) as [[w|e] s3] eqn:Hb
    end.
    + intros [= <- <-]. apply build_ok in Hb as [Hv Hen]. split; [exact Hen|].
      right. split; [reflexivity|exact Hv].
    + run_manager. discriminate.
Qed.



(** ** Validation of the produced binary *)

Lemma index_is_spec w i (b : byte) :
  index_is w i (byte_to_Z b) = bool_decide (w !! i = Some b).
Proof.
  unfold index_is. destruct (w !! i) as [x|]; [|by rewrite bool_decide_false].
  destruct (Z.eqb_spec (byte_to_Z x) (byte_to_Z b)) as [He|Hne].
  - apply byte_to_Z_inj in He as ->. by rewrite bool_decide_true.
  - rewrite bool_decide_false; [done|]. intros [= ->]. done.
Qed.

Lemma validateWasmBinary_spec w :
  CompilationManager.validateWasmBinary w = true
  <-> 8 <= byteLength w /\ take 4 w = wasm_magic.
Proof.
  unfold CompilationManager.validateWasmBinary.
  destruct (Z.ltb_spec (byteLength w) 8) as [Hlt|Hge]; [split; [discriminate|lia]|].
  change 0 with (byte_to_Z x00) at 1. change 97 with (byte_to_Z x61).
  change 115 with (byte_to_Z x73). change 109 with (byte_to_Z x6d).
  rewrite !index_is_spec, !andb_true_iff, !bool_decide_eq_true.
  unfold byteLength in Hge.
  destruct w as [|b0 [|b1 [|b2 [|b3 w]]]]; cbn in Hge; try lia.
  cbn. unfold wasm_magic, byteLength. cbn [length]. rewrite take_0. split.
  - intros ((([= ->] & [= ->]) & [= ->]) & [= ->]). split; [lia|reflexivity].
  - intros (_ & [= -> -> -> ->]). done.
Qed.

(** Running the SDK driver's own steps on an explicit state record. *)
Ltac run_sdk :=
  cbv [GoScript._progress GoScript.emit GoScript.on_vfs GoScript.set_vfs
       GoScript.set_compiling GoScript.initialized GoScript.compilerReady
       GoScript.compiling GoScript.vfs GoScript.compilerWasm GoScript.linkerWasm
       GoScript.events
       modify get throw lift mbind mret M_bind M_ret try_catch negb].

(** What the SDK's [compile] resolves with on success is the content of the
    linked file, unexamined. *)
Lemma sdk_compile_success h src s w n s' :
  GoScript.compile h src s = (Ok (GoScript.Success w n), s') ->
  exists c,
    VirtualFS.readFile (GoScript.tempDir ++ lit "/main.wasm") (GoScript.vfs s') = Ok c
    /\ w = match c with U8 b => Buf b | other => other end.
Proof.
  destruct s as [ini rdy cmp fs cw lw evs].
  unfold GoScript.compile. run_sdk.
  destruct ini; [|discriminate]. destruct cmp; [discriminate|].
  unfold GoScript.compile_body, GoScript._runCompiler, GoScript._runLinker. run_sdk.
  destruct (GoScript.go_run h cw _ _) as [[[]|e] fs1]; [|discriminate].
  destruct (VirtualFS.exists_ _ fs1); [|discriminate].
  destruct (GoScript.go_run h lw _ _) as [[[]|e] fs2]; [|discriminate].
  destruct (VirtualFS.exists_ (lit "/tmp/build/main.wasm") fs2); [|discriminate].
  destruct (VirtualFS.exists_ _ fs2); [|discriminate].
  destruct (VirtualFS.readFile _ fs2) as [c|e] eqn:Hr; [|discriminate].
  intros [= <- <- <-]. exists c. split; [exact Hr|reflexivity].
Qed.

Lemma prepareBinary_invalid w s :
  CompilationManager.validateWasmBinary w = false ->
  CompilationManager.prepareBinary w s = (Throw InvalidWasm, s).
Proof. intros H. unfold CompilationManager.prepareBinary. by rewrite H. Qed.

(** C5 (amended).  [validateWasmBinary] accepts exactly the binaries of at
    least eight bytes whose first four are the WebAssembly magic; the version
    bytes are not looked at.  [prepareBinary] throws on what it rejects.  So
    a [compile] of the compilation manager that returns after a cache miss
    returns at least eight bytes starting with the magic; after a cache hit
    it returns the cached bytes as they are.  The mock binary starts with
    the full eight-byte header.  The SDK's [compile] validates nothing: on
    success it resolves with the content of the linked file. *)
Theorem output_validation :
  (forall w,
      CompilationManager.validateWasmBinary w = true
      <-> 8 <= byteLength w /\ take 4 w = wasm_magic)
  /\ (forall w s,
        CompilationManager.validateWasmBinary w = false ->
        CompilationManager.prepareBinary w s = (Throw InvalidWasm, s))
  /\ (forall h files s wasm s1,
        CompilationManager.compile h files s = (Ok wasm, s1) ->
        CacheManager.compiledWasm (CompilationManager.cacheManager s)
          !! CacheManager.wasm_key (CacheManager.generateSourceHash files) = None ->
        8 <= byteLength wasm /\ take 4 wasm = wasm_magic)
  /\ (forall h files s en,
        CacheManager.compiledWasm (CompilationManager.cacheManager s)
          !! CacheManager.wasm_key (CacheManager.generateSourceHash files) = Some en ->
        (CompilationManager.compile h files s).1 = Ok (CacheManager.wasmBinary en))
  /\ (forall h, take 8 (CompilationManager.generateMockWasm h) = wasm_magic ++ wasm_version)
  /\ (forall h src s w n s',
        GoScript.compile h src s = (Ok (GoScript.Success w n), s') ->
        exists c,
          VirtualFS.readFile (GoScript.tempDir ++ lit "/main.wasm") (GoScript.vfs s') = Ok c
          /\ w = match c with U8 b => Buf b | other => other end).
Proof.
  split_and!.
  - apply validateWasmBinary_spec.
  - apply prepareBinary_invalid.
  - intros h files s wasm s1 Hc Hmiss.
    destruct (compile_ok_inv h files s wasm s1 Hc) as [_ [(en & Hen & _)|[_ Hv]]].
    + rewrite Hmiss in Hen. discriminate.
    + by apply validateWasmBinary_spec.
  - intros h files s en Hen.
    destruct (compile_hit h files s en Hen) as (s' & -> & _). reflexivity.
  - reflexivity.
  - apply sdk_compile_success.
Qed.

(** A linker that writes the magic followed by version 2 gets its output
    through the manager's validation; a linker that writes junk has it
    rejected on the first [compile] and returned from the cache on the
    second; the SDK's [compile] succeeds with the junk at once. *)
Lemma output_validation_counterexample :
  (CompilationManager.compile (toolchain_host wasm_v2) main_go fresh_manager).1
  = Ok wasm_v2
  /\ take 8 wasm_v2 <> wasm_magic ++ wasm_version
  /\ (CompilationManager.compile (toolchain_host junk) main_go fresh_manager).1
     = Throw InvalidWasm
  /\ (CompilationManager.compile (toolchain_host junk) main_go
        (CompilationManager.compile (toolchain_host junk) main_go fresh_manager).2).1
     = Ok junk
  /\ (GoScript.compile (sdk_toolchain_host junk) (GoScript.Text (lit "package main"))
        (sdk_driver false)).1
     = Ok (GoScript.Success (Buf junk) 1)
  /\ take 4 junk <> wasm_magic.
Proof.
  split_and!; try (vm_compute; reflexivity); vm_compute; discriminate.
Qed.

(** ** Concurrent entry *)

(** The manager's [compile] does not read the status it starts from. *)
Lemma manager_ignores_status h files st s :
  CompilationManager.compile h files (CompilationManager.set_state st s)
  = CompilationManager.compile h files s.
Proof.
  destruct s as [fs c cl st0 cw lw ftc evs ps].
  unfold CompilationManager.compile. run_manager. reflexivity.
Qed.

(** C8 (amended).  The SDK driver, once initialized, rejects a [compile]
    entered while another one is in progress: the call throws the
    already-in-progress error and leaves the driver, its filesystem
    included, as it was.  The compilation manager has no such guard: its
    [compile] overwrites the status and runs the pipeline from whatever
    status it is entered in. *)
Theorem busy_rejection (h : GoScript.host) (src : GoScript.source) (s : GoScript.t) :
  GoScript.initialized s = true ->
  GoScript.compiling s = true ->
  GoScript.compile h src s = (Throw AlreadyCompiling, s)
  /\ forall mh files st ms,
      CompilationManager.compile mh files (CompilationManager.set_state st ms)
      = CompilationManager.compile mh files ms.
Proof.
  intros Hi Hc. split; [|intros; apply manager_ignores_status].
  unfold GoScript.compile. by rewrite Hi, Hc.
Qed.

Lemma busy_rejection_witness :
  GoScript.compile (sdk_toolchain_host wasm_v1) (GoScript.Text (lit "package main"))
    (sdk_driver true)
  = (Throw AlreadyCompiling, sdk_driver true)
  /\ forall mh files st ms,
      CompilationManager.compile mh files (CompilationManager.set_state st ms)
      = CompilationManager.compile mh files ms.
Proof.
  apply (busy_rejection (sdk_toolchain_host wasm_v1) (GoScript.Text (lit "package main"))
           (sdk_driver true)); reflexivity.
Defined.

(** The compilation manager entered while its status is [Compiling]: the
    call returns a binary, having run both foreign modules and written to
    the filesystem. *)
Lemma busy_rejection_counterexample :
  CompilationManager.state busy_manager = CompilationManager.Compiling
  /\ (CompilationManager.compile (toolchain_host wasm_v1) main_go busy_manager).1
     = Ok wasm_v1
  /\ VirtualFileSystem.exists_ (lit "/output/main.wasm")
       (CompilationManager.vfs busy_manager) = false
  /\ VirtualFileSystem.exists_ (lit "/output/main.wasm")
       (CompilationManager.vfs
          (CompilationManager.compile (toolchain_host wasm_v1) main_go busy_manager).2)
     = true
  /\ CompilationManager.Instantiate [x02] CompilationManager.link_argv
     ∈ CompilationManager.events
         (CompilationManager.compile (toolchain_host wasm_v1) main_go busy_manager).2.
Proof.
  split_and!; try (vm_compute; reflexivity).
  vm_compute. repeat first [apply list_elem_of_here | apply list_elem_of_further].
Qed.

(** ** Normal forms of paths *)

Lemma split_cons_sep sep s : split sep (sep :: s) = [] :: split sep s.
Proof. simpl. by rewrite Z.eqb_refl. Qed.

Lemma split_nonempty sep s : split sep s <> [].
Proof.
  induction s as [|c s IH]; simpl; [discriminate|].
  destruct (c =? sep); [discriminate|]. by destruct (split sep s).
Qed.

Lemma split_seg_sep sep seg s :
  sep ∉ seg -> split sep (seg ++ sep :: s) = seg :: split sep s.
Proof.
  induction seg as [|c seg IH]; intros Hn; [apply split_cons_sep|].
  apply not_elem_of_cons in Hn as [Hc Hn]. cbn [app split].
  destruct (Z.eqb_spec c sep) as [->|_]; [contradiction|]. by rewrite IH.
Qed.

Lemma split_seg sep seg : sep ∉ seg -> split sep seg = [seg].
Proof.
  induction seg as [|c seg IH]; intros Hn; [reflexivity|].
  apply not_elem_of_cons in Hn as [Hc Hn]. cbn [split].
  destruct (Z.eqb_spec c sep) as [->|_]; [contradiction|]. by rewrite IH.
Qed.

(** Splitting undoes joining, for segments free of the separator. *)
Lemma split_join sep segs :
  segs <> [] -> Forall (fun seg => sep ∉ seg) segs -> split sep (join sep segs) = segs.
Proof.
  induction segs as [|seg segs IH]; intros Hne Hall; [contradiction|].
  inversion Hall as [|? ? Hseg Hrest]; subst.
  destruct segs as [|seg' segs]; [by apply split_seg|].
  cbn [join]. rewrite split_seg_sep by exact Hseg. f_equal. by apply IH.
Qed.

Lemma resolve_plain parts resolved :
  Forall (fun p => p <> lit "..") parts ->
  VirtualFS.resolve parts resolved = resolved ++ parts.
Proof.
  revert resolved. induction parts as [|p parts IH]; intros resolved Hall.
  - by rewrite app_nil_r.
  - inversion Hall; subst. cbn [VirtualFS.resolve].
    destruct (str_eqb p (lit "..")) eqn:E; [apply str_eqb_eq in E; contradiction|].
    rewrite IH by assumption. by rewrite <- app_assoc.
Qed.

Lemma filter_clean segs :
  Forall clean_segment segs ->
  List.filter (fun p => truthy p && negb (str_eqb p (lit "."))) segs = segs.
Proof.
  induction 1 as [|seg segs (Hne & Hdot & _ & _) _ IH]; [reflexivity|].
  cbn [List.filter]. destruct seg; [contradiction|]. cbn [truthy andb].
  destruct (str_eqb _ (lit ".")) eqn:E; [apply str_eqb_eq in E; contradiction|].
  cbn [negb]. by rewrite IH.
Qed.

(** A path built from clean segments is its own normal form. *)
Lemma normalize_canonical segs :
  Forall clean_segment segs ->
  VirtualFS._normalize (lit "/" ++ join slash segs) = lit "/" ++ join slash segs.
Proof.
  intros Hc. unfold VirtualFS._normalize.
  change (lit "/" ++ join slash segs) with (slash :: join slash segs).
  assert (Hs : startsWith (slash :: join slash segs) (lit "/") = true)
    by (rewrite startsWith_slash; reflexivity).
  rewrite Hs. cbn [negb]. rewrite split_cons_sep. cbn [List.filter truthy andb].
  destruct segs as [|seg segs]; [reflexivity|].
  rewrite split_join; [|discriminate|].
  2: { eapply Forall_impl; [exact Hc|]. by intros ? (_ & _ & _ & ?). }
  rewrite filter_clean by exact Hc. rewrite resolve_plain; [reflexivity|].
  eapply Forall_impl; [exact Hc|]. by intros ? (_ & _ & ? & _).
Qed.

Lemma collapse_fixed s : double_slash s = false -> collapse_slashes s = s.
Proof.
  induction s as [|c s IH]; [reflexivity|]. cbn [double_slash collapse_slashes].
  destruct s as [|d s]; [by destruct (c =? slash)|].
  intros H. apply orb_false_iff in H as [Hcd Hds]. rewrite IH by exact Hds.
  destruct (c =? slash); [|reflexivity]. cbn [andb] in Hcd. by rewrite Hcd.
Qed.

Lemma sdk_normalize_fixed path :
  VirtualFS._normalize (VirtualFS._normalize path) = VirtualFS._normalize path.
Proof. destruct (normalize_clean path) as (segs & -> & Hc). by apply normalize_canonical. Qed.

Lemma legacy_normalize_fixed path :
  VirtualFileSystem.normalizePath (VirtualFileSystem.normalizePath path)
  = VirtualFileSystem.normalizePath path.
Proof.
  pose proof (normalizePath_absolute path) as Ha.
  unfold VirtualFileSystem.normalizePath at 1. rewrite Ha. cbn [negb].
  apply collapse_fixed. unfold VirtualFileSystem.normalizePath.
  apply collapse_no_double.
Qed.

(** X1.  Normalizing is idempotent in both filesystems: the path a file is
    stored under normalizes to itself. *)
Theorem normalize_idempotent (path : jsstring) :
  VirtualFS._normalize (VirtualFS._normalize path) = VirtualFS._normalize path
  /\ VirtualFileSystem.normalizePath (VirtualFileSystem.normalizePath path)
     = VirtualFileSystem.normalizePath path.
Proof. split; [apply sdk_normalize_fixed|apply legacy_normalize_fixed]. Qed.

(** ** Writing a file *)

(** X2.  [writeFile] touches one slot: a path with another normal form reads
    as before, a file that existed still exists, and no directory is
    forgotten.  In both filesystems. *)
Theorem writeFile_frame (p q : jsstring) (c : content)
    (sdk : VirtualFS.t) (legacy : VirtualFileSystem.t) :
  (VirtualFS._normalize q <> VirtualFS._normalize p ->
   VirtualFS.readFile q (VirtualFS.writeFile p c sdk) = VirtualFS.readFile q sdk
   /\ VirtualFS.exists_ q (VirtualFS.writeFile p c sdk) = VirtualFS.exists_ q sdk)
  /\ (VirtualFileSystem.normalizePath q <> VirtualFileSystem.normalizePath p ->
      VirtualFileSystem.readFile q (VirtualFileSystem.writeFile p c legacy)
      = VirtualFileSystem.readFile q legacy
      /\ VirtualFileSystem.exists_ q (VirtualFileSystem.writeFile p c legacy)
         = VirtualFileSystem.exists_ q legacy)
  /\ (VirtualFS.exists_ q sdk = true ->
      VirtualFS.exists_ q (VirtualFS.writeFile p c sdk) = true)
  /\ (VirtualFileSystem.exists_ q legacy = true ->
      VirtualFileSystem.exists_ q (VirtualFileSystem.writeFile p c legacy) = true)
  /\ VirtualFileSystem.directories legacy
     ⊆ VirtualFileSystem.directories (VirtualFileSystem.writeFile p c legacy)
  /\ VirtualFileSystem.workingDirectory (VirtualFileSystem.writeFile p c legacy)
     = VirtualFileSystem.workingDirectory legacy
  /\ VirtualFS.workingDirectory (VirtualFS.writeFile p c sdk)
     = VirtualFS.workingDirectory sdk.
Proof.
  split_and!.
  - intros Hne. unfold VirtualFS.readFile, VirtualFS.exists_, VirtualFS.writeFile.
    cbn [VirtualFS.files]. by rewrite lookup_insert_ne.
  - intros Hne. unfold VirtualFileSystem.readFile, VirtualFileSystem.exists_.
    rewrite legacy_files_writeFile. by rewrite lookup_insert_ne.
  - unfold VirtualFS.exists_, VirtualFS.writeFile. cbn [VirtualFS.files].
    rewrite !bool_decide_eq_true. intros Hq.
    destruct (decide (VirtualFS._normalize p = VirtualFS._normalize q)) as [->|Hne].
    + rewrite lookup_insert_eq. eauto.
    + by rewrite lookup_insert_ne.
  - unfold VirtualFileSystem.exists_. rewrite legacy_files_writeFile.
    rewrite !bool_decide_eq_true. intros Hq.
    destruct (decide (VirtualFileSystem.normalizePath p = VirtualFileSystem.normalizePath q))
      as [->|Hne].
    + rewrite lookup_insert_eq. eauto.
    + by rewrite lookup_insert_ne.
  - unfold VirtualFileSystem.writeFile, VirtualFileSystem.ensureDirectoryExists.
    destruct (negb _); cbn [VirtualFileSystem.directories]; set_solver.
  - unfold VirtualFileSystem.writeFile, VirtualFileSystem.ensureDirectoryExists.
    by destruct (negb _).
  - reflexivity.
Qed.

(** [_dirname] of a path of clean segments drops the last one. *)
Lemma dirname_canonical segs seg :
  Forall clean_segment (segs ++ [seg]) ->
  VirtualFS._dirname (lit "/" ++ join slash (segs ++ [seg])) = lit "/" ++ join slash segs.
Proof.
  intros Hc. unfold VirtualFS._dirname.
  change (lit "/" ++ ?x) with (slash :: x). rewrite split_cons_sep.
  rewrite split_join; [|by destruct segs|].
  2: { eapply Forall_impl; [exact Hc|]. by intros ? (_ & _ & _ & ?). }
  change ([] :: segs ++ [seg]) with (([] :: segs) ++ [seg]).
  rewrite removelast_last. destruct segs as [|s segs]; reflexivity.
Qed.

Lemma canonical_not_root seg segs :
  clean_segment seg ->
  truthy (lit "/" ++ join slash (seg :: segs))
  && negb (str_eqb (lit "/" ++ join slash (seg :: segs)) (lit "/")) = true.
Proof.
  intros (Hne & _). cbn [truthy app lit andb]. apply negb_true_iff, str_eqb_neq.
  destruct seg as [|c seg]; [contradiction|]. by destruct segs.
Qed.

Lemma ensureDir_canonical fuel segs dirs :
  Forall clean_segment segs -> (length segs < fuel)%nat ->
  VirtualFS._ensureDir fuel (lit "/" ++ join slash segs) dirs
  = list_to_set ((fun k => lit "/" ++ join slash (take k segs)) <$> seq 1 (length segs))
    ∪ dirs.
Proof.
  revert fuel dirs. induction segs as [|seg segs IH] using rev_ind; intros fuel dirs Hc Hf.
  - destruct fuel; [lia|]. cbn. set_solver.
  - destruct fuel as [|fuel]; [lia|]. rewrite length_app in Hf |- *. cbn [length] in Hf |- *.
    cbn [VirtualFS._ensureDir].
    assert (Hnr : truthy (lit "/" ++ join slash (segs ++ [seg]))
                  && negb (str_eqb (lit "/" ++ join slash (segs ++ [seg])) (lit "/")) = true).
    { destruct segs as [|s segs]; cbn [app].
      - apply canonical_not_root. by inversion Hc.
      - apply canonical_not_root. by inversion Hc. }
    rewrite Hnr, dirname_canonical by exact Hc.
    apply Forall_app in Hc as [Hc _]. rewrite IH by (assumption || lia).
    replace (length segs + 1)%nat with (S (length segs)) by lia.
    rewrite seq_S, fmap_app, list_to_set_app_L. cbn [fmap list_fmap list_to_set plus].
    rewrite firstn_all2 by (rewrite length_app; cbn; lia).
    assert (Heq : (λ k : nat, lit "/" ++ join slash (take k (segs ++ [seg]))) <$> seq 1 (length segs)
                  = (λ k : nat, lit "/" ++ join slash (take k segs)) <$> seq 1 (length segs)).
    { apply list_fmap_ext. intros i k Hk. apply lookup_seq in Hk as [-> Hi].
      by rewrite take_app_le by lia. }
    rewrite Heq. set_solver.
Qed.

Lemma join_length_segs segs :
  Forall clean_segment segs -> (length segs <= length (join slash segs))%nat.
Proof.
  induction 1 as [|seg segs (Hne & _) _ IH]; [cbn; lia|].
  destruct seg as [|c seg]; [contradiction|].
  destruct segs as [|s segs]; cbn [join length] in *; [lia|].
  rewrite length_app. cbn [length]. lia.
Qed.

Lemma sdk_writeFile_dirs (p : jsstring) (c : content) (fs : VirtualFS.t) :
  exists segs,
    VirtualFS._normalize p = lit "/" ++ join slash segs
    /\ Forall clean_segment segs
    /\ VirtualFS.directories (VirtualFS.writeFile p c fs)
       = list_to_set (ancestor_dirs segs) ∪ VirtualFS.directories fs.
Proof.
  destruct (normalize_clean p) as (segs & Hn & Hc). exists segs.
  split; [exact Hn|]. split; [exact Hc|].
  unfold VirtualFS.writeFile. cbn [VirtualFS.directories]. rewrite Hn.
  unfold ancestor_dirs.
  destruct segs as [|seg segs _] using rev_ind.
  - cbn [length Nat.sub seq fmap list_fmap list_to_set]. rewrite (left_id_L ∅ (∪)).
    change (VirtualFS._dirname (lit "/" ++ join slash [])) with (lit "/").
    cbn [VirtualFS._ensureDir].
    assert (Hr : truthy (lit "/") && negb (str_eqb (lit "/") (lit "/")) = false)
      by reflexivity.
    by rewrite Hr.
  - rewrite dirname_canonical by exact Hc.
    pose proof (join_length_segs _ Hc) as Hl.
    apply Forall_app in Hc as [Hc' _].
    rewrite ensureDir_canonical; [|exact Hc'|].
    2: { rewrite length_app in Hl |- *. cbn [length lit] in *. lia. }
    rewrite length_app. cbn [length].
    replace (length segs + 1 - 1)%nat with (length segs) by lia.
    f_equal. f_equal. apply list_fmap_ext. intros i k Hk.
    apply lookup_seq in Hk as [-> Hi]. by rewrite take_app_le by lia.
Qed.

(** X3.  The SDK's [writeFile] registers every ancestor directory of the
    file, and nothing else: the directories afterwards are the ones before
    together with [/s1], [/s1/s2], ... up to the parent of the normalized
    path [/s1/.../sn]. *)
Theorem sdk_writeFile_directories (p : jsstring) (c : content) (fs : VirtualFS.t) :
  exists segs,
    VirtualFS._normalize p = lit "/" ++ join slash segs
    /\ Forall clean_segment segs
    /\ VirtualFS.directories (VirtualFS.writeFile p c fs)
       = list_to_set (ancestor_dirs segs) ∪ VirtualFS.directories fs.
Proof. apply sdk_writeFile_dirs. Qed.

(** ** Listing a directory *)

Lemma sort_sorted (l : list jsstring) : Sorted str_le (sort l).
Proof. unfold sort. apply (@Sorted_merge_sort _ str_le _ str_le_total). Qed.

Lemma sort_elem (l : list jsstring) x : x ∈ sort l <-> x ∈ l.
Proof. unfold sort. by rewrite merge_sort_Permutation. Qed.

Lemma sort_nodup (l : list jsstring) : NoDup l -> NoDup (sort l).
Proof. unfold sort. by rewrite merge_sort_Permutation. Qed.

Lemma startsWith_app s t : startsWith (s ++ t) s = true.
Proof. induction s as [|c s IH]; [by destruct t|]. cbn. by rewrite Z.eqb_refl. Qed.

Lemma startsWith_prefix s p : startsWith s p = true -> exists t, s = p ++ t.
Proof.
  revert s. induction p as [|c p IH]; intros s; [by exists s|].
  destruct s as [|d s]; [discriminate|]. cbn.
  intros H. apply andb_true_iff in H as [Hc Hp]. apply Z.eqb_eq in Hc as ->.
  destruct (IH _ Hp) as [t ->]. by exists t.
Qed.

Lemma join_snoc sep segs seg :
  join sep (segs ++ [seg])
  = match segs with [] => seg | _ :: _ => join sep segs ++ sep :: seg end.
Proof.
  induction segs as [|s segs IH]; [reflexivity|].
  cbn [app join]. destruct segs as [|s' segs]; [reflexivity|].
  cbn [app] in IH |- *. rewrite IH. by rewrite <- app_assoc.
Qed.

Lemma join_app sep segs1 segs2 :
  segs1 <> [] -> segs2 <> [] ->
  join sep (segs1 ++ segs2) = join sep segs1 ++ sep :: join sep segs2.
Proof.
  intros H1 H2. induction segs1 as [|s segs1 IH]; [contradiction|].
  destruct segs1 as [|s' segs1].
  - destruct segs2; [contradiction|reflexivity].
  - cbn [app join] in IH |- *. rewrite IH by discriminate. by rewrite <- app_assoc.
Qed.

(** A path whose last segment is not empty and holds no separator does not
    end with one. *)
Lemma endsWith_slash_join segs seg :
  seg <> [] -> slash ∉ seg ->
  endsWith (lit "/" ++ join slash (segs ++ [seg])) (lit "/") = false.
Proof.
  intros Hne Hns. unfold endsWith. rewrite join_snoc.
  destruct seg as [|x seg _] using rev_ind; [contradiction|].
  assert (Hx : x <> slash).
  { intros ->. apply Hns. apply elem_of_app. right. by apply list_elem_of_singleton. }
  assert (exists pre, lit "/" ++ match segs with
                                | [] => seg ++ [x]
                                | _ :: _ => join slash segs ++ slash :: seg ++ [x]
                                end = pre ++ [x]) as [pre ->].
  { destruct segs.
    - exists (lit "/" ++ seg). by rewrite <- app_assoc.
    - eexists (lit "/" ++ join slash _ ++ slash :: seg).
      rewrite <- !app_assoc. cbn [app]. reflexivity. }
  rewrite rev_unit. change (rev (lit "/")) with [47]. cbn [startsWith].
  apply andb_false_iff. left. apply Z.eqb_neq. unfold slash in Hx. congruence.
Qed.

(** The prefix [listDir] tests stored paths against. *)
Lemma listing_prefix dsegs :
  Forall clean_segment dsegs ->
  (if negb (endsWith (lit "/" ++ join slash dsegs) (lit "/"))
   then (lit "/" ++ join slash dsegs) ++ lit "/" else lit "/" ++ join slash dsegs)
  = match dsegs with [] => lit "/" | _ :: _ => lit "/" ++ join slash dsegs ++ lit "/" end.
Proof.
  intros Hc. destruct dsegs as [|seg dsegs _] using rev_ind; [reflexivity|].
  apply Forall_app in Hc as [_ Hc]. inversion Hc as [|? ? (Hne & _ & _ & Hns) _]; subst.
  rewrite endsWith_slash_join by assumption. cbn [negb].
  rewrite <- app_assoc. by destruct dsegs.
Qed.

(** Below the directory [/d1/.../dk], the path [/d1/.../dk/name/...] is
    listed as [name]. *)
Lemma listing_child dsegs name rest :
  Forall clean_segment (dsegs ++ name :: rest) ->
  let prefix := match dsegs with
                | [] => lit "/"
                | _ :: _ => lit "/" ++ join slash dsegs ++ lit "/"
                end in
  let p := lit "/" ++ join slash (dsegs ++ name :: rest) in
  startsWith p prefix = true
  /\ first_part (drop (length prefix) p) = Some name
  /\ p <> prefix.
Proof.
  intros Hc prefix p.
  assert (Hp : p = prefix ++ join slash (name :: rest)).
  { unfold p, prefix. destruct dsegs as [|d dsegs]; [reflexivity|].
    rewrite join_app by discriminate. rewrite <- !app_assoc. reflexivity. }
  apply Forall_app in Hc as [_ Hc].
  assert (Hrel : join slash (name :: rest) <> []).
  { inversion Hc as [|? ? (Hne & _) _]; subst.
    destruct name; [contradiction|]. by destruct rest. }
  rewrite Hp. split; [apply startsWith_app|]. split.
  2: { intros Heq. apply Hrel. apply (f_equal length) in Heq.
       rewrite length_app in Heq. apply length_zero_iff_nil. lia. }
  rewrite drop_app_length. unfold first_part.
  rewrite split_join; [|discriminate|].
  2: { eapply Forall_impl; [exact Hc|]. by intros ? (_ & _ & _ & ?). }
  inversion Hc as [|? ? (Hne & _) _]; subst. cbn [List.filter].
  destruct name; [contradiction|reflexivity].
Qed.

Lemma first_part_truthy rel name : first_part rel = Some name -> name <> [].
Proof.
  unfold first_part. intros H Hn. subst name.
  assert (Hin : [] ∈ List.filter truthy (split slash rel)).
  { destruct (List.filter truthy (split slash rel)); [discriminate|].
    injection H as ->. apply list_elem_of_here. }
  apply list_elem_of_In, filter_In in Hin as [_ Ht]. discriminate.
Qed.

Lemma startsWith_shorter s p q : startsWith s (p ++ q) = true -> startsWith s p = true.
Proof.
  revert s. induction p as [|c p IH]; intros s; [by destruct s|].
  destruct s as [|x s]; [discriminate|]. cbn.
  intros H. apply andb_true_iff in H as [-> H]. by rewrite (IH _ H).
Qed.

(** X4.  [listDir] of the SDK's filesystem returns names in ascending
    order without repetition; it lists [name] for the directory
    [/d1/.../dk] whenever a file or a directory is stored at a path
    [/d1/.../dk/name/...]; after [writeFile], in particular, the first
    segment of the written path below each of its ancestor directories.  A
    directory nothing is stored under lists as empty rather than failing. *)
Theorem sdk_listDir (d : jsstring) (fs : VirtualFS.t) :
  Sorted str_le (VirtualFS.listDir d fs)
  /\ NoDup (VirtualFS.listDir d fs)
  /\ (forall dsegs name rest,
        VirtualFS._normalize d = lit "/" ++ join slash dsegs ->
        Forall clean_segment (dsegs ++ name :: rest) ->
        (is_Some (VirtualFS.files fs !! (lit "/" ++ join slash (dsegs ++ name :: rest)))
         \/ lit "/" ++ join slash (dsegs ++ name :: rest) ∈ VirtualFS.directories fs) ->
        name ∈ VirtualFS.listDir d fs)
  /\ (forall p c dsegs name rest,
        VirtualFS._normalize d = lit "/" ++ join slash dsegs ->
        VirtualFS._normalize p = lit "/" ++ join slash (dsegs ++ name :: rest) ->
        Forall clean_segment (dsegs ++ name :: rest) ->
        name ∈ VirtualFS.listDir d (VirtualFS.writeFile p c fs))
  /\ (forall name,
        name ∈ VirtualFS.listDir d fs ->
        exists q, (is_Some (VirtualFS.files fs !! q) \/ q ∈ VirtualFS.directories fs)
                  /\ startsWith q (VirtualFS._normalize d) = true
                  /\ name <> []).
Proof.
  assert (Hchild : forall fs dsegs name rest,
        VirtualFS._normalize d = lit "/" ++ join slash dsegs ->
        Forall clean_segment (dsegs ++ name :: rest) ->
        (is_Some (VirtualFS.files fs !! (lit "/" ++ join slash (dsegs ++ name :: rest)))
         \/ lit "/" ++ join slash (dsegs ++ name :: rest) ∈ VirtualFS.directories fs) ->
        name ∈ VirtualFS.listDir d fs).
  { clear fs. intros fs dsegs name rest Hd Hc Hst. unfold VirtualFS.listDir.
    rewrite Hd, listing_prefix by (by apply Forall_app in Hc as [? _]).
    destruct (listing_child dsegs name rest Hc) as (Hs & Hf & Hne).
    apply sort_elem, elem_of_remove_dups, elem_of_app.
    destruct Hst as [[c Hfile]|Hdir]; [left|right]; apply list_elem_of_omap;
      exists (lit "/" ++ join slash (dsegs ++ name :: rest)).
    - split; [|by rewrite Hs].
      apply list_elem_of_fmap. exists (lit "/" ++ join slash (dsegs ++ name :: rest), c).
      split; [reflexivity|]. by apply elem_of_map_to_list.
    - split; [by apply elem_of_elements|]. rewrite Hs.
      apply str_eqb_neq in Hne. by rewrite Hne. }
  split; [apply sort_sorted|]. split; [apply sort_nodup, NoDup_remove_dups|].
  split; [apply Hchild|]. split.
  - intros p c dsegs name rest Hd Hp Hc. apply (Hchild _ dsegs name rest Hd Hc).
    left. unfold VirtualFS.writeFile. cbn [VirtualFS.files]. rewrite Hp.
    rewrite lookup_insert_eq. eauto.
  - intros name Hin. unfold VirtualFS.listDir in Hin.
    apply sort_elem, elem_of_remove_dups, elem_of_app in Hin.
    assert (Hpre : forall q,
      startsWith q (if negb (endsWith (VirtualFS._normalize d) (lit "/"))
                    then VirtualFS._normalize d ++ lit "/" else VirtualFS._normalize d) = true ->
      startsWith q (VirtualFS._normalize d) = true).
    { intros q. destruct (negb _); [apply startsWith_shorter|done]. }
    destruct Hin as [Hin|Hin]; apply list_elem_of_omap in Hin as (q & Hq & Hf).
    + apply list_elem_of_fmap in Hq. destruct Hq as ([q' c] & Heq & Hq).
      cbn [fst] in Heq. subst q. apply elem_of_map_to_list in Hq. destruct (startsWith q' _) eqn:Hs; [|discriminate].
      exists q'. split; [left; eauto|]. split; [by apply Hpre|].
      by apply first_part_truthy in Hf.
    + apply elem_of_elements in Hq.
      destruct (startsWith q _) eqn:Hs; [|discriminate]. cbn [andb] in Hf.
      destruct (negb (str_eqb q _)); [|discriminate].
      exists q. split; [by right|]. split; [by apply Hpre|].
      by apply first_part_truthy in Hf.
Qed.

(** X5.  [listDir] of the demo site's filesystem returns names in ascending
    order without repetition, and lists [name] for the directory
    [/d1/.../dk] whenever a file or a directory is stored at a path
    [/d1/.../dk/name/...]; after [writeFile], in particular. *)
Theorem legacy_listDir (d : jsstring) (fs : VirtualFileSystem.t) :
  Sorted str_le (VirtualFileSystem.listDir d fs)
  /\ NoDup (VirtualFileSystem.listDir d fs)
  /\ (forall dsegs name rest,
        VirtualFileSystem.normalizePath d = lit "/" ++ join slash dsegs ->
        Forall clean_segment (dsegs ++ name :: rest) ->
        (is_Some (VirtualFileSystem.files fs
                    !! (lit "/" ++ join slash (dsegs ++ name :: rest)))
         \/ lit "/" ++ join slash (dsegs ++ name :: rest)
            ∈ VirtualFileSystem.directories fs) ->
        name ∈ VirtualFileSystem.listDir d fs)
  /\ (forall p c dsegs name rest,
        VirtualFileSystem.normalizePath d = lit "/" ++ join slash dsegs ->
        VirtualFileSystem.normalizePath p = lit "/" ++ join slash (dsegs ++ name :: rest) ->
        Forall clean_segment (dsegs ++ name :: rest) ->
        name ∈ VirtualFileSystem.listDir d (VirtualFileSystem.writeFile p c fs)).
Proof.
  assert (Hchild : forall fs dsegs name rest,
        VirtualFileSystem.normalizePath d = lit "/" ++ join slash dsegs ->
        Forall clean_segment (dsegs ++ name :: rest) ->
        (is_Some (VirtualFileSystem.files fs
                    !! (lit "/" ++ join slash (dsegs ++ name :: rest)))
         \/ lit "/" ++ join slash (dsegs ++ name :: rest)
            ∈ VirtualFileSystem.directories fs) ->
        name ∈ VirtualFileSystem.listDir d fs).
  { clear fs. intros fs dsegs name rest Hd Hc Hst. unfold VirtualFileSystem.listDir.
    rewrite Hd, listing_prefix by (by apply Forall_app in Hc as [? _]).
    destruct (listing_child dsegs name rest Hc) as (Hs & Hf & Hne).
    apply sort_elem, elem_of_remove_dups, elem_of_app.
    destruct Hst as [[c Hfile]|Hdir]; [left|right]; apply list_elem_of_omap;
      exists (lit "/" ++ join slash (dsegs ++ name :: rest)).
    - split; [|by rewrite Hs].
      apply list_elem_of_fmap. exists (lit "/" ++ join slash (dsegs ++ name :: rest), c).
      split; [reflexivity|]. by apply elem_of_map_to_list.
    - split; [by apply elem_of_elements|].
      assert (Hsl : startsWith (lit "/" ++ join slash (dsegs ++ name :: rest)) (lit "/")
                    = true) by (rewrite startsWith_slash; reflexivity).
      rewrite Hsl. cbn [negb]. by rewrite Hs. }
  split; [apply sort_sorted|]. split; [apply sort_nodup, NoDup_remove_dups|].
  split; [apply Hchild|].
  intros p c dsegs name rest Hd Hp Hc. apply (Hchild _ dsegs name rest Hd Hc).
  left. rewrite legacy_files_writeFile, Hp, lookup_insert_eq. eauto.
Qed.

(** ** Reading through a descriptor *)

Lemma subarray_in_range buf a b :
  0 <= a -> a <= b -> b <= byteLength buf -> subarray buf a b = sub_bytes buf a (b - a).
Proof.
  intros Ha Hab Hb. unfold subarray.
  destruct (Z.ltb_spec a 0); [lia|]. destruct (Z.ltb_spec b 0); [lia|].
  rewrite !Z.min_l by lia. by rewrite Z.max_l by lia.
Qed.

Lemma Uint8Array_set_spec arr data pos :
  Uint8Array_set arr data pos
  = if bool_decide (0 <= pos /\ pos + byteLength data <= byteLength arr)
    then Ok (take (Z.to_nat pos) arr ++ data ++ drop (Z.to_nat pos + length data) arr)
    else Throw RangeError.
Proof.
  unfold Uint8Array_set.
  destruct (Z.leb_spec 0 pos), (Z.leb_spec (pos + byteLength data) (byteLength arr));
    cbn [andb]; case_bool_decide; try reflexivity; lia.
Qed.

Lemma Uint8Array_set_length arr data pos arr' :
  Uint8Array_set arr data pos = Ok arr' -> length arr' = length arr.
Proof.
  rewrite Uint8Array_set_spec. case_bool_decide as H; [|discriminate].
  intros [= <-]. unfold byteLength in H.
  rewrite !length_app, length_take, length_drop. lia.
Qed.

(** X6.  [fs.read] of the SDK's shim.  An unknown descriptor gives [EBADF];
    a position at or past the end gives 0 bytes.  Otherwise, for a position
    and a length that are not negative, the call copies
    [n = min(length, size - position)] bytes, the file's bytes from the
    position on, into [buffer] at [offset] and returns [n]; it fails with a
    RangeError, leaving everything as it was, when they do not fit there.
    The descriptor's own position is used, and moved by [n], only when the
    position argument is null.  The file, the other descriptors and the
    filesystem are never changed. *)
Theorem sdk_read_contract (fd : Z) (buffer : bytes) (offset len : Z)
    (pos_arg : option Z) (s : SdkFSPolyfill.t) :
  (SdkFSPolyfill.fds s !! fd = None ->
   SdkFSPolyfill.read fd buffer offset len pos_arg s = (Throw EBADF, s))
  /\ (forall f,
        SdkFSPolyfill.fds s !! fd = Some f ->
        let content := SdkFSPolyfill.fcontent f in
        let pos := default (SdkFSPolyfill.position f) pos_arg in
        let n := Z.min len (byteLength content - pos) in
        (byteLength content <= pos ->
         SdkFSPolyfill.read fd buffer offset len pos_arg s = (Ok (0, buffer), s))
        /\ (0 <= pos < byteLength content -> 0 <= len ->
            SdkFSPolyfill.read fd buffer offset len pos_arg s
            = if bool_decide (0 <= offset /\ offset + n <= byteLength buffer)
              then (Ok (n, take (Z.to_nat offset) buffer ++ sub_bytes content pos n
                           ++ drop (Z.to_nat (offset + n)) buffer),
                    match pos_arg with
                    | Some _ => s
                    | None =>
                        SdkFSPolyfill.set_fd fd
                          (SdkFSPolyfill.mkFile (SdkFSPolyfill.path f)
                             (SdkFSPolyfill.flags f) content
                             (SdkFSPolyfill.position f + n)) s
                    end)
              else (Throw RangeError, s))
        /\ SdkFSPolyfill.vfs (SdkFSPolyfill.read fd buffer offset len pos_arg s).2
           = SdkFSPolyfill.vfs s
        /\ (forall fd', fd' <> fd ->
              SdkFSPolyfill.fds (SdkFSPolyfill.read fd buffer offset len pos_arg s).2 !! fd'
              = SdkFSPolyfill.fds s !! fd')).
Proof.
  split.
  - intros Hfd. unfold SdkFSPolyfill.read. by rewrite Hfd.
  - intros f Hfd content pos n. unfold SdkFSPolyfill.read. rewrite Hfd.
    fold content. replace (match pos_arg with Some p => p | None => SdkFSPolyfill.position f end)
      with pos by (by destruct pos_arg).
    split_and!.
    + intros Hp. destruct (Z.leb_spec (byteLength content) pos); [reflexivity|lia].
    + intros Hp Hl. destruct (Z.leb_spec (byteLength content) pos); [lia|].
      assert (Hend : Z.min (pos + len) (byteLength content) = pos + n) by (unfold n; lia).
      rewrite Hend. replace (pos + n - pos) with n by lia.
      rewrite subarray_in_range by (unfold n; lia).
      replace (pos + n - pos) with n by lia.
      rewrite Uint8Array_set_spec.
      assert (Hlen : byteLength (sub_bytes content pos n) = n).
      { apply sub_bytes_length; unfold n; lia. }
      rewrite Hlen. case_bool_decide as Hfit; [|reflexivity].
      assert (Hd : (Z.to_nat offset + length (sub_bytes content pos n))%nat
                   = Z.to_nat (offset + n)).
      { unfold byteLength in Hlen. lia. }
      rewrite Hd. by destruct pos_arg.
    + destruct (byteLength content <=? pos); [reflexivity|].
      destruct (Uint8Array_set _ _ _); [|reflexivity]. by destruct pos_arg.
    + intros fd' Hne. destruct (byteLength content <=? pos); [reflexivity|].
      destruct (Uint8Array_set _ _ _); [|reflexivity].
      destruct pos_arg; [reflexivity|]. cbn. by rewrite lookup_insert_ne.
Qed.

(** ** Writing at a position *)

Lemma written_at_length old data pos :
  0 <= pos ->
  byteLength (written_at old data pos) = Z.max (byteLength old) (pos + byteLength data).
Proof.
  intros Hp. unfold written_at, byteLength.
  rewrite !length_app, length_take, length_app, length_replicate, length_drop.
  unfold byteLength. lia.
Qed.

Lemma written_at_read old data pos :
  0 <= pos -> sub_bytes (written_at old data pos) pos (byteLength data) = data.
Proof.
  intros Hp. unfold written_at, sub_bytes, byteLength.
  rewrite drop_app_length'.
  2: { rewrite length_take, length_app, length_replicate. unfold byteLength. lia. }
  rewrite Nat2Z.id. by rewrite take_app_length.
Qed.

Lemma sdk_write_file limit fd buf offset len pos_arg s f :
  fd <> 1 -> fd <> 2 -> SdkFSPolyfill.fds s !! fd = Some f ->
  let pos := default (SdkFSPolyfill.position f) pos_arg in
  let data := sub_bytes buf offset len in
  0 <= pos -> 0 <= offset -> 0 <= len -> offset + len <= byteLength buf ->
  (byteLength (SdkFSPolyfill.fcontent f) < pos + len ->
   pos + len <= limit /\ pos + len <= max_array_length) ->
  SdkFSPolyfill.write limit fd buf offset len pos_arg s
  = (Ok len,
     SdkFSPolyfill.set_vfs
       (VirtualFS.writeFile (SdkFSPolyfill.path f)
          (U8 (written_at (SdkFSPolyfill.fcontent f) data pos)))
       (SdkFSPolyfill.set_fd fd
          (SdkFSPolyfill.mkFile (SdkFSPolyfill.path f) (SdkFSPolyfill.flags f)
             (written_at (SdkFSPolyfill.fcontent f) data pos)
             (match pos_arg with
              | Some _ => SdkFSPolyfill.position f
              | None => pos + len
              end)) s)).
Proof.
  intros H1 H2 Hfd pos data Hp Ho Hl Hfit Hlim. unfold SdkFSPolyfill.write.
  rewrite file_fd_test by assumption. rewrite Hfd.
  replace (match pos_arg with Some p => p | None => SdkFSPolyfill.position f end)
    with pos by (by destruct pos_arg).
  rewrite subarray_in_range by lia. replace (offset + len - offset) with len by lia.
  fold data. set (old := SdkFSPolyfill.fcontent f) in *.
  assert (Hd : byteLength data = len) by (apply sub_bytes_length; lia).
  assert (Hgrown :
    (if byteLength old <? pos + len
     then z ← Uint8Array_new limit (pos + len); Uint8Array_set z old 0
     else Ok old)
    = Ok (old ++ replicate (Z.to_nat (pos + len - byteLength old)) x00)).
  { destruct (Z.ltb_spec (byteLength old) (pos + len)) as [Hlt|Hge].
    - unfold Uint8Array_new. destruct (Hlim Hlt) as [Hl1 Hl2].
      destruct (Z.leb_spec 0 (pos + len)); [|lia].
      destruct (Z.leb_spec (pos + len) max_array_length); [|lia].
      destruct (Z.leb_spec (pos + len) limit); [|lia].
      cbn [andb mbind result_bind]. rewrite Uint8Array_set_spec.
      rewrite bool_decide_true.
      2: { unfold byteLength. rewrite length_replicate. unfold byteLength in Hlt. lia. }
      change (Z.to_nat 0) with 0%nat. cbn [take app plus]. rewrite drop_replicate.
      assert (Hn : (Z.to_nat (pos + len) - length old)%nat
                   = Z.to_nat (pos + len - byteLength old)) by (unfold byteLength; lia).
      by rewrite Hn.
    - replace (Z.to_nat (pos + len - byteLength old)) with 0%nat by lia.
      by rewrite app_nil_r. }
  rewrite Hgrown. rewrite Uint8Array_set_spec. rewrite bool_decide_true.
  2: { unfold byteLength in *. rewrite length_app, length_replicate. lia. }
  assert (Hw : take (Z.to_nat pos)
                 (old ++ replicate (Z.to_nat (pos + len - byteLength old)) x00)
               ++ data
               ++ drop (Z.to_nat pos + length data)
                    (old ++ replicate (Z.to_nat (pos + len - byteLength old)) x00)
               = written_at old data pos).
  { unfold written_at. rewrite Hd. do 2 f_equal.
    rewrite drop_app. rewrite (drop_ge (replicate _ _)).
    2: { rewrite length_replicate. unfold byteLength in *. lia. }
    rewrite app_nil_r. f_equal. unfold byteLength in Hd. lia. }
  rewrite Hw. reflexivity.
Qed.

(** A [write] that has to grow the snapshot beyond what can be allocated
    calls back with a RangeError and changes nothing. *)
Lemma sdk_write_refused limit fd buf offset len pos_arg s f :
  fd <> 1 -> fd <> 2 -> SdkFSPolyfill.fds s !! fd = Some f ->
  let pos := default (SdkFSPolyfill.position f) pos_arg in
  byteLength (SdkFSPolyfill.fcontent f) < pos + len ->
  limit < pos + len \/ max_array_length < pos + len ->
  SdkFSPolyfill.write limit fd buf offset len pos_arg s = (Throw RangeError, s).
Proof.
  intros H1 H2 Hfd pos Hlt Hbig. unfold SdkFSPolyfill.write.
  rewrite file_fd_test by assumption. rewrite Hfd.
  replace (match pos_arg with Some p => p | None => SdkFSPolyfill.position f end)
    with pos by (by destruct pos_arg).
  destruct (Z.ltb_spec (byteLength (SdkFSPolyfill.fcontent f)) (pos + len)); [|lia].
  unfold Uint8Array_new.
  destruct (Z.leb_spec 0 (pos + len)); [|reflexivity].
  destruct (Z.leb_spec (pos + len) max_array_length); [|reflexivity].
  destruct (Z.leb_spec (pos + len) limit); [lia|reflexivity].
Qed.

(** X7.  [fs.write] of the SDK's shim on an open descriptor, with a source
    range inside [buf] and a position that is not negative.  When the write
    ends past the end of the snapshot, the call allocates an array of
    [position + length] bytes: if that is more than [2^53 - 1] or more than
    the engine can allocate, the call fails with a RangeError and changes
    nothing.  Otherwise the call returns [length]; the file becomes the old
    bytes, zero-filled up to the position when they end before it, with the
    written bytes over the range they cover; the new content is in the
    filesystem at once; the descriptor's position moves only when the
    position argument is null; and a [read] of [length] bytes at the same
    position gives the written bytes back. *)
Theorem sdk_write_then_read (limit fd : Z) (buf : bytes) (offset len : Z)
    (pos_arg : option Z) (s : SdkFSPolyfill.t) (f : SdkFSPolyfill.file) :
  fd <> 1 -> fd <> 2 -> SdkFSPolyfill.fds s !! fd = Some f ->
  0 <= default (SdkFSPolyfill.position f) pos_arg ->
  0 <= offset -> 0 < len -> offset + len <= byteLength buf ->
  let pos := default (SdkFSPolyfill.position f) pos_arg in
  let data := sub_bytes buf offset len in
  let content' := written_at (SdkFSPolyfill.fcontent f) data pos in
  (byteLength (SdkFSPolyfill.fcontent f) < pos + len ->
   limit < pos + len \/ max_array_length < pos + len ->
   SdkFSPolyfill.write limit fd buf offset len pos_arg s = (Throw RangeError, s))
  /\ ((byteLength (SdkFSPolyfill.fcontent f) < pos + len ->
       pos + len <= limit /\ pos + len <= max_array_length) ->
      exists s',
        SdkFSPolyfill.write limit fd buf offset len pos_arg s = (Ok len, s')
        /\ SdkFSPolyfill.fds s' !! fd
           = Some (SdkFSPolyfill.mkFile (SdkFSPolyfill.path f) (SdkFSPolyfill.flags f)
                     content'
                     (match pos_arg with
                      | Some _ => SdkFSPolyfill.position f
                      | None => pos + len
                      end))
        /\ byteLength content'
           = Z.max (byteLength (SdkFSPolyfill.fcontent f)) (pos + len)
        /\ VirtualFS.readFile (SdkFSPolyfill.path f) (SdkFSPolyfill.vfs s')
           = Ok (U8 content')
        /\ forall buffer,
             len <= byteLength buffer ->
             SdkFSPolyfill.read fd buffer 0 len (Some pos) s'
             = (Ok (len, data ++ drop (Z.to_nat len) buffer), s')).
Proof.
  intros H1 H2 Hfd Hp Ho Hl Hfit pos data content'.
  split; [by apply sdk_write_refused|]. intros Hlim.
  assert (Hd : byteLength data = len) by (apply sub_bytes_length; lia).
  eexists. split.
  { apply (sdk_write_file limit fd buf offset len pos_arg s f H1 H2 Hfd Hp Ho);
      [lia|exact Hfit|exact Hlim]. }
  split; [cbn; apply lookup_insert_eq|].
  split; [unfold content'; rewrite written_at_length by exact Hp; by rewrite Hd|].
  split; [cbn; by apply sdk_write_read|].
  intros buffer Hb. unfold SdkFSPolyfill.read. cbn [SdkFSPolyfill.fds SdkFSPolyfill.set_vfs
    SdkFSPolyfill.set_fd]. rewrite lookup_insert_eq. cbn [SdkFSPolyfill.fcontent].
  change (written_at (SdkFSPolyfill.fcontent f) (sub_bytes buf offset len)
            (default (SdkFSPolyfill.position f) pos_arg)) with content'.
  change (default (SdkFSPolyfill.position f) pos_arg) with pos.
  assert (Hc : byteLength content' = Z.max (byteLength (SdkFSPolyfill.fcontent f)) (pos + len)).
  { unfold content'. rewrite written_at_length by exact Hp. by rewrite Hd. }
  destruct (Z.leb_spec (byteLength content') pos); [lia|].
  rewrite Z.min_l by lia. rewrite subarray_in_range by lia.
  replace (pos + len - pos) with len by lia.
  rewrite <- Hd at 1. unfold content' at 1. rewrite written_at_read by exact Hp.
  rewrite Uint8Array_set_spec. rewrite bool_decide_true by (rewrite Hd; lia).
  change (Z.to_nat 0) with 0%nat. cbn [take app plus].
  replace (length data) with (Z.to_nat len) by (unfold byteLength in Hd; lia).
  reflexivity.
Qed.

Lemma sdk_write_then_read_witness :
  SdkFSPolyfill.write 4 100 [x01; x02; x03] 1 2 (Some 3) sdk_one_open
  = (Throw RangeError, sdk_one_open)
  /\ exists s',
       SdkFSPolyfill.write 5 100 [x01; x02; x03] 1 2 (Some 3) sdk_one_open = (Ok 2, s')
       /\ SdkFSPolyfill.fds s' !! 100
          = Some (SdkFSPolyfill.mkFile (lit "/f") 64 [x00; x00; x00; x02; x03] 0)
       /\ VirtualFS.readFile (lit "/f") (SdkFSPolyfill.vfs s')
          = Ok (U8 [x00; x00; x00; x02; x03])
       /\ SdkFSPolyfill.read 100 [x09; x09; x09] 0 2 (Some 3) s'
          = (Ok (2, [x02; x03; x09]), s').
Proof.
  split.
  - destruct (sdk_write_then_read 4 100 [x01; x02; x03] 1 2 (Some 3) sdk_one_open
                (SdkFSPolyfill.mkFile (lit "/f") 64 [] 0)) as [Hno _];
      [lia|lia|reflexivity|cbn; lia|lia|lia|unfold byteLength; cbn; lia|].
    apply Hno; [unfold byteLength; cbn; lia | left; cbn; lia].
  - destruct (sdk_write_then_read 5 100 [x01; x02; x03] 1 2 (Some 3) sdk_one_open
                (SdkFSPolyfill.mkFile (lit "/f") 64 [] 0)) as [_ Hyes];
      [lia|lia|reflexivity|cbn; lia|lia|lia|unfold byteLength; cbn; lia|].
    destruct Hyes as (s' & Hw & Hf & _ & Hr & Hrd).
    { intros _. cbn. unfold max_array_length. lia. }
    exists s'. split; [exact Hw|]. split; [exact Hf|]. split; [exact Hr|].
    apply (Hrd [x09; x09; x09]). unfold byteLength. cbn. lia.
Defined.

(** ** Opening an existing file, closing *)

Lemma sdk_target_fixed s p : VirtualFS._normalize (sdk_target s p) = sdk_target s p.
Proof. unfold sdk_target. apply sdk_normalize_fixed. Qed.

Lemma sdk_exists_target s p :
  VirtualFS.exists_ (sdk_target s p) (SdkFSPolyfill.vfs s)
  = bool_decide (is_Some (VirtualFS.files (SdkFSPolyfill.vfs s) !! sdk_target s p)).
Proof. unfold VirtualFS.exists_. by rewrite sdk_target_fixed. Qed.

(** X8.  [fs.open] of the SDK's shim on a path that holds a file: the call
    hands out the next descriptor and snapshots the file's bytes (none with
    [O_TRUNC]) without touching the filesystem; a [writeSync] through the
    descriptor then stores the snapshot followed by the written bytes, so
    writing appends unless [O_TRUNC] was given, and truncation reaches the
    filesystem only with the first write.  On a path that holds no file,
    without [O_CREAT], the call fails with [ENOENT] and changes nothing. *)
Theorem sdk_open_existing (p : jsstring) (flags mode : Z) (s : SdkFSPolyfill.t) :
  sdk_wf s ->
  (forall c,
      VirtualFS.files (SdkFSPolyfill.vfs s) !! sdk_target s p = Some c ->
      let init := if has_flag flags O_TRUNC then [] else content_bytes c in
      exists s',
        SdkFSPolyfill.open p flags mode s = (Ok (SdkFSPolyfill.nextFd s), s')
        /\ SdkFSPolyfill.vfs s' = SdkFSPolyfill.vfs s
        /\ SdkFSPolyfill.nextFd s' = SdkFSPolyfill.nextFd s + 1
        /\ SdkFSPolyfill.fds s' !! SdkFSPolyfill.nextFd s
           = Some (SdkFSPolyfill.mkFile (sdk_target s p) flags init 0)
        /\ forall buf, exists s'',
             SdkFSPolyfill.writeSync (SdkFSPolyfill.nextFd s) buf s'
             = (Ok (byteLength buf), s'')
             /\ VirtualFS.readFile (sdk_target s p) (SdkFSPolyfill.vfs s'')
                = Ok (U8 (init ++ buf)))
  /\ (VirtualFS.files (SdkFSPolyfill.vfs s) !! sdk_target s p = None ->
      has_flag flags O_CREAT = false ->
      SdkFSPolyfill.open p flags mode s = (Throw ENOENT, s)).
Proof.
  intros Hwf. split.
  - intros c Hc init. unfold SdkFSPolyfill.open. fold (sdk_target s p).
    rewrite sdk_exists_target, Hc, bool_decide_true by eauto.
    unfold VirtualFS.readFile at 1. rewrite sdk_target_fixed, Hc.
    assert (Hfound : match c with
                     | Str text => Ok (TextEncoder_encode text)
                     | U8 b => Ok b
                     | Buf b => Ok b
                     end = Ok (content_bytes c)) by (by destruct c).
    rewrite Hfound. fold init. eexists. split; [reflexivity|].
    cbn [SdkFSPolyfill.vfs SdkFSPolyfill.nextFd SdkFSPolyfill.fds].
    split; [reflexivity|]. split; [reflexivity|].
    split; [apply lookup_insert_eq|]. intros buf.
    destruct Hwf as [Hn _].
    match goal with
    | |- exists _, SdkFSPolyfill.writeSync ?fd0 _ ?st = _ /\ _ =>
        destruct (sdk_writeSync_file fd0 buf st
                    (SdkFSPolyfill.mkFile (sdk_target s p) flags init 0))
          as (s'' & Hw & _ & _ & Hr & _); [lia|lia|cbn; apply lookup_insert_eq|]
    end.
    exists s''. split; [exact Hw|]. exact Hr.
  - intros Hnone Hflag. unfold SdkFSPolyfill.open. fold (sdk_target s p).
    rewrite sdk_exists_target, Hnone, bool_decide_false by (by intros [? ?]).
    by rewrite Hflag.
Qed.

Lemma sdk_open_existing_witness :
  exists s',
    SdkFSPolyfill.open (lit "f") 1 0 sdk_with_file = (Ok 100, s')
    /\ SdkFSPolyfill.vfs s' = SdkFSPolyfill.vfs sdk_with_file
    /\ (exists s'',
          SdkFSPolyfill.writeSync 100 [x21] s' = (Ok 1, s'')
          /\ VirtualFS.readFile (lit "/f") (SdkFSPolyfill.vfs s'')
             = Ok (U8 [x68; x69; x21]))
    /\ SdkFSPolyfill.open (lit "g") 1 0 sdk_with_file = (Throw ENOENT, sdk_with_file).
Proof.
  destruct (sdk_open_existing (lit "f") 1 0 sdk_with_file (sdk_wf_new _ _)) as [He _].
  destruct (sdk_open_existing (lit "g") 1 0 sdk_with_file (sdk_wf_new _ _)) as [_ Hn].
  destruct (He (Str (lit "hi")) eq_refl) as (s' & Ho & Hv & _ & _ & Hw).
  exists s'. split; [exact Ho|]. split; [exact Hv|]. split; [exact (Hw [x21])|].
  apply Hn; reflexivity.
Defined.

(** X9.  [fs.close] of the SDK's shim: the call always succeeds; it forgets
    the descriptor, an unknown one included, and nothing else, so what was
    written stays in the filesystem and the other descriptors stay open.
    Afterwards every call through the closed descriptor fails with
    [EBADF]. *)
Theorem sdk_close_contract (fd : Z) (s : SdkFSPolyfill.t) :
  exists s',
    SdkFSPolyfill.close fd s = (Ok tt, s')
    /\ SdkFSPolyfill.vfs s' = SdkFSPolyfill.vfs s
    /\ SdkFSPolyfill.nextFd s' = SdkFSPolyfill.nextFd s
    /\ (forall fd', fd' <> fd -> SdkFSPolyfill.fds s' !! fd' = SdkFSPolyfill.fds s !! fd')
    /\ (SdkFSPolyfill.fds s !! fd = None -> s' = s)
    /\ (fd <> 1 -> fd <> 2 ->
        (forall buf, SdkFSPolyfill.writeSync fd buf s' = (Throw EBADF, s'))
        /\ (forall limit buf offset len pos,
              SdkFSPolyfill.write limit fd buf offset len pos s' = (Throw EBADF, s')))
    /\ (forall buffer offset len pos,
          SdkFSPolyfill.read fd buffer offset len pos s' = (Throw EBADF, s'))
    /\ SdkFSPolyfill.fstat fd s' = (Throw EBADF, s').
Proof.
  eexists. split; [reflexivity|]. cbn [SdkFSPolyfill.vfs SdkFSPolyfill.nextFd SdkFSPolyfill.fds].
  split; [reflexivity|]. split; [reflexivity|].
  split; [intros fd' Hne; by rewrite lookup_delete_ne|].
  split; [intros Hn; destruct s; cbn in *; f_equal; by apply delete_id|].
  split.
  - intros H1 H2. split.
    + intros buf. apply sdk_writeSync_badfd; [assumption..|]. cbn. apply lookup_delete_eq.
    + intros buf offset len pos. unfold SdkFSPolyfill.write.
      rewrite file_fd_test by assumption. cbn [SdkFSPolyfill.fds].
      by rewrite lookup_delete_eq.
  - unfold SdkFSPolyfill.read, SdkFSPolyfill.fstat. cbn [SdkFSPolyfill.fds].
    rewrite lookup_delete_eq. done.
Qed.

(** ** stat *)

Lemma join_inj segs1 segs2 :
  segs1 <> [] -> segs2 <> [] ->
  Forall clean_segment segs1 -> Forall clean_segment segs2 ->
  join slash segs1 = join slash segs2 -> segs1 = segs2.
Proof.
  intros H1 H2 Hc1 Hc2 Heq.
  rewrite <- (split_join slash segs1), <- (split_join slash segs2); try assumption.
  - by rewrite Heq.
  - eapply Forall_impl; [exact Hc2|]. by intros ? (_ & _ & _ & ?).
  - eapply Forall_impl; [exact Hc1|]. by intros ? (_ & _ & _ & ?).
Qed.

Lemma ancestor_dirs_elem segs d :
  d ∈ ancestor_dirs segs
  <-> exists k, (1 <= k < length segs)%nat /\ d = lit "/" ++ join slash (take k segs).
Proof.
  unfold ancestor_dirs. rewrite list_elem_of_fmap. split.
  - intros (k & -> & Hk). apply elem_of_seq in Hk. exists k. split; [lia|done].
  - intros (k & Hk & ->). exists k. split; [done|]. apply elem_of_seq. lia.
Qed.

Lemma resolve_cwd_absolute cwd x : resolve_cwd cwd (lit "/" ++ x) = lit "/" ++ x.
Proof.
  unfold resolve_cwd.
  assert (Hs : startsWith (lit "/" ++ x) (lit "/") = true)
    by (rewrite startsWith_slash; reflexivity).
  by rewrite Hs.
Qed.

(** X10.  [fs.stat] of the SDK's shim never changes anything and answers
    for the normal form of the path, resolved against the working directory:
    a file, with its size, when a file is stored there; otherwise a
    directory when the path is a registered directory or the root; otherwise
    [ENOENT].  So after [writeFile], every ancestor of the written path that
    is not itself a file answers as a directory. *)
Theorem sdk_stat_contract (p : jsstring) (s : SdkFSPolyfill.t) :
  SdkFSPolyfill.stat p s
  = (match VirtualFS.files (SdkFSPolyfill.vfs s) !! sdk_target s p with
     | Some c => Ok (file_stats (Some (VirtualFS.size_of c)))
     | None =>
         if bool_decide (sdk_target s p ∈ VirtualFS.directories (SdkFSPolyfill.vfs s))
            || str_eqb (sdk_target s p) (lit "/")
         then Ok directory_stats
         else Throw ENOENT
     end, s)
  /\ (forall q c fs segs d,
        SdkFSPolyfill.vfs s = VirtualFS.writeFile q c fs ->
        VirtualFS._normalize q = lit "/" ++ join slash segs ->
        Forall clean_segment segs ->
        d ∈ ancestor_dirs segs ->
        VirtualFS.files fs !! d = None ->
        SdkFSPolyfill.stat d s = (Ok directory_stats, s))
  /\ (forall q c fs,
        SdkFSPolyfill.vfs s = VirtualFS.writeFile q c fs ->
        SdkFSPolyfill.stat (VirtualFS._normalize q) s
        = (Ok (file_stats (Some (VirtualFS.size_of c))), s)).
Proof.
  assert (Hstat : forall s p, SdkFSPolyfill.stat p s
  = (match VirtualFS.files (SdkFSPolyfill.vfs s) !! sdk_target s p with
     | Some c => Ok (file_stats (Some (VirtualFS.size_of c)))
     | None =>
         if bool_decide (sdk_target s p ∈ VirtualFS.directories (SdkFSPolyfill.vfs s))
            || str_eqb (sdk_target s p) (lit "/")
         then Ok directory_stats
         else Throw ENOENT
     end, s)).
  { clear. intros s p. unfold SdkFSPolyfill.stat. fold (sdk_target s p).
    rewrite sdk_exists_target. unfold VirtualFS.readFile. rewrite sdk_target_fixed.
    destruct (VirtualFS.files _ !! _) as [c|].
    - by rewrite bool_decide_true by eauto.
    - rewrite bool_decide_false by apply is_Some_None. by destruct (_ || _). }
  split; [apply Hstat|]. split.
  - intros q c fs segs d Hv Hq Hc Hd Hnone. rewrite Hstat.
    apply ancestor_dirs_elem in Hd as (k & Hk & ->).
    assert (Hck : Forall clean_segment (take k segs)) by (by apply Forall_take).
    assert (Ht : sdk_target s (lit "/" ++ join slash (take k segs))
                 = lit "/" ++ join slash (take k segs)).
    { unfold sdk_target. rewrite resolve_cwd_absolute. by apply normalize_canonical. }
    rewrite Ht, Hv. unfold VirtualFS.writeFile at 1. cbn [VirtualFS.files].
    rewrite lookup_insert_ne, Hnone.
    2: { rewrite Hq. intros Heq. apply app_inv_head in Heq.
         apply join_inj in Heq; try assumption.
         - apply (f_equal length) in Heq. rewrite length_take in Heq. lia.
         - intros ->. cbn in Hk. lia.
         - intros Hn. apply (f_equal length) in Hn. rewrite length_take in Hn.
           cbn in Hn. lia. }
    destruct (sdk_writeFile_dirs q c fs) as (segs' & Hq' & Hc' & ->).
    assert (segs' = segs) as ->.
    { rewrite Hq in Hq'. apply app_inv_head in Hq'.
      destruct segs as [|x segs]; [cbn in Hk; lia|].
      destruct segs' as [|x' segs'].
      - apply Forall_cons in Hc as [(Hne & _) _]. exfalso.
        destruct x; [contradiction|]. destruct segs; discriminate.
      - symmetry. by apply join_inj. }
    rewrite bool_decide_true; [reflexivity|].
    apply elem_of_union_l, elem_of_list_to_set, ancestor_dirs_elem. eauto.
  - intros q c fs Hv. rewrite Hstat.
    assert (Ht : sdk_target s (VirtualFS._normalize q) = VirtualFS._normalize q).
    { unfold sdk_target. destruct (normalize_clean q) as (segs & -> & Hc).
      rewrite resolve_cwd_absolute. by apply normalize_canonical. }
    rewrite Ht, Hv. unfold VirtualFS.writeFile. cbn [VirtualFS.files].
    by rewrite lookup_insert_eq.
Qed.

(** ** Normal forms and the paths they come from *)

(** Every path is the join of its segments. *)
Lemma join_split sep s : join sep (split sep s) = s.
Proof.
  induction s as [|c s IH]; [reflexivity|]. cbn [split].
  destruct (Z.eqb_spec c sep) as [->|_].
  - pose proof (split_nonempty sep s) as Hne.
    destruct (split sep s) as [|seg segs]; [contradiction|].
    change (join sep ([] :: seg :: segs)) with (sep :: join sep (seg :: segs)).
    by rewrite IH.
  - destruct (split sep s) as [|seg [|seg' segs]]; cbn [join] in *.
    + by subst.
    + by subst.
    + by rewrite <- IH.
Qed.

Lemma resolve_filter segs resolved :
  VirtualFS.resolve
    (List.filter (fun p => truthy p && negb (str_eqb p (lit "."))) segs) resolved
  = fold_left resolve_step segs resolved.
Proof.
  revert resolved. induction segs as [|seg segs IH]; intros resolved; [reflexivity|].
  cbn [List.filter fold_left]. rewrite <- IH. unfold resolve_step.
  destruct seg as [|c seg].
  { assert (E : str_eqb [] [] = true) by (by apply str_eqb_eq). by rewrite E. }
  assert (E : str_eqb (c :: seg) [] = false) by (by apply str_eqb_neq).
  rewrite E. cbn [truthy andb orb].
  destruct (str_eqb (c :: seg) (lit ".")); cbn [negb]; [reflexivity|].
  cbn [VirtualFS.resolve]. by destruct (str_eqb (c :: seg) (lit "..")).
Qed.

Lemma startsWith_slash_join seg segs :
  slash ∉ seg ->
  startsWith (join slash (seg :: segs)) (lit "/") = true -> seg = [] /\ segs <> [].
Proof.
  intros Hn. rewrite startsWith_slash. destruct seg as [|c seg].
  - destruct segs; [discriminate|]. by intros _.
  - apply not_elem_of_cons in Hn as [Hc _].
    assert (Hj : exists t, join slash ((c :: seg) :: segs) = c :: t)
      by (destruct segs; cbn [join app]; eauto).
    destruct Hj as [t ->]. intros H. apply Z.eqb_eq in H. unfold slash in Hc. congruence.
Qed.

(** [_normalize] on the segments of its argument. *)
Lemma sdk_normalize_segments segs :
  Forall (fun seg => slash ∉ seg) segs ->
  VirtualFS._normalize (join slash segs) = lit "/" ++ join slash (dot_resolved segs).
Proof.
  intros Hall. unfold VirtualFS._normalize, dot_resolved.
  destruct segs as [|seg segs]; [reflexivity|].
  assert (Hsplit : split slash (join slash (seg :: segs)) = seg :: segs)
    by (apply split_join; [discriminate|exact Hall]).
  destruct (startsWith (join slash (seg :: segs)) (lit "/")) eqn:Hs; cbn [negb].
  - rewrite Hsplit. by rewrite resolve_filter.
  - change (lit "/" ++ join slash (seg :: segs)) with (slash :: join slash (seg :: segs)).
    rewrite split_cons_sep, Hsplit.
    match goal with
    | |- context [List.filter ?f ([] :: ?l)] =>
        change (List.filter f ([] :: l)) with (List.filter f l)
    end.
    by rewrite resolve_filter.
Qed.

Lemma collapse_segment seg rest :
  slash ∉ seg -> collapse_slashes (seg ++ rest) = seg ++ collapse_slashes rest.
Proof.
  induction seg as [|c seg IH]; intros Hn; [reflexivity|].
  apply not_elem_of_cons in Hn as [Hc Hn]. cbn [app collapse_slashes].
  destruct (Z.eqb_spec c slash) as [->|_]; [contradiction|]. by rewrite IH.
Qed.

Lemma collapsed_nonempty segs : collapsed segs <> [].
Proof.
  induction segs as [|seg [|seg' segs] IH]; cbn [collapsed]; try discriminate.
  destruct (truthy seg); [discriminate|exact IH].
Qed.

Lemma collapse_free seg : slash ∉ seg -> collapse_slashes seg = seg.
Proof.
  intros Hn. rewrite <- (app_nil_r seg) at 1. rewrite collapse_segment by exact Hn.
  apply app_nil_r.
Qed.

Lemma collapse_slash_slash s :
  collapse_slashes (slash :: slash :: s) = collapse_slashes (slash :: s).
Proof. reflexivity. Qed.

Lemma collapse_slash_other c s :
  c <> slash ->
  collapse_slashes (slash :: c :: s) = slash :: collapse_slashes (c :: s).
Proof.
  intros Hc. change (collapse_slashes (slash :: c :: s))
    with (if c =? slash then collapse_slashes (c :: s)
          else slash :: collapse_slashes (c :: s)).
  by destruct (Z.eqb_spec c slash).
Qed.

Lemma collapse_rooted segs :
  segs <> [] -> Forall (fun seg => slash ∉ seg) segs ->
  collapse_slashes (slash :: join slash segs) = slash :: join slash (collapsed segs).
Proof.
  induction segs as [|seg segs IH]; intros Hne Hall; [contradiction|].
  inversion Hall as [|? ? Hseg Hrest]; subst.
  destruct segs as [|seg' segs].
  - cbn [join collapsed]. destruct seg as [|c seg]; [reflexivity|].
    pose proof Hseg as Hseg'. apply not_elem_of_cons in Hseg' as [Hc _].
    rewrite collapse_slash_other by congruence. by rewrite collapse_free.
  - specialize (IH ltac:(discriminate) Hrest).
    change (join slash (seg :: seg' :: segs)) with (seg ++ slash :: join slash (seg' :: segs)).
    change (collapsed (seg :: seg' :: segs))
      with (if truthy seg then seg :: collapsed (seg' :: segs) else collapsed (seg' :: segs)).
    destruct seg as [|c seg]; cbn [truthy].
    + cbn [app]. rewrite collapse_slash_slash. exact IH.
    + pose proof Hseg as Hseg'. apply not_elem_of_cons in Hseg' as [Hc _].
      change (slash :: (c :: seg) ++ slash :: join slash (seg' :: segs))
        with (slash :: c :: (seg ++ slash :: join slash (seg' :: segs))).
      rewrite collapse_slash_other by congruence.
      change (c :: seg ++ slash :: join slash (seg' :: segs))
        with ((c :: seg) ++ slash :: join slash (seg' :: segs)).
      rewrite collapse_segment by exact Hseg. rewrite IH.
      pose proof (collapsed_nonempty (seg' :: segs)) as Hcn.
      destruct (collapsed (seg' :: segs)) as [|x xs]; [contradiction|]. reflexivity.
Qed.

(** [normalizePath] on the segments of its argument. *)
Lemma legacy_normalize_segments segs :
  Forall (fun seg => slash ∉ seg) segs ->
  VirtualFileSystem.normalizePath (join slash segs) = lit "/" ++ join slash (collapsed segs).
Proof.
  intros Hall. unfold VirtualFileSystem.normalizePath.
  destruct segs as [|seg segs]; [reflexivity|].
  inversion Hall as [|? ? Hseg Hrest]; subst.
  destruct (startsWith (join slash (seg :: segs)) (lit "/")) eqn:Hs; cbn [negb].
  - destruct (startsWith_slash_join seg segs Hseg Hs) as [-> Hne].
    destruct segs as [|seg' segs]; [contradiction|].
    change (join slash ([] :: seg' :: segs)) with (slash :: join slash (seg' :: segs)).
    rewrite collapse_rooted by (discriminate || exact Hrest). reflexivity.
  - change (lit "/" ++ join slash (seg :: segs)) with (slash :: join slash (seg :: segs)).
    by rewrite collapse_rooted by (discriminate || exact Hall).
Qed.

Lemma collapsed_kept init lst :
  Forall (fun seg => seg <> []) init -> collapsed (init ++ [lst]) = init ++ [lst].
Proof.
  induction 1 as [|seg init Hne _ IH]; [reflexivity|].
  change ((seg :: init) ++ [lst]) with (seg :: (init ++ [lst])).
  destruct (init ++ [lst]) as [|x xs] eqn:E; [by destruct init|].
  change (collapsed (seg :: x :: xs))
    with (if truthy seg then seg :: collapsed (x :: xs) else collapsed (x :: xs)).
  destruct seg; [contradiction|]. cbn [truthy]. by rewrite IH.
Qed.

Lemma legacy_normalize_kept init lst :
  Forall (fun seg => seg <> [] /\ slash ∉ seg) init -> slash ∉ lst ->
  VirtualFileSystem.normalizePath (lit "/" ++ join slash (init ++ [lst]))
  = lit "/" ++ join slash (init ++ [lst]).
Proof.
  intros Hinit Hlst.
  assert (Hj : lit "/" ++ join slash (init ++ [lst]) = join slash ([] :: init ++ [lst])).
  { destruct (init ++ [lst]) eqn:E; [by destruct init|reflexivity]. }
  rewrite Hj at 1. rewrite legacy_normalize_segments.
  2: { constructor; [by apply not_elem_of_nil|]. apply Forall_app. split.
       - eapply Forall_impl; [exact Hinit|]. by intros ? [_ ?].
       - by constructor. }
  f_equal. f_equal.
  change ([] :: init ++ [lst]) with (([] : jsstring) :: (init ++ [lst])).
  destruct (init ++ [lst]) as [|x xs] eqn:E; [by destruct init|].
  change (collapsed ([] :: x :: xs)) with (collapsed (x :: xs)).
  rewrite <- E. apply collapsed_kept.
  eapply Forall_impl; [exact Hinit|]. by intros ? [? _].
Qed.

(** C7 (as amended).  A path is the join of its segments, and both
    normalizers are determined on them.  [VirtualFS._normalize] of the SDK
    resolves the segments one after the other (an empty segment and [.] are
    skipped, [..] drops the segment kept last, if any) and yields [/]
    followed by the segments kept, joined by single separators: clean
    segments (none empty, [.] or [..], none holding a separator).
    [VirtualFileSystem.normalizePath] of the demo site only prefixes a
    missing [/] and collapses runs of separators: it drops the empty
    segments except the last and keeps the others, so a path without
    repeated separators comes back as it is, its [.] and [..] segments and a
    trailing separator included; the result starts with [/] and holds no
    two adjacent separators.  In either filesystem, when two paths normalize
    to the same path, a file written through one is read back through the
    other. *)
Theorem path_canonicalization (p1 p2 : jsstring) (c : content)
    (sdk : VirtualFS.t) (legacy : VirtualFileSystem.t) :
  (p1 = join slash (split slash p1)
   /\ Forall (fun seg => slash ∉ seg) (split slash p1))
  /\ (forall segs,
        Forall (fun seg => slash ∉ seg) segs ->
        VirtualFS._normalize (join slash segs) = lit "/" ++ join slash (dot_resolved segs))
  /\ (exists segs,
        VirtualFS._normalize p1 = lit "/" ++ join slash segs
        /\ Forall clean_segment segs)
  /\ (VirtualFS._normalize p1 = VirtualFS._normalize p2 ->
      VirtualFS.readFile p2 (VirtualFS.writeFile p1 c sdk) = Ok c)
  /\ (forall segs,
        Forall (fun seg => slash ∉ seg) segs ->
        VirtualFileSystem.normalizePath (join slash segs)
        = lit "/" ++ join slash (collapsed segs))
  /\ (forall init lst,
        Forall (fun seg => seg <> [] /\ slash ∉ seg) init -> slash ∉ lst ->
        VirtualFileSystem.normalizePath (lit "/" ++ join slash (init ++ [lst]))
        = lit "/" ++ join slash (init ++ [lst]))
  /\ startsWith (VirtualFileSystem.normalizePath p1) (lit "/") = true
  /\ (forall a b, VirtualFileSystem.normalizePath p1 <> a ++ lit "//" ++ b)
  /\ (VirtualFileSystem.normalizePath p1 = VirtualFileSystem.normalizePath p2 ->
      VirtualFileSystem.readFile p2 (VirtualFileSystem.writeFile p1 c legacy) = Ok c).
Proof.
  split_and!.
  - by rewrite join_split.
  - apply split_no_sep.
  - apply sdk_normalize_segments.
  - apply normalize_clean.
  - apply sdk_write_read.
  - apply legacy_normalize_segments.
  - apply legacy_normalize_kept.
  - apply normalizePath_absolute.
  - apply normalizePath_no_double.
  - apply legacy_write_read.
Qed.

Lemma path_canonicalization_witness :
  VirtualFS._normalize (lit "a//./c/../b") = lit "/a/b"
  /\ VirtualFS.readFile (lit "/a/b")
       (VirtualFS.writeFile (lit "a//./c/../b") (Str (lit "x")) VirtualFS.new)
     = Ok (Str (lit "x"))
  /\ VirtualFileSystem.normalizePath (lit "a//./c/../b/") = lit "/a/./c/../b/"
  /\ VirtualFileSystem.readFile (lit "/a/b")
       (VirtualFileSystem.writeFile (lit "a//b") (Str (lit "x")) VirtualFileSystem.new)
     = Ok (Str (lit "x")).
Proof.
  destruct (path_canonicalization (lit "a//./c/../b") (lit "/a/b") (Str (lit "x"))
              VirtualFS.new VirtualFileSystem.new)
    as (_ & Hsegs & _ & Hsdk & Hcollapse & _).
  destruct (path_canonicalization (lit "a//b") (lit "/a/b") (Str (lit "x"))
              VirtualFS.new VirtualFileSystem.new) as (_ & _ & _ & _ & _ & _ & _ & _ & Hlegacy).
  split_and!.
  - apply (Hsegs [lit "a"; []; lit "."; lit "c"; lit ".."; lit "b"]).
    refine (bool_decide_unpack _ _). vm_compute. exact I.
  - apply Hsdk. vm_compute. reflexivity.
  - apply (Hcollapse [lit "a"; []; lit "."; lit "c"; lit ".."; lit "b"; []]).
    refine (bool_decide_unpack _ _). vm_compute. exact I.
  - apply Hlegacy. vm_compute. reflexivity.
Defined.

(** C7, as stated, fails on [VirtualFileSystem]: [/a/./b] is left as it is,
    so a file written there is not found at [/a/b], although the two paths
    denote the same file once [.] is resolved (as [VirtualFS._normalize]
    does). *)
Lemma path_canonicalization_counterexample :
  VirtualFileSystem.normalizePath (lit "/a/./b") = lit "/a/./b"
  /\ VirtualFS._normalize (lit "/a/./b") = VirtualFS._normalize (lit "/a/b")
  /\ VirtualFileSystem.readFile (lit "/a/b")
       (VirtualFileSystem.writeFile (lit "/a/./b") (Str (lit "x")) VirtualFileSystem.new)
     = Throw (FileNotFound (lit "/a/b")).
Proof. vm_compute. repeat split. Qed.

(** ** [writeSync], descriptor by descriptor *)







(** ** The first write through a new descriptor *)







(** ** Sequences of calls *)

Lemma sdk_wf_read fd buffer offset len pos s :
  sdk_wf s -> sdk_wf (SdkFSPolyfill.read fd buffer offset len pos s).2.
Proof.
  intros [Hn Hf]. unfold SdkFSPolyfill.read.
  destruct (SdkFSPolyfill.fds s !! fd) as [f|] eqn:Hfd; [|by split].
  destruct (_ <=? _); [by split|]. destruct (Uint8Array_set _ _ _); [|by split].
  destruct pos; [by split|]. split; [exact Hn|]. cbn. intros fd' f'.
  rewrite lookup_insert. case_decide; [subst; intros _; eauto|apply Hf].
Qed.

Lemma sdk_wf_after call s : sdk_wf s -> sdk_wf (sdk_after call s).
Proof.
  destruct call; cbn [sdk_after]; try done.
  - apply sdk_wf_open.
  - apply sdk_wf_close.
  - apply sdk_wf_writeSync.
  - apply sdk_wf_write.
  - apply sdk_wf_read.
Qed.

Lemma sdk_wf_run calls s : sdk_wf s -> sdk_wf (sdk_run calls s).
Proof.
  revert s. induction calls as [|call calls IH]; intros s Hwf; [exact Hwf|].
  apply IH, sdk_wf_after, Hwf.
Qed.

Lemma sdk_nextFd_after call s :
  SdkFSPolyfill.nextFd s <= SdkFSPolyfill.nextFd (sdk_after call s).
Proof.
  destruct call; cbn [sdk_after]; try (cbn; lia).
  - unfold SdkFSPolyfill.open. destruct (if VirtualFS.exists_ _ _ then _ else _); cbn; lia.
  - unfold SdkFSPolyfill.writeSync. destruct (_ || _); [unfold SdkFSPolyfill.emit|].
    + destruct (SdkFSPolyfill.outputCallback s); cbn; lia.
    + destruct (_ !! _); cbn; lia.
  - unfold SdkFSPolyfill.write. destruct (_ || _); [unfold SdkFSPolyfill.emit|].
    + destruct (SdkFSPolyfill.outputCallback s); cbn; lia.
    + destruct (_ !! _); [|cbn; lia]. destruct (if _ <? _ then _ else _); [|cbn; lia].
      destruct (Uint8Array_set _ _ _); cbn; lia.
  - unfold SdkFSPolyfill.read. destruct (_ !! _); [|cbn; lia].
    destruct (_ <=? _); [cbn; lia|]. destruct (Uint8Array_set _ _ _); [|cbn; lia].
    destruct position; cbn; lia.
Qed.

Lemma sdk_nextFd_run calls s :
  SdkFSPolyfill.nextFd s <= SdkFSPolyfill.nextFd (sdk_run calls s).
Proof.
  revert s. induction calls as [|call calls IH]; intros s; [cbn; lia|].
  cbn [sdk_run fold_left]. pose proof (sdk_nextFd_after call s).
  pose proof (IH (sdk_after call s)). unfold sdk_run in *. lia.
Qed.

Lemma sdk_open_ok p flags mode s fd s' :
  SdkFSPolyfill.open p flags mode s = (Ok fd, s') ->
  fd = SdkFSPolyfill.nextFd s /\ SdkFSPolyfill.nextFd s' = fd + 1.
Proof.
  unfold SdkFSPolyfill.open. destruct (if VirtualFS.exists_ _ _ then _ else _); [|discriminate].
  intros [= <- <-]. cbn. split; reflexivity.
Qed.

(** X11.  Descriptors of the SDK's shim.  After any sequence of calls on a
    fresh shim, an [open] that succeeds returns a descriptor that is at
    least 100 (so never one of the standard streams) and is not open; and
    whatever calls follow, a later [open] returns a greater one: a
    descriptor is never handed out twice, closed or not. *)
Theorem sdk_descriptors_fresh (fs : VirtualFS.t) (callback : bool)
    (calls calls' : list sdk_call) (p p' : jsstring) (flags mode flags' mode' : Z) :
  let s := sdk_run calls (SdkFSPolyfill.new fs callback) in
  forall fd s1,
    SdkFSPolyfill.open p flags mode s = (Ok fd, s1) ->
    100 <= fd
    /\ SdkFSPolyfill.fds s !! fd = None
    /\ forall fd' s2,
         SdkFSPolyfill.open p' flags' mode' (sdk_run calls' s1) = (Ok fd', s2) ->
         fd < fd'.
Proof.
  intros s fd s1 Ho.
  assert (Hwf : sdk_wf s) by apply sdk_wf_run, sdk_wf_new.
  apply sdk_open_ok in Ho as [-> Hn1].
  split; [apply Hwf|]. split; [by apply sdk_fresh|].
  intros fd' s2 Ho'. apply sdk_open_ok in Ho' as [-> _].
  pose proof (sdk_nextFd_run calls' s1). lia.
Qed.

Lemma sdk_descriptors_fresh_witness :
  100 <= 101
  /\ SdkFSPolyfill.fds
       (sdk_run [CallOpen (lit "/a") 64 0; CallClose 100]
          (SdkFSPolyfill.new VirtualFS.new true)) !! 101 = None
  /\ forall fd' s2,
       SdkFSPolyfill.open (lit "/c") 64 0
         (sdk_run [CallClose 101]
            (SdkFSPolyfill.open (lit "/b") 64 0
               (sdk_run [CallOpen (lit "/a") 64 0; CallClose 100]
                  (SdkFSPolyfill.new VirtualFS.new true))).2)
       = (Ok fd', s2) ->
       101 < fd'.
Proof.
  apply (sdk_descriptors_fresh VirtualFS.new true
           [CallOpen (lit "/a") 64 0; CallClose 100] [CallClose 101]
           (lit "/b") (lit "/c") 64 0 64 0).
  vm_compute. reflexivity.
Defined.

Lemma sdk_files_writeFile p c fs q :
  is_Some (VirtualFS.files fs !! q) ->
  is_Some (VirtualFS.files (VirtualFS.writeFile p c fs) !! q).
Proof.
  intros Hq. unfold VirtualFS.writeFile. cbn [VirtualFS.files].
  destruct (decide (VirtualFS._normalize p = q)) as [->|Hne].
  - rewrite lookup_insert_eq. eauto.
  - by rewrite lookup_insert_ne.
Qed.

Lemma sdk_dirs_writeFile p c fs d :
  d ∈ VirtualFS.directories fs -> d ∈ VirtualFS.directories (VirtualFS.writeFile p c fs).
Proof.
  intros Hd. destruct (sdk_writeFile_dirs p c fs) as (segs & _ & _ & ->).
  by apply elem_of_union_r.
Qed.

(** What no call loses: the files and the directories stored. *)
Lemma sdk_kept_after call s q :
  (is_Some (VirtualFS.files (SdkFSPolyfill.vfs s) !! q) ->
   is_Some (VirtualFS.files (SdkFSPolyfill.vfs (sdk_after call s)) !! q))
  /\ (q ∈ VirtualFS.directories (SdkFSPolyfill.vfs s) ->
      q ∈ VirtualFS.directories (SdkFSPolyfill.vfs (sdk_after call s))).
Proof.
  destruct call; cbn [sdk_after]; try (by split).
  - unfold SdkFSPolyfill.open. by destruct (if VirtualFS.exists_ _ _ then _ else _).
  - unfold SdkFSPolyfill.writeSync. destruct (_ || _); [unfold SdkFSPolyfill.emit|].
    + by destruct (SdkFSPolyfill.outputCallback s).
    + destruct (SdkFSPolyfill.fds s !! fd); [|by split].
      cbn [SdkFSPolyfill.vfs SdkFSPolyfill.set_vfs SdkFSPolyfill.set_fd snd].
      split; [apply sdk_files_writeFile|apply sdk_dirs_writeFile].
  - unfold SdkFSPolyfill.write. destruct (_ || _); [unfold SdkFSPolyfill.emit|].
    + by destruct (SdkFSPolyfill.outputCallback s).
    + destruct (SdkFSPolyfill.fds s !! fd); [|by split]. destruct (if _ <? _ then _ else _); [|by split].
      destruct (Uint8Array_set _ _ _); [|by split].
      cbn [SdkFSPolyfill.vfs SdkFSPolyfill.set_vfs SdkFSPolyfill.set_fd snd].
      split; [apply sdk_files_writeFile|apply sdk_dirs_writeFile].
  - unfold SdkFSPolyfill.read. destruct (SdkFSPolyfill.fds s !! fd); [|by split].
    destruct (_ <=? _); [by split|]. destruct (Uint8Array_set _ _ _); [|by split].
    by destruct position.
  - cbn. split; [done|]. intros Hq. by apply elem_of_union_r.
Qed.

(** X12.  No call on the SDK's shim removes anything: a file that exists,
    and a directory that is registered, are still there after any sequence
    of calls, [unlink], [rename], [rmdir] and [ftruncate] included, which
    report success and do nothing. *)
Theorem sdk_nothing_removed (calls : list sdk_call) (s : SdkFSPolyfill.t) (q : jsstring) :
  (VirtualFS.exists_ q (SdkFSPolyfill.vfs s) = true ->
   VirtualFS.exists_ q (SdkFSPolyfill.vfs (sdk_run calls s)) = true)
  /\ (q ∈ VirtualFS.directories (SdkFSPolyfill.vfs s) ->
      q ∈ VirtualFS.directories (SdkFSPolyfill.vfs (sdk_run calls s)))
  /\ (forall path from to fd len,
        SdkFSPolyfill.unlink path s = (Ok tt, s)
        /\ SdkFSPolyfill.rename from to s = (Ok tt, s)
        /\ SdkFSPolyfill.rmdir path s = (Ok tt, s)
        /\ SdkFSPolyfill.ftruncate fd len s = (Ok tt, s)).
Proof.
  split_and!; [| |done].
  - unfold VirtualFS.exists_. rewrite !bool_decide_eq_true.
    revert s. induction calls as [|call calls IH]; intros s Hq; [exact Hq|].
    apply IH. by apply sdk_kept_after.
  - revert s. induction calls as [|call calls IH]; intros s Hq; [exact Hq|].
    apply IH. by apply sdk_kept_after.
Qed.

(** ** Loading the packages into the filesystem *)

Lemma view_ok_view buf e :
  view_ok buf e -> Uint8Array_view buf (offset e) (size e) = Ok (sub_bytes buf (offset e) (size e)).
Proof. intros (Ho & Hs & Hr). by apply view_in_range. Qed.

Lemma view_not_ok buf e :
  ~ view_ok buf e -> Uint8Array_view buf (offset e) (size e) = Throw RangeError.
Proof.
  intros Hn. unfold Uint8Array_view.
  destruct (Z.leb_spec 0 (offset e)), (Z.leb_spec 0 (size e)),
    (Z.leb_spec (offset e + size e) (byteLength buf)); cbn [andb]; try reflexivity.
  exfalso. apply Hn. by repeat split.
Qed.

Lemma sdk_write_packages_ok buf index fs :
  Forall (fun ne => view_ok buf ne.2) index ->
  SdkPack.write_packages buf index fs = (Ok tt, sdk_archives_written buf index fs).
Proof.
  revert fs. induction index as [|[name e] index IH]; intros fs Hall; [reflexivity|].
  apply Forall_cons in Hall as [He Hall]. cbn [SdkPack.write_packages snd] in *.
  unfold_monad. rewrite (view_ok_view _ _ He). by rewrite IH.
Qed.

Lemma sdk_write_packages_app buf pre post fs :
  Forall (fun ne => view_ok buf ne.2) pre ->
  SdkPack.write_packages buf (pre ++ post) fs
  = SdkPack.write_packages buf post (sdk_archives_written buf pre fs).
Proof.
  revert fs. induction pre as [|[name e] pre IH]; intros fs Hall; [reflexivity|].
  apply Forall_cons in Hall as [He Hall]. cbn [app SdkPack.write_packages snd] in *.
  unfold_monad. rewrite (view_ok_view _ _ He). by rewrite IH.
Qed.

Lemma sdk_archives_read buf index fs name e :
  (name, e) ∈ index ->
  (forall name' e', (name', e') ∈ index ->
     VirtualFS._normalize (archive_path name') = VirtualFS._normalize (archive_path name) ->
     (name', e') = (name, e)) ->
  VirtualFS.readFile (archive_path name) (sdk_archives_written buf index fs)
  = Ok (U8 (sub_bytes buf (offset e) (size e))).
Proof.
  unfold sdk_archives_written.
  induction index as [|[name' e'] index IH] using rev_ind; intros Hin Huniq.
  - by apply elem_of_nil in Hin.
  - rewrite fold_left_app. cbn [fold_left fst snd].
    destruct (decide (VirtualFS._normalize (archive_path name')
                      = VirtualFS._normalize (archive_path name))) as [Heq|Hne].
    + assert (Hx : (name', e') = (name, e)).
      { apply Huniq; [|exact Heq]. apply elem_of_app. right. apply list_elem_of_here. }
      injection Hx as -> ->. by apply sdk_write_read.
    + unfold VirtualFS.readFile at 1. unfold VirtualFS.writeFile at 1.
      cbn [VirtualFS.files]. rewrite lookup_insert_ne by exact Hne.
      apply IH.
      * apply elem_of_app in Hin as [Hin|Hin]; [exact Hin|].
        apply list_elem_of_singleton in Hin. injection Hin as -> ->. contradiction.
      * intros n0 e0 Hin0. apply Huniq. apply elem_of_app. by left.
Qed.

Lemma sdk_archives_keep buf index fs q :
  VirtualFS.exists_ q fs = true ->
  VirtualFS.exists_ q (sdk_archives_written buf index fs) = true.
Proof.
  unfold VirtualFS.exists_, sdk_archives_written. rewrite !bool_decide_eq_true.
  revert fs. induction index as [|ne index IH]; intros fs Hq; [exact Hq|].
  cbn [fold_left]. apply IH. by apply sdk_files_writeFile.
Qed.

(** *** The index as a [Map] *)

Lemma Map_set_elem {V} k (v : V) m k' v' :
  (k', v') ∈ Map_set k v m -> (k', v') = (k, v) \/ (k', v') ∈ m.
Proof.
  induction m as [|[k0 v0] m IH]; cbn [Map_set].
  - intros H. apply list_elem_of_singleton in H. by left.
  - destruct (str_eqb k0 k).
    + intros H. apply elem_of_cons in H as [H|H]; [by left|].
      right. by apply list_elem_of_further.
    + intros H. apply elem_of_cons in H as [H|H].
      * right. rewrite H. apply list_elem_of_here.
      * destruct (IH H) as [?|?]; [by left|]. right. by apply list_elem_of_further.
Qed.

Lemma Map_set_key_other {V} k (v : V) m k' :
  k' ∈ (Map_set k v m).*1 -> k' = k \/ k' ∈ m.*1.
Proof.
  intros H. apply list_elem_of_fmap in H as ([k0 v0] & -> & H).
  apply Map_set_elem in H as [[= -> ->]|H]; [by left|].
  right. apply list_elem_of_fmap. by exists (k0, v0).
Qed.

Lemma Map_set_nodup {V} k (v : V) m : NoDup m.*1 -> NoDup (Map_set k v m).*1.
Proof.
  induction m as [|[k0 v0] m IH]; cbn [Map_set]; intros Hnd.
  - cbn. apply NoDup_singleton.
  - cbn [fmap list_fmap fst] in Hnd. apply NoDup_cons in Hnd as [Hk0 Hnd].
    destruct (str_eqb k0 k) eqn:E.
    + apply str_eqb_eq in E as ->. cbn. by apply NoDup_cons.
    + apply str_eqb_neq in E. cbn [fmap list_fmap fst]. apply NoDup_cons. split; [|by apply IH].
      intros Hin. apply Map_set_key_other in Hin as [?|?]; [congruence|contradiction].
Qed.

Lemma Map_get_elem {V} k (v : V) m : Map_get k m = Some v -> (k, v) ∈ m.
Proof.
  induction m as [|[k0 v0] m IH]; cbn [Map_get]; [discriminate|].
  destruct (str_eqb k0 k) eqn:E.
  - apply str_eqb_eq in E as ->. intros [= ->]. apply list_elem_of_here.
  - intros H. apply list_elem_of_further, IH, H.
Qed.

Lemma Map_elem_get {V} k (v : V) m : NoDup m.*1 -> (k, v) ∈ m -> Map_get k m = Some v.
Proof.
  induction m as [|[k0 v0] m IH]; intros Hnd Hin; [by apply elem_of_nil in Hin|].
  cbn [fmap list_fmap fst] in Hnd. apply NoDup_cons in Hnd as [Hk0 Hnd]. cbn [Map_get].
  apply elem_of_cons in Hin as [[= -> ->]|Hin].
  - unfold str_eqb. by rewrite bool_decide_eq_true_2.
  - destruct (str_eqb k0 k) eqn:E; [|by apply IH].
    apply str_eqb_eq in E as ->. exfalso. apply Hk0.
    apply list_elem_of_fmap. by exists (k, v).
Qed.

Lemma file_all_nodup ds es idx : NoDup idx.*1 -> NoDup (file_all ds es idx).*1.
Proof.
  revert idx. induction es as [|e es IH]; intros idx Hnd; [exact Hnd|].
  rewrite file_all_cons. by apply IH, Map_set_nodup.
Qed.

Lemma file_all_elem ds es idx k v :
  (k, v) ∈ file_all ds es idx ->
  (k, v) ∈ idx \/ exists e, e ∈ es /\ k = entry_name e /\ v = filed ds e.
Proof.
  revert idx. induction es as [|e es IH]; intros idx Hin; [by left|].
  rewrite file_all_cons in Hin. apply IH in Hin as [Hin|(e' & He' & ? & ?)].
  - apply Map_set_elem in Hin as [[= -> ->]|Hin]; [|by left].
    right. exists e. split; [apply list_elem_of_here|done].
  - right. exists e'. split; [by apply list_elem_of_further|done].
Qed.

(** X13.  Loading a valid pack into the SDK's filesystem:
    [_parseToolchainPack] followed by [_loadPackagesIntoVFS] succeeds and
    leaves, for every package, its archive at [/pkg/js_wasm/<name>.a],
    byte for byte the range the index declares (for a name filed twice, the
    last entry's), provided no other package name leads to the same
    normalized path.  The files that were there before are still there. *)
Theorem sdk_stdlib_loaded (pack : bytes) (ly : pack_layout) (fs : VirtualFS.t) :
  valid_pack pack ly ->
  exists p fs',
    SdkPack._parseToolchainPack pack = Ok p
    /\ SdkPack._loadPackagesIntoVFS p fs = (Ok tt, fs')
    /\ (forall i e,
          last_of_its_name (entries ly) i e ->
          (forall e', e' ∈ entries ly ->
             VirtualFS._normalize (archive_path (entry_name e'))
             = VirtualFS._normalize (archive_path (entry_name e)) ->
             entry_name e' = entry_name e) ->
          VirtualFS.readFile (archive_path (entry_name e)) fs'
          = Ok (U8 (declared_archive pack ly e)))
    /\ (forall q, VirtualFS.exists_ q fs = true -> VirtualFS.exists_ q fs' = true).
Proof.
  intros [Hwf Hin]. rewrite Forall_forall in Hin.
  set (index := file_all (data_start ly) (entries ly) []).
  exists (SdkPack.mk pack (sub_bytes pack 16 (L1 ly)) (sub_bytes pack (20 + L1 ly) (L2 ly))
            (JArray (names ly)) index (data_start ly)),
         (sdk_archives_written pack index fs).
  split; [apply (sdk_parse_well_formed pack ly Hwf)|].
  unfold SdkPack._loadPackagesIntoVFS. cbn [SdkPack.packData SdkPack.packageIndex].
  assert (Hnd : NoDup index.*1) by (apply file_all_nodup; constructor).
  assert (Helem : forall k v, (k, v) ∈ index ->
            exists e, e ∈ entries ly /\ k = entry_name e /\ v = filed (data_start ly) e).
  { intros k v Hkv. apply file_all_elem in Hkv as [Hkv|?]; [|done].
    by apply elem_of_nil in Hkv. }
  assert (Hok : Forall (fun ne => view_ok pack ne.2) index).
  { apply Forall_forall. intros [k v] Hkv. destruct (Helem k v Hkv) as (e & He & -> & ->).
    destruct (filed_exact pack ly e Hwf He (Hin e He)) as (-> & Ho & Hs).
    cbn [snd]. unfold view_ok. cbn [offset size]. repeat split; [lia|lia|].
    specialize (Hin e He). unfold archive_inside in Hin. lia. }
  split; [by apply sdk_write_packages_ok|]. split.
  - intros i e Hlast Huniq.
    assert (He : e ∈ entries ly) by (eapply list_elem_of_lookup_2, Hlast).
    pose proof (file_all_last (data_start ly) _ [] i e Hlast) as Hget. fold index in Hget.
    rewrite (sdk_archives_read pack index fs (entry_name e) (filed (data_start ly) e)).
    + destruct (filed_exact pack ly e Hwf He (Hin e He)) as (-> & _ & _). reflexivity.
    + by apply Map_get_elem.
    + intros k v Hkv Hpath. destruct (Helem k v Hkv) as (e' & He' & -> & ->).
      pose proof (Huniq e' He' Hpath) as Hname. f_equal; [exact Hname|].
      rewrite Hname in Hkv. apply (Map_elem_get _ _ _ Hnd) in Hkv. congruence.
  - intros q. apply sdk_archives_keep.
Qed.

Lemma sdk_stdlib_loaded_witness :
  exists p fs',
    SdkPack._parseToolchainPack sample_pack = Ok p
    /\ SdkPack._loadPackagesIntoVFS p VirtualFS.new = (Ok tt, fs')
    /\ VirtualFS.readFile (lit "/pkg/js_wasm/fmt.a") fs' = Ok (U8 [x0b; x0c]).
Proof.
  destruct (sdk_stdlib_loaded sample_pack sample_layout VirtualFS.new sample_valid)
    as (p & fs' & Hp & Hl & Hr & _).
  exists p, fs'. split; [exact Hp|]. split; [exact Hl|].
  apply (Hr 0%nat (mkIndexEntry [x66; x6d; x74] 1 2)).
  - split; [reflexivity|]. intros j e' Hj Hl'. destruct j; [lia|]. discriminate.
  - intros e' He'. apply list_elem_of_singleton in He' as ->. reflexivity.
Defined.

Lemma legacy_write_packages_app buf pre post fs :
  Forall (fun ne => view_ok buf ne.2) pre ->
  ToolchainLoader.write_packages buf (pre ++ post) fs
  = ToolchainLoader.write_packages buf post (legacy_archives_written buf pre fs).
Proof.
  revert fs. induction pre as [|[name e] pre IH]; intros fs Hall; [reflexivity|].
  apply Forall_cons in Hall as [He Hall].
  cbn [app ToolchainLoader.write_packages snd] in *.
  unfold_monad. rewrite (view_ok_view _ _ He). by rewrite IH.
Qed.

(** X14.  Loading stops at the first index entry whose range leaves the
    pack: the call throws a RangeError, the archives of the entries before
    it are written and stay written, and nothing of the entries after it is
    looked at.  In the SDK's [_loadPackagesIntoVFS] and in the loader's
    [loadAllPackagesIntoVFS] alike. *)
Theorem load_stops_at_bad_entry (buf : bytes) (pre post : list (jsstring * entry))
    (name : jsstring) (e : entry) :
  Forall (fun ne => view_ok buf ne.2) pre ->
  ~ view_ok buf e ->
  (forall p fs,
      SdkPack.packData p = buf -> SdkPack.packageIndex p = pre ++ (name, e) :: post ->
      SdkPack._loadPackagesIntoVFS p fs
      = (Throw RangeError, sdk_archives_written buf pre fs))
  /\ (forall l fs,
        ToolchainLoader.packData l = Some buf ->
        ToolchainLoader.packageIndex l = pre ++ (name, e) :: post ->
        ToolchainLoader.loadAllPackagesIntoVFS l fs
        = (Throw RangeError, legacy_archives_written buf pre fs)).
Proof.
  intros Hpre Hbad. split.
  - intros p fs Hb Hi. unfold SdkPack._loadPackagesIntoVFS. rewrite Hb, Hi.
    rewrite sdk_write_packages_app by exact Hpre. cbn [SdkPack.write_packages].
    unfold_monad. by rewrite (view_not_ok _ _ Hbad).
  - intros l fs Hb Hi. unfold ToolchainLoader.loadAllPackagesIntoVFS. rewrite Hb, Hi.
    rewrite legacy_write_packages_app by exact Hpre. cbn [ToolchainLoader.write_packages].
    unfold_monad. by rewrite (view_not_ok _ _ Hbad).
Qed.

Lemma load_stops_at_bad_entry_witness :
  SdkPack._loadPackagesIntoVFS
    (SdkPack.mk (sample_pack_with 200) [] [] (JArray [])
       [(lit "io", mkEntry 43 2); (lit "fmt", mkEntry 44 200); (lit "os", mkEntry 43 1)] 43)
    VirtualFS.new
  = (Throw RangeError,
     VirtualFS.writeFile (lit "/pkg/js_wasm/io.a") (U8 [x0a; x0b]) VirtualFS.new).
Proof.
  destruct (load_stops_at_bad_entry (sample_pack_with 200)
              [(lit "io", mkEntry 43 2)] [(lit "os", mkEntry 43 1)] (lit "fmt")
              (mkEntry 44 200)) as [Hs _].
  - repeat constructor; cbn; unfold byteLength; cbn; lia.
  - intros (_ & _ & H). revert H. unfold byteLength. cbn. lia.
  - apply (Hs _ VirtualFS.new); reflexivity.
Defined.

(** ** Loading the toolchain pack *)

Lemma load_cached h s cached :
  CompilationManager.packStore s = Some cached ->
  CompilationManager.load h s
  = match ToolchainLoader.parseToolchain
            (ToolchainLoader.set_packData cached ToolchainLoader.new) with
    | (Ok _, l) => (Ok (ToolchainLoader.set_loaded l), s)
    | (Throw e, _) => (Throw e, s)
    end.
Proof.
  intros Hc. unfold CompilationManager.load. unfold_monad. rewrite Hc.
  by destruct (ToolchainLoader.parseToolchain _) as [[[]|e] l].
Qed.

Lemma load_fetched h s buf :
  CompilationManager.packStore s = None ->
  CompilationManager.fetch_pack h = Some buf ->
  CompilationManager.load h s
  = match ToolchainLoader.parseToolchain
            (ToolchainLoader.set_packData buf ToolchainLoader.new) with
    | (Ok _, l) => (Ok (ToolchainLoader.set_loaded l), CompilationManager.set_packStore buf s)
    | (Throw e, _) => (Throw e, CompilationManager.set_packStore buf s)
    end.
Proof.
  intros Hc Hf. unfold CompilationManager.load. unfold_monad. rewrite Hc, Hf.
  by destruct (ToolchainLoader.parseToolchain _) as [[[]|e] l].
Qed.

(** X15.  [ToolchainLoader.load] stores the downloaded pack before it
    parses it.  With nothing stored and a download that succeeds, the pack
    is in the store afterwards whether it parses or not; with a pack stored,
    the server is not consulted.  So a downloaded pack that fails to parse
    makes this [load] and every later one fail with the same error, whatever
    the server would answer then.  A failed download stores nothing. *)
Theorem load_stores_before_parsing (h : CompilationManager.host)
    (s : CompilationManager.t) (buf : bytes) :
  CompilationManager.packStore s = None ->
  CompilationManager.fetch_pack h = Some buf ->
  CompilationManager.packStore (CompilationManager.load h s).2 = Some buf
  /\ (forall e,
        loader_parse buf = Throw e ->
        (CompilationManager.load h s).1 = Throw e
        /\ forall h',
            (CompilationManager.load h' (CompilationManager.load h s).2).1 = Throw e
            /\ CompilationManager.packStore
                 (CompilationManager.load h' (CompilationManager.load h s).2).2
               = Some buf)
  /\ (forall h',
        CompilationManager.fetch_pack h' = None ->
        CompilationManager.load h' s = (Throw FetchFailed, s)).
Proof.
  intros Hc Hf. rewrite (load_fetched h s buf Hc Hf). unfold loader_parse.
  destruct (ToolchainLoader.parseToolchain _) as [[[]|e0] l] eqn:Hp; cbn [fst snd].
  - split; [reflexivity|]. split; [discriminate|].
    intros h' Hf'. unfold CompilationManager.load. unfold_monad. by rewrite Hc, Hf'.
  - split; [reflexivity|]. split.
    + intros e [= <-]. split; [reflexivity|]. intros h'.
      rewrite (load_cached h' _ buf) by reflexivity. rewrite Hp. split; reflexivity.
    + intros h' Hf'. unfold CompilationManager.load. unfold_monad. by rewrite Hc, Hf'.
Qed.

Lemma load_stores_before_parsing_witness :
  CompilationManager.packStore
    (CompilationManager.load (pack_host header_only_pack) fresh_manager).2
  = Some header_only_pack
  /\ (CompilationManager.load (pack_host header_only_pack) fresh_manager).1
     = Throw RangeError
  /\ (CompilationManager.load (pack_host sample_pack)
        (CompilationManager.load (pack_host header_only_pack) fresh_manager).2).1
     = Throw RangeError.
Proof.
  destruct (load_stores_before_parsing (pack_host header_only_pack) fresh_manager
              header_only_pack eq_refl eq_refl) as (Hs & He & _).
  destruct (He RangeError) as [H1 H2]; [vm_compute; reflexivity|].
  split; [exact Hs|]. split; [exact H1|]. apply (H2 (pack_host sample_pack)).
Defined.

(** ** What the pipeline reports *)

Lemma compileToWasm_total h s :
  exists w s', CompilationManager.compileToWasm h s = (Ok w, s').
Proof.
  unfold CompilationManager.compileToWasm. unfold_monad.
  destruct (CompilationManager.compileWasmBytes s) as [c|]; [|eauto].
  destruct (CompilationManager.linkWasmBytes s) as [l|]; [|eauto].
  unfold try_catch.
  destruct (CompilationManager.runGoCompiler h c l s) as [[[b|]|e] s']; cbn; eauto.
Qed.

Lemma mock_valid h :
  CompilationManager.validateWasmBinary (CompilationManager.generateMockWasm h) = true.
Proof.
  apply validateWasmBinary_spec. split; [|reflexivity].
  unfold CompilationManager.generateMockWasm, byteLength.
  rewrite !length_app, length_resize. cbn. lia.
Qed.

(** X16.  [compileToWasm] never fails.  Without both toolchain modules it
    returns the mock binary and changes nothing; with them, whatever makes
    the real run fail (no input files, a module that rejects, a missing
    object file or binary) is swallowed and the mock binary is returned in
    its place.  The mock binary passes [validateWasmBinary]. *)
Theorem compileToWasm_falls_back (h : CompilationManager.host) (s : CompilationManager.t) :
  (exists w s', CompilationManager.compileToWasm h s = (Ok w, s'))
  /\ (CompilationManager.compileWasmBytes s = None
      \/ CompilationManager.linkWasmBytes s = None ->
      CompilationManager.compileToWasm h s
      = (Ok (CompilationManager.generateMockWasm h), s))
  /\ (forall c l e s',
        CompilationManager.compileWasmBytes s = Some c ->
        CompilationManager.linkWasmBytes s = Some l ->
        CompilationManager.runGoCompiler h c l s = (Throw e, s') ->
        CompilationManager.compileToWasm h s
        = (Ok (CompilationManager.generateMockWasm h), s'))
  /\ (forall c l,
        CompilationManager.filesToCompile s = [] ->
        CompilationManager.runGoCompiler h c l s = (Throw NoGoFiles, s))
  /\ CompilationManager.validateWasmBinary (CompilationManager.generateMockWasm h) = true.
Proof.
  split_and!.
  - apply compileToWasm_total.
  - intros [Hn|Hn]; unfold CompilationManager.compileToWasm; unfold_monad; rewrite Hn;
      [reflexivity|by destruct (CompilationManager.compileWasmBytes s)].
  - intros c l e s' Hc Hl Hr. unfold CompilationManager.compileToWasm. unfold_monad.
    rewrite Hc, Hl. unfold try_catch. by rewrite Hr.
  - intros c l Hf. unfold CompilationManager.runGoCompiler. unfold_monad. by rewrite Hf.
  - apply mock_valid.
Qed.

Lemma build_outcome h files hash s :
  (exists w s1 m evs,
      CompilationManager.build h files hash s = (Ok w, s1)
      /\ CompilationManager.state s1 = CompilationManager.Completed
      /\ CompilationManager.events s1 = evs ++ [CompilationManager.CompleteEvent w m])
  \/ (exists s1, CompilationManager.build h files hash s = (Throw InvalidWasm, s1)).
Proof.
  destruct s as [fs c cl st cw lw ftc evs ps].
  unfold CompilationManager.build, CompilationManager.setupBuildEnvironment. run_manager.
  match goal with
  | |- context [CompilationManager.compileToWasm h ?s0] =>
      destruct (compileToWasm_total h s0) as (w & [fs3 c3 cl3 st3 cw3 lw3 ftc3 evs3 ps3] & ->)
  end.
  unfold CompilationManager.prepareBinary. run_manager.
  destruct (CompilationManager.validateWasmBinary w); cbn [negb].
  - left. do 4 eexists. split; [reflexivity|]. split; reflexivity.
  - right. eexists. reflexivity.
Qed.

(** X17.  What [compile] of the compilation manager reports.  When it
    returns, the status is [complete] and the last event emitted is the
    completion event carrying the returned bytes.  When it throws, the error
    is the invalid-binary error of [prepareBinary], the status is [error] and
    the last event is the error event: no failure of the toolchain, and no
    failure to load it, ever reaches the caller.  The artifact cache is
    modelled as a store whose requests succeed. *)
Theorem manager_compile_outcome (h : CompilationManager.host) (files : strobj)
    (s : CompilationManager.t) :
  (exists wasm s1 m evs,
      CompilationManager.compile h files s = (Ok wasm, s1)
      /\ CompilationManager.getStatus s1 = CompilationManager.Completed
      /\ CompilationManager.events s1 = evs ++ [CompilationManager.CompleteEvent wasm m])
  \/ (exists s1 evs,
        CompilationManager.compile h files s = (Throw InvalidWasm, s1)
        /\ CompilationManager.getStatus s1 = CompilationManager.Errored
        /\ CompilationManager.events s1
           = evs ++ [CompilationManager.ErrorEvent InvalidWasm]).
Proof.
  destruct s as [fs c cl st cw lw ftc evs ps].
  unfold CompilationManager.compile, CompilationManager.getStatus. run_manager.
  match goal with
  | |- context [CompilationManager.loadCompiler h ?s0] =>
      destruct (loadCompiler_frame h s0) as ([fs2 c2 cl2 st2 cw2 lw2 ftc2 evs2 ps2] & -> & _)
  end.
  run_manager. unfold CacheManager.getCachedWasm. cbv zeta.
  destruct (CacheManager.compiledWasm _ !! _) as [en|].
  - left. run_manager. do 4 eexists. split; [reflexivity|]. split; reflexivity.
  - match goal with
    | |- context [CompilationManager.build h files ?hash ?s0] =>
        destruct (build_outcome h files hash s0)
          as [(w & s1 & m & evs' & -> & Hst & Hev)|(s1 & ->)]
    end.
    + left. exists w, s1, m, evs'. done.
    + right. destruct s1. run_manager. do 2 eexists.
      split; [reflexivity|]. split; reflexivity.
Qed.

(** ** cancel *)

Lemma runGoCompiler_status h c l st s :
  CompilationManager.runGoCompiler h c l (CompilationManager.set_state st s)
  = let '(r, s') := CompilationManager.runGoCompiler h c l s in
    (r, CompilationManager.set_state st s').
Proof.
  destruct s as [fs cm cl st0 cw lw ftc evs ps].
  unfold CompilationManager.runGoCompiler, CompilationManager.on_vfs. run_manager.
  destruct (bool_decide (Object_keys ftc = [])); [reflexivity|]. run_manager.
  destruct (CompilationManager.go_run h c _ _) as [[[]|e] fs1]; [|reflexivity].
  run_manager. destruct (VirtualFileSystem.exists_ _ fs1); cbn [negb]; [|reflexivity].
  run_manager.
  destruct (CompilationManager.go_run h l _ _) as [[[]|e] fs2]; [|reflexivity].
  run_manager. destruct (VirtualFileSystem.exists_ _ fs2); cbn [negb]; [|reflexivity].
  unfold lift. by destruct (VirtualFileSystem.readFile _ fs2).
Qed.

Lemma compileToWasm_status h st s :
  CompilationManager.compileToWasm h (CompilationManager.set_state st s)
  = let '(r, s') := CompilationManager.compileToWasm h s in
    (r, CompilationManager.set_state st s').
Proof.
  unfold CompilationManager.compileToWasm. unfold_monad.
  replace (CompilationManager.compileWasmBytes (CompilationManager.set_state st s))
    with (CompilationManager.compileWasmBytes s) by (by destruct s).
  replace (CompilationManager.linkWasmBytes (CompilationManager.set_state st s))
    with (CompilationManager.linkWasmBytes s) by (by destruct s).
  destruct (CompilationManager.compileWasmBytes s) as [c|]; [|reflexivity].
  destruct (CompilationManager.linkWasmBytes s) as [l|]; [|reflexivity].
  unfold try_catch. rewrite runGoCompiler_status.
  by destruct (CompilationManager.runGoCompiler h c l s) as [[[b|]|e] s'].
Qed.

Lemma build_status h files hash st s :
  (CompilationManager.build h files hash (CompilationManager.set_state st s)).1
  = (CompilationManager.build h files hash s).1
  /\ (is_ok (CompilationManager.build h files hash s).1 = true ->
      CompilationManager.build h files hash (CompilationManager.set_state st s)
      = CompilationManager.build h files hash s).
Proof.
  destruct s as [fs cm cl st0 cw lw ftc evs ps].
  unfold CompilationManager.build, CompilationManager.setupBuildEnvironment. run_manager.
  match goal with
  | |- context [CompilationManager.compileToWasm h
                  (CompilationManager.mk ?a ?b ?c st ?d ?e ?f ?g ?i)] =>
      pose proof (compileToWasm_status h st (CompilationManager.mk a b c st0 d e f g i)) as Hs;
      cbv [CompilationManager.set_state CompilationManager.vfs
           CompilationManager.cacheManager CompilationManager.compilerLoaded
           CompilationManager.compileWasmBytes CompilationManager.linkWasmBytes
           CompilationManager.filesToCompile CompilationManager.events
           CompilationManager.packStore] in Hs;
      rewrite Hs; clear Hs;
      destruct (CompilationManager.compileToWasm h (CompilationManager.mk a b c st0 d e f g i))
        as [[w|e0] [fs3 c3 cl3 st3 cw3 lw3 ftc3 evs3 ps3]]
  end; [|split; [reflexivity|discriminate]].
  unfold CompilationManager.prepareBinary. run_manager.
  destruct (CompilationManager.validateWasmBinary w); cbn [negb];
    (split; [reflexivity|]); [reflexivity|discriminate].
Qed.

(** X18.  [cancel] changes the status from [compiling] to [cancelled] and
    does nothing in any other status; it touches nothing else.  The pipeline
    never looks at the status: [compile] entered after a [cancel], and the
    stages after the cache check run after a [cancel], return what they
    return without it, and a run that succeeds ends in the same state,
    status [complete]. *)
Theorem cancel_does_not_stop (h : CompilationManager.host) (files : strobj)
    (hash : jsstring) (s : CompilationManager.t) :
  (CompilationManager.getStatus s = CompilationManager.Compiling ->
   CompilationManager.cancel s
   = CompilationManager.set_state CompilationManager.Cancelled s)
  /\ (CompilationManager.getStatus s <> CompilationManager.Compiling ->
      CompilationManager.cancel s = s)
  /\ CompilationManager.compile h files (CompilationManager.cancel s)
     = CompilationManager.compile h files s
  /\ (CompilationManager.build h files hash (CompilationManager.cancel s)).1
     = (CompilationManager.build h files hash s).1
  /\ (forall w s1,
        CompilationManager.build h files hash s = (Ok w, s1) ->
        CompilationManager.build h files hash (CompilationManager.cancel s) = (Ok w, s1)
        /\ CompilationManager.getStatus s1 = CompilationManager.Completed).
Proof.
  unfold CompilationManager.cancel, CompilationManager.getStatus. split_and!.
  - by intros ->.
  - intros Hne. by destruct (CompilationManager.state s).
  - destruct (CompilationManager.state s); try reflexivity; apply manager_ignores_status.
  - destruct (CompilationManager.state s); try reflexivity; apply build_status.
  - intros w s1 Hb. split.
    + destruct (CompilationManager.state s); try exact Hb.
      destruct (build_status h files hash CompilationManager.Cancelled s) as [_ He].
      rewrite He; [exact Hb|]. by rewrite Hb.
    + destruct (build_outcome h files hash s)
        as [(w' & s1' & m & evs' & Hb' & Hst & _)|(s1' & Hb')]; congruence.
Qed.

(** ** The SDK's compile *)

(** X19.  What [compile] of the SDK resolves with.  Before [init] it
    rejects and changes nothing.  Initialized and idle, it never rejects: it
    resolves with success or with a failure, and in both cases the
    [compiling] flag is clear again afterwards, so the next call is not
    turned away.  A failure carries the error a foreign module rejected
    with, or reports a missing object file or a missing linked binary, and
    is the last thing logged; the check for the output after the linker has
    run never fires. *)
Theorem sdk_compile_outcome (h : GoScript.host) (src : GoScript.source) (s : GoScript.t) :
  (GoScript.initialized s = false ->
   GoScript.compile h src s = (Throw NotInitialized, s))
  /\ (GoScript.initialized s = true -> GoScript.compiling s = false ->
      exists r s',
        GoScript.compile h src s = (Ok r, s')
        /\ GoScript.compiling s' = false
        /\ GoScript.initialized s' = true
        /\ GoScript.compilerWasm s' = GoScript.compilerWasm s
        /\ GoScript.linkerWasm s' = GoScript.linkerWasm s
        /\ forall e,
             r = GoScript.Failure e ->
             ((exists module argv fs fs', GoScript.go_run h module argv fs = (Throw e, fs'))
              \/ e = NoObjectFile \/ e = NoLinkedBinary)
             /\ exists evs, GoScript.events s' = evs ++ [GoScript.ErrorLog e]).
Proof.
  destruct s as [ini rdy cmp fs cw lw evs]. split.
  - cbn [GoScript.initialized]. intros ->. reflexivity.
  - cbn [GoScript.initialized GoScript.compiling]. intros -> ->.
    unfold GoScript.compile. run_sdk.
    unfold GoScript.compile_body, GoScript._runCompiler, GoScript._runLinker. run_sdk.
    change (GoScript.tempDir ++ lit "/main.wasm") with (lit "/tmp/build/main.wasm").
    destruct (GoScript.go_run h cw _ _) as [[[]|e1] fs1] eqn:Hc.
    2: { do 2 eexists. split; [reflexivity|]. cbn. split_and!; try reflexivity.
         intros e [= <-]. split; [left; eauto|]. eexists. reflexivity. }
    destruct (VirtualFS.exists_ _ fs1).
    2: { do 2 eexists. split; [reflexivity|]. cbn. split_and!; try reflexivity.
         intros e [= <-]. split; [auto|]. eexists. reflexivity. }
    destruct (GoScript.go_run h lw _ _) as [[[]|e2] fs2] eqn:Hl.
    2: { do 2 eexists. split; [reflexivity|]. cbn. split_and!; try reflexivity.
         intros e [= <-]. split; [left; eauto|]. eexists. reflexivity. }
    destruct (VirtualFS.exists_ (lit "/tmp/build/main.wasm") fs2) eqn:Hex.
    2: { do 2 eexists. split; [reflexivity|]. cbn. split_and!; try reflexivity.
         intros e [= <-]. split; [auto|]. eexists. reflexivity. }
    run_sdk. rewrite ?Hex.
    unfold VirtualFS.exists_ in Hex. apply bool_decide_eq_true in Hex as [c Hc'].
    unfold VirtualFS.readFile. rewrite Hc'.
    do 2 eexists. split; [reflexivity|]. cbn. split_and!; try reflexivity.
    intros e. discriminate.
Qed.

Lemma sdk_exists_lookup q fs :
  VirtualFS.exists_ q fs = bool_decide (is_Some (VirtualFS.files fs !! VirtualFS._normalize q)).
Proof. reflexivity. Qed.

(** X20.  [compile] of the SDK does not clear [/tmp/build]: the object file
    and the binary of an earlier build stay there, and when the foreign
    modules of a later build return without writing anything, that build
    passes both existence checks on the old files and resolves with success,
    carrying the old binary. *)
Theorem sdk_compile_reuses_old_output (h : GoScript.host) (code : jsstring)
    (s : GoScript.t) (c : content) :
  GoScript.initialized s = true -> GoScript.compiling s = false ->
  (forall module argv fs, GoScript.go_run h module argv fs = (Ok tt, fs)) ->
  VirtualFS.exists_ (lit "/tmp/build/main.o") (GoScript.vfs s) = true ->
  VirtualFS.readFile (lit "/tmp/build/main.wasm") (GoScript.vfs s) = Ok c ->
  exists s',
    GoScript.compile h (GoScript.Text code) s
    = (Ok (GoScript.Success (match c with U8 b => Buf b | other => other end) 1), s')
    /\ VirtualFS.readFile (lit "/tmp/build/main.wasm") (GoScript.vfs s') = Ok c.
Proof.
  destruct s as [ini rdy cmp fs cw lw evs].
  cbn [GoScript.initialized GoScript.compiling GoScript.vfs]. intros -> -> Hrun Ho Hw.
  unfold GoScript.compile. run_sdk.
  unfold GoScript.compile_body, GoScript._runCompiler, GoScript._runLinker. run_sdk.
  change (GoScript.tempDir ++ lit "/main.wasm") with (lit "/tmp/build/main.wasm").
  cbn [fold_left fmap list_fmap fst snd].
  change (GoScript.tempDir ++ lit "/" ++ lit "main.go") with (lit "/tmp/build/main.go").
  set (fs1 := VirtualFS.writeFile (lit "/tmp/build/main.go") (Str code)
                (VirtualFS.mkdir GoScript.tempDir fs)).
  assert (Ho1 : VirtualFS.exists_ (lit "/tmp/build/main.o") fs1 = true).
  { rewrite sdk_exists_lookup in Ho |- *. unfold fs1, VirtualFS.writeFile.
    cbn [VirtualFS.files VirtualFS.mkdir]. rewrite lookup_insert_ne; [exact Ho|].
    vm_compute. discriminate. }
  assert (Hw1 : VirtualFS.readFile (lit "/tmp/build/main.wasm") fs1 = Ok c).
  { unfold VirtualFS.readFile in Hw |- *. unfold fs1, VirtualFS.writeFile.
    cbn [VirtualFS.files VirtualFS.mkdir]. rewrite lookup_insert_ne; [exact Hw|].
    vm_compute. discriminate. }
  assert (He1 : VirtualFS.exists_ (lit "/tmp/build/main.wasm") fs1 = true).
  { rewrite sdk_exists_lookup. unfold VirtualFS.readFile in Hw1.
    apply bool_decide_eq_true. destruct (VirtualFS.files fs1 !! _); [eauto|discriminate]. }
  rewrite !Hrun. run_sdk. rewrite Ho1. rewrite !Hrun. run_sdk. rewrite ?He1.
  run_sdk. rewrite ?He1, ?Hw1. run_sdk. rewrite ?He1, ?Hw1.
  eexists. split; [reflexivity|]. exact Hw1.
Qed.

Lemma sdk_compile_reuses_old_output_witness :
  exists s',
    GoScript.compile silent_sdk_host (GoScript.Text (lit "package other")) sdk_after_build
    = (Ok (GoScript.Success (Buf wasm_v1) 1), s').
Proof.
  destruct (sdk_compile_reuses_old_output silent_sdk_host (lit "package other")
              sdk_after_build (U8 wasm_v1)) as (s' & Hc & _);
    [reflexivity|reflexivity|reflexivity|vm_compute; reflexivity|vm_compute; reflexivity|].
  exists s'. exact Hc.
Defined.

(** ** The artifact cache *)

Lemma wasm_key_inj h1 h2 : CacheManager.wasm_key h1 = CacheManager.wasm_key h2 -> h1 = h2.
Proof. unfold CacheManager.wasm_key. apply app_inv_head. Qed.

(** X21.  The compiled-binary store.  [getCachedWasm(h)] right after
    [cacheCompiledWasm(h, wasm, metadata)] returns that binary and that
    metadata; a second [cacheCompiledWasm] under the same hash replaces the
    first; the entries under other hashes are not touched; looking up never
    changes what is stored.  The store is modelled as a map whose requests
    succeed. *)
Theorem wasm_cache_round_trip (h h' : jsstring) (wasm wasm' : bytes)
    (m m' : metadata) (now now' : Z) (c : CacheManager.t) :
  (CacheManager.getCachedWasm h (CacheManager.cacheCompiledWasm h wasm m now c)).1
  = Some (CacheManager.mkCached wasm m now)
  /\ (CacheManager.getCachedWasm h
        (CacheManager.cacheCompiledWasm h wasm' m' now'
           (CacheManager.cacheCompiledWasm h wasm m now c))).1
     = Some (CacheManager.mkCached wasm' m' now')
  /\ (h' <> h ->
      (CacheManager.getCachedWasm h' (CacheManager.cacheCompiledWasm h wasm m now c)).1
      = (CacheManager.getCachedWasm h' c).1)
  /\ CacheManager.compiledWasm (CacheManager.getCachedWasm h' c).2
     = CacheManager.compiledWasm c
  /\ (CacheManager.compiledWasm c !! CacheManager.wasm_key h' = None ->
      (CacheManager.getCachedWasm h' c).1 = None).
Proof.
  assert (Hput : forall w mm t c0,
    CacheManager.compiledWasm (CacheManager.cacheCompiledWasm h w mm t c0)
    = <[CacheManager.wasm_key h :=
          CacheManager.mkEntry (CacheManager.wasm_key h) h w mm t (byteLength w)]>
        (CacheManager.compiledWasm c0)).
  { intros w mm t c0. unfold CacheManager.cacheCompiledWasm.
    by destruct (CacheManager.ready c0). }
  assert (Hget : forall k c0,
    (CacheManager.getCachedWasm k c0).1
    = (fun r => CacheManager.mkCached (CacheManager.wasmBinary r) (CacheManager.meta r)
                  (CacheManager.timestamp r))
      <$> CacheManager.compiledWasm c0 !! CacheManager.wasm_key k).
  { intros k c0. unfold CacheManager.getCachedWasm.
    destruct (CacheManager.ready c0); cbn; by destruct (_ !! _). }
  split_and!.
  - by rewrite Hget, Hput, lookup_insert_eq.
  - by rewrite Hget, !Hput, lookup_insert_eq.
  - intros Hne. rewrite !Hget, Hput, lookup_insert_ne; [done|].
    intros Heq; apply wasm_key_inj in Heq; congruence.
  - unfold CacheManager.getCachedWasm.
    destruct (CacheManager.ready c); cbn; by destruct (_ !! _).
  - intros Hn. by rewrite Hget, Hn.
Qed.

(** ** The source hash: range and collisions *)

Lemma ToInt32_shift z k : ToInt32 (z + k * 2 ^ 32) = ToInt32 z.
Proof.
  unfold ToInt32. replace (z + k * 2 ^ 32 + 2 ^ 31) with (z + 2 ^ 31 + k * 2 ^ 32) by lia.
  by rewrite Z_mod_plus_full.
Qed.

Lemma ToInt32_wrap z : exists k, ToInt32 z = z + k * 2 ^ 32.
Proof.
  exists (- ((z + 2 ^ 31) / 2 ^ 32)). unfold ToInt32.
  pose proof (Z.div_mod (z + 2 ^ 31) (2 ^ 32) ltac:(lia)). lia.
Qed.

Lemma ToInt32_range z : - 2 ^ 31 <= ToInt32 z < 2 ^ 31.
Proof. unfold ToInt32. pose proof (Z.mod_pos_bound (z + 2 ^ 31) (2 ^ 32) ltac:(lia)). lia. Qed.

Lemma hash_step_eq h c : CacheManager.hash_step h c = ToInt32 (31 * h + c).
Proof.
  unfold CacheManager.hash_step, band, shl. cbv zeta. rewrite Z.land_diag.
  change (5 mod 32) with 5. change (2 ^ 5) with 32.
  destruct (ToInt32_wrap h) as [k1 ->].
  destruct (ToInt32_wrap ((h + k1 * 2 ^ 32) * 32)) as [k2 ->].
  replace ((h + k1 * 2 ^ 32) * 32 + k2 * 2 ^ 32 - h + c)
    with (31 * h + c + (32 * k1 + k2) * 2 ^ 32) by lia.
  apply ToInt32_shift.
Qed.

Lemma hash_two_steps h a b :
  CacheManager.hash_step (CacheManager.hash_step h a) b = ToInt32 (961 * h + (31 * a + b)).
Proof.
  rewrite !hash_step_eq. destruct (ToInt32_wrap (31 * h + a)) as [k ->].
  replace (31 * (31 * h + a + k * 2 ^ 32) + b)
    with (961 * h + (31 * a + b) + (31 * k) * 2 ^ 32) by lia.
  apply ToInt32_shift.
Qed.

Lemma same_hash_refl s : same_hash s s.
Proof. by intros h. Qed.

Lemma same_hash_app a b c d : same_hash a b -> same_hash c d -> same_hash (a ++ c) (b ++ d).
Proof. intros H1 H2 h. by rewrite !fold_left_app, H1, H2. Qed.

Lemma same_hash_cons x a b : same_hash a b -> same_hash (x :: a) (x :: b).
Proof. intros H. apply (same_hash_app [x] [x]); [apply same_hash_refl | exact H]. Qed.

Lemma same_hash_Aa_BB : same_hash (lit "Aa") (lit "BB").
Proof.
  intros h. change (lit "Aa") with [65; 97]. change (lit "BB") with [66; 66].
  cbn [fold_left]. by rewrite !hash_two_steps.
Qed.

Lemma quote_body_app a s :
  match s with d :: _ => is_low_surrogate d = false | [] => True end ->
  quote_body (a ++ s) = quote_body a ++ quote_body s.
Proof.
  intros Hs. remember (length a) as n eqn:Hn.
  revert a Hn. induction (lt_wf n) as [n _ IH]. intros a ->.
  destruct a as [|c [|d a]].
  - done.
  - cbn [app quote_body]. destruct (is_high_surrogate c).
    + destruct s as [|d s]; [by rewrite app_nil_r|]. by rewrite Hs.
    + destruct (is_low_surrogate c); by rewrite app_nil_r.
  - change ((c :: d :: a) ++ s) with (c :: d :: (a ++ s)).
    assert (H1 : quote_body (d :: a ++ s) = quote_body (d :: a) ++ quote_body s)
      by (apply (IH (length (d :: a)) ltac:(cbn; lia) (d :: a) eq_refl)).
    assert (H2 : quote_body (a ++ s) = quote_body a ++ quote_body s)
      by (apply (IH (length a) ltac:(cbn; lia) a eq_refl)).
    cbn [quote_body] in *.
    destruct (is_high_surrogate c).
    + destruct (is_low_surrogate d).
      * by rewrite H2.
      * by rewrite H1, app_assoc.
    + destruct (is_low_surrogate c); by rewrite H1, app_assoc.
Qed.

Lemma quote_body_swap a b :
  same_hash (quote_body (a ++ lit "Aa" ++ b)) (quote_body (a ++ lit "BB" ++ b)).
Proof.
  rewrite (quote_body_app a (lit "Aa" ++ b)), (quote_body_app a (lit "BB" ++ b)) by done.
  apply same_hash_app; [apply same_hash_refl|].
  change (quote_body (lit "Aa" ++ b)) with (lit "Aa" ++ quote_body b).
  change (quote_body (lit "BB" ++ b)) with (lit "BB" ++ quote_body b).
  apply same_hash_app; [apply same_hash_Aa_BB | apply same_hash_refl].
Qed.

Lemma join_same_hash l1 l2 :
  Forall2 same_hash l1 l2 -> same_hash (join 44 l1) (join 44 l2).
Proof.
  induction 1 as [|x y l1 l2 Hxy Hl IH]; [apply same_hash_refl|].
  destruct Hl as [|x' y' l1 l2 Hxy' Hl]; [exact Hxy|].
  change (same_hash (x ++ 44 :: join 44 (x' :: l1)) (y ++ 44 :: join 44 (y' :: l2))).
  apply same_hash_app; [exact Hxy|]. by apply same_hash_cons.
Qed.

Lemma members_same_hash o1 o2 ks seen :
  (forall k, match Object_get o1 k, Object_get o2 k with
             | Some v1, Some v2 => same_hash (quote_body v1) (quote_body v2)
             | None, None => True
             | _, _ => False
             end) ->
  Forall2 same_hash (JSON_members o1 ks seen) (JSON_members o2 ks seen).
Proof.
  intros Hget. revert seen. induction ks as [|k ks IH]; intros seen; [constructor|].
  cbn [JSON_members]. case_bool_decide; [apply IH|].
  specialize (Hget k).
  destruct (Object_get o1 k) as [v1|], (Object_get o2 k) as [v2|];
    try contradiction; [|apply IH].
  constructor; [|apply IH].
  apply same_hash_app; [apply same_hash_refl|]. apply same_hash_cons.
  unfold JSON_quote. apply same_hash_cons.
  apply same_hash_app; [exact Hget | apply same_hash_refl].
Qed.

Lemma with_source_get before after name a b k :
  match Object_get (with_source before after name (a ++ lit "Aa" ++ b)) k,
        Object_get (with_source before after name (a ++ lit "BB" ++ b)) k with
  | Some v1, Some v2 => same_hash (quote_body v1) (quote_body v2)
  | None, None => True
  | _, _ => False
  end.
Proof.
  unfold with_source. induction before as [|[k' v] before IH].
  - cbn [app Object_get]. destruct (str_eqb name k).
    + apply quote_body_swap.
    + destruct (Object_get after k); [apply same_hash_refl | done].
  - cbn [app Object_get]. destruct (str_eqb k' k); [apply same_hash_refl | exact IH].
Qed.

Lemma with_source_keys before after name t1 t2 :
  Object_keys (with_source before after name t1) = Object_keys (with_source before after name t2).
Proof. unfold Object_keys, with_source. by rewrite !fmap_app. Qed.

Lemma source_hash_swap before after name a b :
  CacheManager.generateSourceHash (with_source before after name (a ++ lit "Aa" ++ b))
  = CacheManager.generateSourceHash (with_source before after name (a ++ lit "BB" ++ b)).
Proof.
  unfold CacheManager.generateSourceHash, CacheManager.simpleHash. cbv zeta.
  rewrite (with_source_keys before after name (a ++ lit "Aa" ++ b) (a ++ lit "BB" ++ b)).
  f_equal. f_equal. unfold JSON_stringify.
  apply same_hash_cons. apply same_hash_app; [|apply same_hash_refl].
  apply join_same_hash, members_same_hash. intros k. apply with_source_get.
Qed.

Lemma with_source_lookup before after name text :
  name ∉ Object_keys before ->
  Object_get (with_source before after name text) name = Some text.
Proof.
  unfold with_source, Object_keys. induction before as [|[k v] before IH]; intros Hn.
  - cbn [app Object_get]. unfold str_eqb. by rewrite bool_decide_eq_true_2.
  - cbn [app Object_get]. rewrite fmap_cons, not_elem_of_cons in Hn. destruct Hn as [Hk Hn].
    unfold str_eqb at 1. rewrite bool_decide_eq_false_2 by (cbn in Hk; congruence).
    by apply IH.
Qed.

(** X22.  The source hash cannot tell the two-letter texts "Aa" and "BB"
    apart: replacing one by the other anywhere in a text leaves [simpleHash]
    unchanged, and replacing one by the other anywhere in one file of a
    project leaves [generateSourceHash] of the project unchanged, although
    the two texts differ and each project holds its own under the file's
    name. *)
Theorem source_hash_collides (before after : strobj) (name a b : jsstring) :
  CacheManager.simpleHash (a ++ lit "Aa" ++ b) = CacheManager.simpleHash (a ++ lit "BB" ++ b)
  /\ CacheManager.generateSourceHash (with_source before after name (a ++ lit "Aa" ++ b))
     = CacheManager.generateSourceHash (with_source before after name (a ++ lit "BB" ++ b))
  /\ a ++ lit "Aa" ++ b <> a ++ lit "BB" ++ b
  /\ (name ∉ Object_keys before ->
      Object_get (with_source before after name (a ++ lit "Aa" ++ b)) name
      = Some (a ++ lit "Aa" ++ b)
      /\ Object_get (with_source before after name (a ++ lit "BB" ++ b)) name
         = Some (a ++ lit "BB" ++ b)).
Proof.
  split_and!.
  - unfold CacheManager.simpleHash. cbv zeta. f_equal. f_equal.
    apply same_hash_app; [apply same_hash_refl|].
    apply (same_hash_app (lit "Aa") (lit "BB")); [apply same_hash_Aa_BB | apply same_hash_refl].
  - apply source_hash_swap.
  - intros Heq. apply app_inv_head in Heq. discriminate Heq.
  - intros Hn. split; by apply with_source_lookup.
Qed.



Lemma to_radix_aux_grows fuel n acc :
  (length acc <= length (to_radix_aux fuel 36 n acc))%nat.
Proof.
  revert n acc. induction fuel as [|fuel IH]; intros n acc; [done|].
  cbn [to_radix_aux]. destruct (n / 36 =? 0); [cbn; lia|].
  etransitivity; [|apply IH]. cbn; lia.
Qed.

Lemma to_radix_aux_length fuel n acc (k : nat) :
  0 <= n < 36 ^ Z.of_nat k -> (1 <= k)%nat ->
  (length (to_radix_aux fuel 36 n acc) <= length acc + k)%nat.
Proof.
  revert n acc k. induction fuel as [|fuel IH]; intros n acc k Hn Hk; [cbn; lia|].
  cbn [to_radix_aux]. destruct (Z.eqb_spec (n / 36) 0) as [|Hq]; [cbn; lia|].
  destruct k as [|[|k]]; [lia| |].
  - exfalso. apply Hq. apply Z.div_small. change (36 ^ Z.of_nat 1) with 36 in Hn. lia.
  - etransitivity; [apply (IH _ _ (S k))|cbn; lia]; [|lia].
    replace (Z.of_nat (S (S k))) with (Z.succ (Z.of_nat (S k))) in Hn by lia.
    rewrite Z.pow_succ_r in Hn by lia.
    split; [apply Z.div_pos; lia|]. apply Z.div_lt_upper_bound; lia.
Qed.

Lemma to_radix_aux_digits fuel n acc :
  0 <= n ->
  Forall (fun c => 48 <= c <= 57 \/ 97 <= c <= 122) acc ->
  Forall (fun c => 48 <= c <= 57 \/ 97 <= c <= 122) (to_radix_aux fuel 36 n acc).
Proof.
  revert n acc. induction fuel as [|fuel IH]; intros n acc Hn Hacc; [done|].
  cbn [to_radix_aux].
  assert (Hd : Forall (fun c => 48 <= c <= 57 \/ 97 <= c <= 122)
                 (digit_char (n mod 36) :: acc)).
  { constructor; [|exact Hacc]. unfold digit_char.
    pose proof (Z.mod_pos_bound n 36 ltac:(lia)).
    destruct (Z.ltb_spec (n mod 36) 10); lia. }
  destruct (n / 36 =? 0); [exact Hd|]. apply IH; [apply Z.div_pos; lia | exact Hd].
Qed.

Lemma hash_loop_range s : - 2 ^ 31 <= fold_left CacheManager.hash_step s 0 < 2 ^ 31.
Proof.
  induction s as [|c s' _] using rev_ind.
  - cbn. lia.
  - rewrite fold_left_app. cbn [fold_left]. rewrite hash_step_eq. apply ToInt32_range.
Qed.

(** X24.  [simpleHash] returns between one and six characters, each a digit
    or a lower-case letter: the absolute value of a 32-bit integer written
    in base 36.  So the hash takes at most [2^31 + 1] values, whatever the
    length of the text. *)
Theorem simpleHash_format (s : jsstring) :
  (1 <= length (CacheManager.simpleHash s) <= 6)%nat
  /\ Forall (fun c => 48 <= c <= 57 \/ 97 <= c <= 122) (CacheManager.simpleHash s)
  /\ exists n, 0 <= n <= 2 ^ 31 /\ CacheManager.simpleHash s = toString_radix 36 n.
Proof.
  unfold CacheManager.simpleHash. cbv zeta.
  pose proof (hash_loop_range s) as Hr.
  set (n := Z.abs (fold_left CacheManager.hash_step s 0)).
  assert (Hn : 0 <= n <= 2 ^ 31) by (unfold n; lia).
  split_and!.
  - unfold toString_radix. cbn [to_radix_aux].
    destruct (n / 36 =? 0); [cbn; lia|].
    etransitivity; [|apply to_radix_aux_grows]. cbn; lia.
  - unfold toString_radix.
    etransitivity; [apply (to_radix_aux_length _ _ _ 6%nat); [|lia]|cbn; lia].
    change (36 ^ Z.of_nat 6) with 2176782336. change (2 ^ 31) with 2147483648 in Hn. lia.
  - apply to_radix_aux_digits; [lia | constructor].
  - by exists n.
Qed.

